(** * Hinglish translator: the response parser and reassembler

    A shallow embedding of the two pipelines of the repository,
    [process_entire_json] (src/main_code.py) and [process_json]
    (src/streamlit_app.py), and the properties of the prompt builder,
    the response parser and the index-preserving reassembly.

    Modelling conventions.
    - A Python [str] is a list of Unicode code points ([N]).
    - [str.strip()], the regular expression class [\d] and [int()] follow
      CPython: the white-space set is [str.isspace], the digits are the
      characters of category Nd (Unicode 14.0, the tables of CPython 3.11),
      which come in blocks of ten consecutive code points of value 0..9.
    - Python integers are unbounded: ordinals are [N].  [int()] is given
      twice.  [Py.int] converts every run of digits: it is the interpreter
      with its limit on the length of a digit string off, and any
      interpreter on the runs of at most 4300 digits.  [Py.int_limited] is
      [int()] under the default limit of CPython 3.11 and later, which
      refuses a longer run with [ValueError].  The parsers are given for
      each ([MainCode] and [StreamlitApp], [MainCodeLimit] and
      [StreamlitAppLimit]); the whole programs run under the limit.
    - Exceptions are results in an error monad.
    - For the parser and the reassembly, [data] is the loaded JSON array
      and [response_text] is the text returned by the API call.  For the
      whole programs, the files, the console, the session and the API are
      an explicit state.  A dump that meets a text UTF-8 cannot encode
      (a surrogate) stops there and leaves the beginning of the text in
      the file.  The file system is taken to accept the writes: a file that
      cannot be opened or written ([OSError]) is outside the model. *)

From Stdlib Require Import Ascii String DecimalString DecimalNat.
From Stdlib Require Import List NArith PeanoNat Bool Lia Permutation Sorted FinFun.
Import ListNotations.

Set Implicit Arguments.

(** ** Exceptions *)

Inductive exn : Type :=
| ValueError
| IndexError
| UnicodeEncodeError
| JSONDecodeError.

Inductive result (A : Type) : Type :=
| Ok (a : A)
| Raise (e : exn).

Arguments Ok {A} a.
Arguments Raise {A} e.

Definition bind {A B : Type} (m : result A) (k : A -> result B) : result B :=
  match m with
  | Ok a => k a
  | Raise e => Raise e
  end.

Notation "x <- m ;; k" := (bind m (fun x => k))
  (at level 61, m at next level, right associativity).

(** ** Python strings *)

Module Py.

Definition char := N.
Definition str := list char.

(** A string literal, as the list of its code points (ASCII literals only). *)
Definition lit (s : string) : str := map N_of_ascii (list_ascii_of_string s).

Definition NL : char := 10%N.
Definition SPACE : char := 32%N.
Definition LBRACKET : char := 91%N.
Definition RBRACKET : char := 93%N.
Definition LBRACE : char := 123%N.
Definition RBRACE : char := 125%N.
Definition ZERO : char := 48%N.

(** [str.isspace] on one character. *)
Definition is_space (c : char) : bool :=
  ((9 <=? c) && (c <=? 13) || (28 <=? c) && (c <=? 32) || (c =? 133) || (c =? 160)
   || (c =? 5760) || (8192 <=? c) && (c <=? 8202) || (c =? 8232) || (c =? 8233)
   || (c =? 8239) || (c =? 8287) || (c =? 12288))%N.

(** The code point of the digit zero of every Nd block. *)
Definition decimal_zeros : list N :=
  [48; 1632; 1776; 1984; 2406; 2534; 2662; 2790; 2918; 3046; 3174; 3302; 3430;
   3558; 3664; 3792; 3872; 4160; 4240; 6112; 6160; 6470; 6608; 6784; 6800;
   6992; 7088; 7232; 7248; 42528; 43216; 43264; 43472; 43504; 43600; 44016;
   65296; 66720; 68912; 69734; 69872; 69942; 70096; 70384; 70736; 70864;
   71248; 71360; 71472; 71904; 72016; 72784; 73040; 73120; 92768; 92864;
   93008; 120782; 120792; 120802; 120812; 120822; 123200; 123632; 125264;
   130032]%N.

(** The decimal value of a character, when it is a decimal digit. *)
Definition decimal_value (c : char) : option N :=
  match find (fun z => (z <=? c) && (c <? z + 10))%N decimal_zeros with
  | Some z => Some (c - z)%N
  | None => None
  end.

(** The class [\d] of the [re] module on [str] patterns. *)
Definition is_decimal (c : char) : bool :=
  match decimal_value c with
  | Some _ => true
  | None => false
  end.

(** The code points that [s.encode('utf-8')] refuses: the surrogates. *)
Definition is_surrogate (c : char) : bool := ((55296 <=? c) && (c <=? 57343))%N.

(** A string that UTF-8 can encode. *)
Definition utf8_encodable (s : str) : bool :=
  forallb (fun c => negb (is_surrogate c)) s.

(** [s.lstrip()], [s.rstrip()] and [s.strip()]. *)
Fixpoint lstrip (s : str) : str :=
  match s with
  | [] => []
  | c :: s' => if is_space c then lstrip s' else s
  end.

Definition rstrip (s : str) : str := rev (lstrip (rev s)).

Definition strip (s : str) : str := rstrip (lstrip s).

(** [not s]: the truth value of a string. *)
Definition is_empty (s : str) : bool :=
  match s with
  | [] => true
  | _ :: _ => false
  end.

(** [s.split('\n')]. *)
Fixpoint split_nl (s : str) : list str :=
  match s with
  | [] => [[]]
  | c :: s' =>
      if (c =? NL)%N then [] :: split_nl s'
      else match split_nl s' with
           | l :: ls => (c :: l) :: ls
           | [] => [[c]]
           end
  end.

(** [sep.join(l)]. *)
Fixpoint join (sep : str) (l : list str) : str :=
  match l with
  | [] => []
  | x :: rest =>
      match rest with
      | [] => x
      | _ :: _ => x ++ sep ++ join sep rest
      end
  end.

(** [int(s)] on a string of decimal digits, the limit of the interpreter
    on the number of digits left aside (see [int_limited] below). *)
Definition int_step (acc : result N) (c : char) : result N :=
  a <- acc ;;
  match decimal_value c with
  | Some v => Ok (10 * a + v)%N
  | None => Raise ValueError
  end.

Definition int (s : str) : result N :=
  match s with
  | [] => Raise ValueError
  | _ :: _ => fold_left int_step s (Ok 0%N)
  end.

(** The default limit of the interpreter on the number of digits of a
    string given to [int()] ([sys.int_info.default_max_str_digits], since
    CPython 3.11). *)
Definition DEFAULT_MAX_STR_DIGITS : N := 4300%N.

(** [int(s)] under this limit: a string of more than 4300 digits is
    refused with [ValueError], leading zeros counted. *)
Definition int_limited (s : str) : result N :=
  if (DEFAULT_MAX_STR_DIGITS <? N.of_nat (length s))%N then Raise ValueError
  else int s.

(** [str(n)] for a non-negative integer: its decimal digits, most
    significant first.  [fuel] bounds the number of digits. *)
Fixpoint digits_of (fuel : nat) (n : N) (acc : str) : str :=
  let acc' := (ZERO + n mod 10)%N :: acc in
  match fuel with
  | O => acc'
  | S fuel' => if (n / 10 =? 0)%N then acc' else digits_of fuel' (n / 10)%N acc'
  end.

Definition str_of_nat (n : nat) : str := digits_of n (N.of_nat n) [].

(** ** The ordinal-marker pattern

    The pattern of [re.match] is: start of the line, an opening square
    bracket, group 1 made of one or more [\d], a closing square bracket,
    and group 2 made of any number of characters other than the line feed.
    The run of digits is greedy; giving back a digit can never help,
    because the next pattern character is the closing bracket, which is not
    a digit: the longest run of digits is the only candidate for group 1.
    Group 2 takes every character up to the first line feed (there is none
    in a line produced by [split_nl]). *)

Fixpoint span_decimal (s : str) : str * str :=
  match s with
  | [] => ([], [])
  | c :: s' =>
      if is_decimal c then
        let (ds, rest) := span_decimal s' in (c :: ds, rest)
      else ([], s)
  end.

Fixpoint dot_star (s : str) : str :=
  match s with
  | [] => []
  | c :: s' => if (c =? NL)%N then [] else c :: dot_star s'
  end.

(** The groups [(group(1), group(2))] of a match, [None] when the line does
    not match. *)
Definition re_match_index (line : str) : option (str * str) :=
  match line with
  | [] => None
  | c :: s =>
      if (c =? LBRACKET)%N then
        let (ds, after) := span_decimal s in
        if is_empty ds then None
        else match after with
             | [] => None
             | c' :: rest =>
                 if (c' =? RBRACKET)%N then Some (ds, dot_star rest) else None
             end
      else None
  end.

(** [tpl.format(arg0)] for templates whose only replacement field is the
    positional field 0; a doubled brace is an escaped brace.  Any other use
    of a brace is reported as [ValueError]. *)
Fixpoint format (tpl : str) (arg0 : str) : result str :=
  match tpl with
  | [] => Ok []
  | c :: t =>
      if (c =? LBRACE)%N then
        match t with
        | [] => Raise ValueError
        | c1 :: t1 =>
            if (c1 =? LBRACE)%N then
              r <- format t1 arg0 ;; Ok (LBRACE :: r)
            else if (c1 =? ZERO)%N then
              match t1 with
              | [] => Raise ValueError
              | c2 :: t2 =>
                  if (c2 =? RBRACE)%N then
                    r <- format t2 arg0 ;; Ok (arg0 ++ r)
                  else Raise ValueError
              end
            else Raise ValueError
        end
      else if (c =? RBRACE)%N then
        match t with
        | [] => Raise ValueError
        | c1 :: t1 =>
            if (c1 =? RBRACE)%N then
              r <- format t1 arg0 ;; Ok (RBRACE :: r)
            else Raise ValueError
        end
      else
        r <- format t arg0 ;; Ok (c :: r)
  end.

(** [enumerate(l)], counting from [i]. *)
Fixpoint enumerate_from (A : Type) (i : nat) (l : list A) : list (nat * A) :=
  match l with
  | [] => []
  | x :: l' => (i, x) :: enumerate_from (S i) l'
  end.

Definition enumerate (A : Type) (l : list A) : list (nat * A) :=
  enumerate_from 0 l.

(** [range(a, b)]. *)
Definition range (a b : nat) : list nat := seq a (b - a).

(** [l[i]]. *)
Definition getitem (A : Type) (l : list A) (i : nat) : result A :=
  match nth_error l i with
  | Some x => Ok x
  | None => Raise IndexError
  end.

(** A [for] loop whose body may raise: the state is threaded through the
    iterations and the first exception ends the loop. *)
Fixpoint for_each (S B : Type) (body : S -> B -> result S) (l : list B) (s : S)
  : result S :=
  match l with
  | [] => Ok s
  | b :: l' => s' <- body s b ;; for_each body l' s'
  end.

(** [l.sort(key=...)]: the sort is stable, so its result is the one of
    any stable sort; here, insertion from the right, an element going in
    front of the elements whose key is not smaller. *)
Section Sort.
Variable A : Type.
Variable key : A -> N.

Fixpoint insert_by_key (x : A) (l : list A) : list A :=
  match l with
  | [] => [x]
  | y :: l' =>
      if (key x <=? key y)%N then x :: l else y :: insert_by_key x l'
  end.

Fixpoint sort_by_key (l : list A) : list A :=
  match l with
  | [] => []
  | x :: l' => insert_by_key x (sort_by_key l')
  end.
End Sort.


End Py.

Import Py.

(** ** Data model *)

(** An input or output item: the JSON object with the one key [text]. *)
Record item : Type := { text : str }.

(** The local variables of the parsing loop. *)
Record parser_state : Type := {
  translations : list (N * str);
  current_index : option N;
  current_text : str
}.

(** ** The batch variant: src/main_code.py *)

Module MainCode.

(** *** Prompt builder *)

Definition prompt_template : str :=
  join [NL]
    [lit "";
     lit "    Translate the following English texts to natural, conversational Hinglish (Hindi-English mix).";
     lit "";
     lit "    Guidelines:";
     lit "    1. Keep translations natural sounding, not robotic or literal";
     lit "    2. important : Convert numbers or numerical values to words in 'hindi' words.";
     lit "    3. Maintain English words that are commonly used in Hinglish conversation";
     lit "    4. Consider context between sentences for a natural flow";
     lit "    5. The output should feel like a casual conversation between Indians";
     lit "";
     lit "    For each text below, provide the Hinglish translation. Maintain the numbering format exactly as [1], [2], etc.";
     lit "";
     lit "    {0}";
     lit "";
     lit "    Return ONLY the translated texts with their corresponding numbers in this exact format:";
     lit "    [1] <Hinglish translation>";
     lit "    [2] <Hinglish translation>";
     lit "    ...";
     lit "";
     lit "    Do not include any explanations, only the numbered translations.";
     lit "    "].

Definition texts_to_translate (data : list item) : list str :=
  map text data.

Definition texts_with_indices (data : list item) : list str :=
  map (fun '(i, t) => lit "[" ++ str_of_nat (i + 1) ++ lit "] " ++ t)
      (enumerate (texts_to_translate data)).

Definition prompt (data : list item) : result str :=
  format prompt_template (join [NL; NL] (texts_with_indices data)).

(** *** Response parser *)

(** The body of the loop over the lines of the response. *)
Definition parse_line (st : parser_state) (line : str) : result parser_state :=
  let line := strip line in
  if is_empty line then Ok st
  else
    match re_match_index line with
    | Some (group1, group2) =>
        let translations :=
          match current_index st with
          | Some idx => translations st ++ [(idx, strip (current_text st))]
          | None => translations st
          end in
        idx <- int group1 ;;
        Ok {| translations := translations;
              current_index := Some idx;
              current_text := strip group2 |}
    | None =>
        Ok {| translations := translations st;
              current_index := current_index st;
              current_text := current_text st ++ [SPACE] ++ line |}
    end.

(** The list [translations] after the loop and the last append. *)
Definition parse_translations (response_text : str) : result (list (N * str)) :=
  let translated_text := strip response_text in
  let lines := split_nl translated_text in
  st <- for_each parse_line lines
          {| translations := []; current_index := None; current_text := [] |} ;;
  match current_index st with
  | Some idx => Ok (translations st ++ [(idx, strip (current_text st))])
  | None => Ok (translations st)
  end.

(** *** Reassembly *)

(** The loop that keeps the entries whose ordinal is in range. *)
Definition create_output_data (data : list item) (translations : list (N * str))
  : list item :=
  fold_left
    (fun output_data '(idx, trans_text) =>
       if ((1 <=? idx) && (idx <=? N.of_nat (length data)))%N
       then output_data ++ [{| text := trans_text |}]
       else output_data)
    translations [].

(** The padding with placeholders. *)
Definition fill_placeholders (data : list item) (output_data : list item)
  : result (list item) :=
  if length output_data <? length data then
    for_each
      (fun output_data i =>
         d <- getitem data i ;;
         Ok (output_data
               ++ [{| text := lit "[Translation missing for: " ++ text d ++ lit "]" |}]))
      (range (length output_data) (length data)) output_data
  else Ok output_data.

(** The warning printed when the number of parsed entries is not the
    number of input items. *)
Definition verify_count (data : list item) (translations : list (N * str))
  : list str :=
  if negb (length translations =? length data) then
    [lit "Warning: Expected " ++ str_of_nat (length data)
       ++ lit " translations but got " ++ str_of_nat (length translations)
       ++ lit "."]
  else [].

(** [process_entire_json], from the parsing of the response to the end of
    the reassembly: the lines printed by this part and the value the
    function returns (or the exception raised).  The writing of the output
    file, which comes between the reassembly and the return, and the
    messages printed around this part are outside the model. *)
Definition process_entire_json (data : list item) (response_text : str)
  : list str * result (list item) :=
  match parse_translations response_text with
  | Raise e => ([], Raise e)
  | Ok translations =>
      let printed := verify_count data translations in
      let translations := sort_by_key fst translations in
      let output_data := create_output_data data translations in
      (printed, fill_placeholders data output_data)
  end.

End MainCode.

(** ** The interactive variant: src/streamlit_app.py *)

Module StreamlitApp.

(** *** Prompt builder *)

Definition prompt_template : str :=
  join [NL]
    [lit "";
     lit "    Translate the following English texts to natural, conversational Hinglish (Hindi-English mix).";
     lit "    ";
     lit "    Guidelines:";
     lit "    1. Keep translations natural sounding, not robotic or literal";
     lit "    2. Convert numbers or numerical values or currencies to words in 'hindi'. ";
     lit "    3. Maintain English words that are commonly used in Hinglish conversation";
     lit "    4. Consider context between sentences for a natural flow";
     lit "    5. The output should feel like a casual conversation between Indians";
     lit "    ";
     lit "    For each text below, provide the Hinglish translation. Maintain the numbering format exactly as [1], [2], etc.";
     lit "    ";
     lit "    {0}";
     lit "    ";
     lit "    Return ONLY the translated texts with their corresponding numbers in this exact format:";
     lit "    [1] <Hinglish translation>";
     lit "    [2] <Hinglish translation>";
     lit "    ...";
     lit "    ";
     lit "    Do not include any explanations, only the numbered translations.";
     lit "    "].

Definition texts_to_translate (data : list item) : list str :=
  map text data.

Definition texts_with_indices (data : list item) : list str :=
  map (fun '(i, t) => lit "[" ++ str_of_nat (i + 1) ++ lit "] " ++ t)
      (enumerate (texts_to_translate data)).

Definition prompt (data : list item) : result str :=
  format prompt_template (join [NL; NL] (texts_with_indices data)).

(** *** Response parser *)

(** The body of the loop over the lines of the response. *)
Definition parse_line (st : parser_state) (line : str) : result parser_state :=
  let line := strip line in
  if is_empty line then Ok st
  else
    match re_match_index line with
    | Some (group1, group2) =>
        let translations :=
          match current_index st with
          | Some idx => translations st ++ [(idx, strip (current_text st))]
          | None => translations st
          end in
        idx <- int group1 ;;
        Ok {| translations := translations;
              current_index := Some idx;
              current_text := strip group2 |}
    | None =>
        Ok {| translations := translations st;
              current_index := current_index st;
              current_text := current_text st ++ [SPACE] ++ line |}
    end.

(** The list [translations] after the loop and the last append. *)
Definition parse_translations (response_text : str) : result (list (N * str)) :=
  let translated_text := strip response_text in
  let lines := split_nl translated_text in
  st <- for_each parse_line lines
          {| translations := []; current_index := None; current_text := [] |} ;;
  match current_index st with
  | Some idx => Ok (translations st ++ [(idx, strip (current_text st))])
  | None => Ok (translations st)
  end.

(** *** Reassembly *)

(** The loop that keeps the entries whose ordinal is in range. *)
Definition create_output_data (data : list item) (translations : list (N * str))
  : list item :=
  fold_left
    (fun output_data '(idx, trans_text) =>
       if ((1 <=? idx) && (idx <=? N.of_nat (length data)))%N
       then output_data ++ [{| text := trans_text |}]
       else output_data)
    translations [].

(** The padding with placeholders. *)
Definition fill_placeholders (data : list item) (output_data : list item)
  : result (list item) :=
  if length output_data <? length data then
    for_each
      (fun output_data i =>
         d <- getitem data i ;;
         Ok (output_data
               ++ [{| text := lit "[Translation missing for: " ++ text d ++ lit "]" |}]))
      (range (length output_data) (length data)) output_data
  else Ok output_data.

(** [process_json], from the parsing of the response to the return: the
    messages shown to the user by this part (there is none: this variant
    has no check of the count) and the value the function returns (or the
    exception raised). *)
Definition process_json (data : list item) (response_text : str)
  : list str * result (list item) :=
  match parse_translations response_text with
  | Raise e => ([], Raise e)
  | Ok translations =>
      let translations := sort_by_key fst translations in
      let output_data := create_output_data data translations in
      ([], fill_placeholders data output_data)
  end.

End StreamlitApp.

(** ** The two parsers under the interpreter's limit on [int()]

    [MainCode] and [StreamlitApp] above read [int()] as the conversion of
    every run of digits: this is the interpreter with the limit off, and
    any interpreter on the responses whose markers have at most 4300
    digits.  The two modules below are the same lines of the sources
    under the default limit of CPython 3.11 and later, where [int()]
    raises [ValueError] on a longer run. *)

Module MainCodeLimit.

(** The body of the loop over the lines of the response. *)
Definition parse_line (st : parser_state) (line : str) : result parser_state :=
  let line := strip line in
  if is_empty line then Ok st
  else
    match re_match_index line with
    | Some (group1, group2) =>
        let translations :=
          match current_index st with
          | Some idx => translations st ++ [(idx, strip (current_text st))]
          | None => translations st
          end in
        idx <- int_limited group1 ;;
        Ok {| translations := translations;
              current_index := Some idx;
              current_text := strip group2 |}
    | None =>
        Ok {| translations := translations st;
              current_index := current_index st;
              current_text := current_text st ++ [SPACE] ++ line |}
    end.

(** The list [translations] after the loop and the last append. *)
Definition parse_translations (response_text : str) : result (list (N * str)) :=
  let translated_text := strip response_text in
  let lines := split_nl translated_text in
  st <- for_each parse_line lines
          {| translations := []; current_index := None; current_text := [] |} ;;
  match current_index st with
  | Some idx => Ok (translations st ++ [(idx, strip (current_text st))])
  | None => Ok (translations st)
  end.

(** [process_entire_json], from the parsing of the response to the end of
    the reassembly; the count check, the in-range loop and the padding are
    the ones of [MainCode]. *)
Definition process_entire_json (data : list item) (response_text : str)
  : list str * result (list item) :=
  match parse_translations response_text with
  | Raise e => ([], Raise e)
  | Ok translations =>
      let printed := MainCode.verify_count data translations in
      let translations := sort_by_key fst translations in
      let output_data := MainCode.create_output_data data translations in
      (printed, MainCode.fill_placeholders data output_data)
  end.

End MainCodeLimit.

Module StreamlitAppLimit.

(** The body of the loop over the lines of the response. *)
Definition parse_line (st : parser_state) (line : str) : result parser_state :=
  let line := strip line in
  if is_empty line then Ok st
  else
    match re_match_index line with
    | Some (group1, group2) =>
        let translations :=
          match current_index st with
          | Some idx => translations st ++ [(idx, strip (current_text st))]
          | None => translations st
          end in
        idx <- int_limited group1 ;;
        Ok {| translations := translations;
              current_index := Some idx;
              current_text := strip group2 |}
    | None =>
        Ok {| translations := translations st;
              current_index := current_index st;
              current_text := current_text st ++ [SPACE] ++ line |}
    end.

(** The list [translations] after the loop and the last append. *)
Definition parse_translations (response_text : str) : result (list (N * str)) :=
  let translated_text := strip response_text in
  let lines := split_nl translated_text in
  st <- for_each parse_line lines
          {| translations := []; current_index := None; current_text := [] |} ;;
  match current_index st with
  | Some idx => Ok (translations st ++ [(idx, strip (current_text st))])
  | None => Ok (translations st)
  end.

(** [process_json], from the parsing of the response to the return; the
    in-range loop and the padding are the ones of [StreamlitApp]. *)
Definition process_json (data : list item) (response_text : str)
  : list str * result (list item) :=
  match parse_translations response_text with
  | Raise e => ([], Raise e)
  | Ok translations =>
      let translations := sort_by_key fst translations in
      let output_data := StreamlitApp.create_output_data data translations in
      ([], StreamlitApp.fill_placeholders data output_data)
  end.

End StreamlitAppLimit.

(** ** The programs around the parser: files, console, session and API *)

(** A JSON object whose values are strings, as [json.load] gives it: the
    keys are distinct.  The input files are taken to hold an array of such
    objects, or not to be JSON at all. *)
Definition dict : Type := list (str * str).

Fixpoint str_eqb (a b : str) : bool :=
  match a, b with
  | [], [] => true
  | x :: a', y :: b' => (x =? y)%N && str_eqb a' b'
  | _, _ => false
  end.

(** [d.get(key)], [None] when the key is missing. *)
Fixpoint dict_get (d : dict) (key : str) : option str :=
  match d with
  | [] => None
  | (k, v) :: d' => if str_eqb k key then Some v else dict_get d' key
  end.

(** The exceptions of the whole programs: the [KeyError] of a missing
    key, and the exceptions whose text comes from outside the program (the
    API client, the JSON decoder, the operating system, the interpreter). *)
Inductive failure : Type :=
| KeyError (key : str)
| External (message : str).

Inductive outcome (A : Type) : Type :=
| Done (a : A)
| Failed (f : failure).

Arguments Done {A} a.
Arguments Failed {A} f.

(** [str(e)]: a [KeyError] shows the key between quotes (the one key
    looked up has no character to escape). *)
Definition message_of (f : failure) : str :=
  match f with
  | KeyError key => lit "'" ++ key ++ lit "'"
  | External message => message
  end.

(** A line given to the console or to the page.  The lines that show a
    duration (a float formatted with two decimals) keep the text around it
    only: the clock is outside the model. *)
Inductive line : Type :=
| Text (s : str)
| Timed (before after : str).

(** What a file holds. *)
Inductive content : Type :=
| Json (data : list dict)
| NotJson (decoder_message : str).

(** [item["text"]]. *)
Definition getitem_text (item : dict) : outcome str :=
  match dict_get item (lit "text") with
  | Some t => Done t
  | None => Failed (KeyError (lit "text"))
  end.

(** [[item["text"] for item in data]]. *)
Fixpoint texts_of (data : list dict) : outcome (list str) :=
  match data with
  | [] => Done []
  | item :: data' =>
      match getitem_text item with
      | Failed f => Failed f
      | Done t =>
          match texts_of data' with
          | Failed f => Failed f
          | Done ts => Done (t :: ts)
          end
      end
  end.

(** The object [{"text": ...}] of an output item. *)
Definition dict_of_item (o : item) : dict := [(lit "text", text o)].

(** The arrays that a file opened with the encoding UTF-8 can hold: no
    key and no value has a surrogate. *)
Definition encodable (data : list dict) : bool :=
  forallb (fun d => forallb (fun kv => utf8_encodable (fst kv) && utf8_encodable (snd kv)) d)
          data.

(** ** The whole of src/main_code.py *)

Module Batch.

Definition INPUT_FILE : str := lit "input.json".
Definition OUTPUT_FILE : str := lit "output.json".

(** The state outside the program: the files, the lines printed and the
    prompts sent to the API, the oldest first. *)
Record world : Type := {
  files : str -> option content;
  console : list line;
  requests : list str
}.

(** A computation that reads and changes the world and may raise. *)
Definition io (A : Type) : Type := world -> world * outcome A.

Definition io_ret (A : Type) (a : A) : io A := fun w => (w, Done a).

Definition io_bind (A B : Type) (m : io A) (k : A -> io B) : io B :=
  fun w =>
    match m w with
    | (w', Done a) => k a w'
    | (w', Failed f) => (w', Failed f)
    end.

Notation "x <~ m ;; k" := (io_bind m (fun x => k))
  (at level 61, m at next level, right associativity).

Definition io_raise (A : Type) (f : failure) : io A := fun w => (w, Failed f).

(** [try: body except Exception as e: handler(e)]. *)
Definition try_except (body : io unit) (handler : failure -> io unit) : io unit :=
  fun w =>
    match body w with
    | (w', Done tt) => (w', Done tt)
    | (w', Failed f) => handler f w'
    end.

Definition print (l : line) : io unit :=
  fun w =>
    ({| files := files w; console := console w ++ [l]; requests := requests w |},
     Done tt).

Fixpoint print_all (ls : list str) : io unit :=
  match ls with
  | [] => io_ret tt
  | l :: ls' => _ <~ print (Text l) ;; print_all ls'
  end.

(** [os.path.exists(name)]. *)
Definition path_exists (name : str) : io bool :=
  fun w =>
    (w, Done match files w name with Some _ => true | None => false end).

Section Environment.

(** The API: the text of the response to a prompt, or the exception of
    the call. *)
Variable generate_content : str -> outcome str.

(** The text of the interpreter's exceptions, and of the error of opening a
    file that does not exist. *)
Variable exception_text : exn -> str.
Variable missing_file_text : str -> str.

Definition of_result (A : Type) (r : result A) : io A :=
  match r with
  | Ok a => io_ret a
  | Raise e => io_raise A (External (exception_text e))
  end.

Definition of_outcome (A : Type) (o : outcome A) : io A := fun w => (w, o).

(** [with open(name, 'w', encoding='utf-8') as f: json.dump(data, f,
    ensure_ascii=False, indent=2)].  Opening the file empties it, and the
    dump writes the text piece by piece: the pieces of an object are its
    braces, its keys and its values.  A key or a value that holds a
    surrogate cannot be encoded: the dump stops there with
    [UnicodeEncodeError], and the file keeps the pieces written before,
    which are the beginning of a JSON text and not JSON (the decoder
    refuses them).  The file system is taken to accept the writes: a file
    that cannot be opened or written ([OSError]) is outside the model. *)
Definition write_json (name : str) (data : list dict) : io unit :=
  fun w =>
    if encodable data then
      ({| files := fun n => if str_eqb n name then Some (Json data) else files w n;
          console := console w;
          requests := requests w |},
       Done tt)
    else
      ({| files := fun n => if str_eqb n name
                            then Some (NotJson (exception_text JSONDecodeError))
                            else files w n;
          console := console w;
          requests := requests w |},
       Failed (External (exception_text UnicodeEncodeError))).

(** [with open(name, 'r') as f: data = json.load(f)]. *)
Definition load_json (name : str) : io (list dict) :=
  fun w =>
    match files w name with
    | None => (w, Failed (External (missing_file_text name)))
    | Some (NotJson decoder_message) => (w, Failed (External decoder_message))
    | Some (Json data) => (w, Done data)
    end.

(** [model.generate_content(prompt)] and [response.text]. *)
Definition request (prompt : str) : io str :=
  fun w =>
    ({| files := files w; console := console w; requests := requests w ++ [prompt] |},
     generate_content prompt).

(** [process_entire_json(input_file, output_file)], whole. *)
Definition process_entire_json (input_file output_file : str) : io (list dict) :=
  data <~ load_json input_file ;;
  _ <~ print (Text (lit "Found " ++ str_of_nat (length data)
                      ++ lit " entries to translate.")) ;;
  texts_to_translate <~ of_outcome (texts_of data) ;;
  let items := map (fun t => {| text := t |}) texts_to_translate in
  prompt <~ of_result (MainCode.prompt items) ;;
  _ <~ print (Text (lit "Sending request to Gemini API...")) ;;
  response_text <~ request prompt ;;
  _ <~ print (Timed (lit "Got response from API in ") (lit " seconds.")) ;;
  let (printed, returned) := MainCodeLimit.process_entire_json items response_text in
  _ <~ print_all printed ;;
  output_data <~ of_result returned ;;
  _ <~ write_json output_file (map dict_of_item output_data) ;;
  _ <~ print (Text (lit "Successfully processed translations and saved to "
                      ++ output_file)) ;;
  io_ret (map dict_of_item output_data).

Definition sample_texts : list str :=
  [lit "Nothing, you just have to go to DubFlix.in, take a video of yours, upload it, and that's it.";
   lit "Choose the target language.";
   lit "Or just submit the way and in two to three minutes you get your dubbed videos.";
   lit "It costs only $6 and Rs.50 for a 5 minute video."].

(** [create_sample_input()]. *)
Definition create_sample_input : io str :=
  let sample_data := map (fun t => [(lit "text", t)]) sample_texts in
  _ <~ write_json INPUT_FILE sample_data ;;
  _ <~ print (Text (lit "Created sample input file with "
                      ++ str_of_nat (length sample_texts) ++ lit " entries.")) ;;
  io_ret INPUT_FILE.

(** [not api_key], for the value of [os.getenv]. *)
Definition not_set (api_key : option str) : bool :=
  match api_key with
  | None => true
  | Some key => is_empty key
  end.

(** [main()], for the value [api_key] of the environment variable. *)
Definition main (api_key : option str) : io unit :=
  _ <~ print (Text (lit "DubFlix English to Hinglish Translator (Batch Processing)")) ;;
  _ <~ print (Text (lit "------------------------------------------------------")) ;;
  found <~ path_exists INPUT_FILE ;;
  _ <~ (if negb found then
          _ <~ print (Text (lit "Input file " ++ INPUT_FILE
                              ++ lit " not found. Creating sample file...")) ;;
          _ <~ create_sample_input ;;
          io_ret tt
        else
          print (Text (lit "Using existing input file: " ++ INPUT_FILE))) ;;
  _ <~ print (Text ([NL] ++ lit "Processing " ++ INPUT_FILE ++ lit " to "
                      ++ OUTPUT_FILE ++ lit "...")) ;;
  try_except
    (if not_set api_key then
       print (Text (lit "Error: Google API key not found."))
     else
       _ <~ process_entire_json INPUT_FILE OUTPUT_FILE ;;
       print (Timed ([NL] ++ lit "Processing completed in ") (lit " seconds.")))
    (fun e => print (Text (lit "Error occurred: " ++ message_of e))).

End Environment.

End Batch.

(** ** The translation and the results of src/streamlit_app.py *)

Module Interactive.

(** The keys of [st.session_state] the code sets, [None] for a key that is
    not set.  The key [translation_time] holds a float and is left out. *)
Record session_state : Type := {
  input_data : option (list dict);
  output_data : option (list dict);
  tab_index : option nat
}.

(** The messages put on the page by [st.success], [st.error] and
    [st.info]. *)
Inductive message : Type :=
| Success (l : line)
| Error (s : str)
| Info (s : str).

(** The state of a run of the script: the session, the messages shown
    and the prompts sent to the API, the oldest first. *)
Record page : Type := {
  session : session_state;
  messages : list message;
  requests : list str
}.

Definition ui (A : Type) : Type := page -> page * outcome A.

Definition ui_ret (A : Type) (a : A) : ui A := fun p => (p, Done a).

Definition ui_bind (A B : Type) (m : ui A) (k : A -> ui B) : ui B :=
  fun p =>
    match m p with
    | (p', Done a) => k a p'
    | (p', Failed f) => (p', Failed f)
    end.

Notation "x <~ m ;; k" := (ui_bind m (fun x => k))
  (at level 61, m at next level, right associativity).

Definition try_except (body : ui unit) (handler : failure -> ui unit) : ui unit :=
  fun p =>
    match body p with
    | (p', Done tt) => (p', Done tt)
    | (p', Failed f) => handler f p'
    end.

Definition show (m : message) : ui unit :=
  fun p =>
    ({| session := session p; messages := messages p ++ [m]; requests := requests p |},
     Done tt).

Definition set_session (f : session_state -> session_state) : ui unit :=
  fun p =>
    ({| session := f (session p); messages := messages p; requests := requests p |},
     Done tt).

Definition of_outcome (A : Type) (o : outcome A) : ui A := fun p => (p, o).

(** The rows of the comparison table: the number, the English text and
    the Hinglish text. *)
Definition row : Type := (nat * str * str)%type.

(** The loop over [enumerate(zip(input_data, output_data))], the rows
    counted from [i]. *)
Fixpoint comparison_rows (i : nat) (pairs : list (dict * dict)) : outcome (list row) :=
  match pairs with
  | [] => Done []
  | (inp, out) :: pairs' =>
      match getitem_text inp with
      | Failed f => Failed f
      | Done english =>
          match getitem_text out with
          | Failed f => Failed f
          | Done hinglish =>
              match comparison_rows (S i) pairs' with
              | Failed f => Failed f
              | Done rows => Done ((i + 1, english, hinglish) :: rows)
              end
          end
      end
  end.

Definition comparison_data (input_data output_data : list dict) : outcome (list row) :=
  comparison_rows 0 (combine input_data output_data).

(** What the Results tab shows. *)
Inductive view : Type :=
| Table (rows : list row)
| Nothing
| Notice (s : str).

(** The Results tab: the table when [output_data] is set and not empty and
    [input_data] is set, the notice when [output_data] is not set or is
    empty. *)
Definition results_tab (s : session_state) : outcome view :=
  match output_data s with
  | Some (o :: out) =>
      match input_data s with
      | Some inp =>
          match comparison_data inp (o :: out) with
          | Failed f => Failed f
          | Done rows => Done (Table rows)
          end
      | None => Done Nothing
      end
  | _ =>
      Done (Notice ([128072%N]
              ++ lit " Upload a file and translate it first to see results here"))
  end.

Section Environment.

Variable generate_content : str -> outcome str.
Variable exception_text : exn -> str.

Definition of_result (A : Type) (r : result A) : ui A :=
  match r with
  | Ok a => ui_ret a
  | Raise e => fun p => (p, Failed (External (exception_text e)))
  end.

Definition request (prompt : str) : ui str :=
  fun p =>
    ({| session := session p; messages := messages p;
        requests := requests p ++ [prompt] |},
     generate_content prompt).

(** [process_json(data)], whole.  The spinner and the progress bar leave
    nothing on the page, and [get_model()] is taken to return the client. *)
Definition process_json (data : list dict) : ui (list dict) :=
  texts_to_translate <~ of_outcome (texts_of data) ;;
  let items := map (fun t => {| text := t |}) texts_to_translate in
  prompt <~ of_result (StreamlitApp.prompt items) ;;
  response_text <~ request prompt ;;
  _ <~ show (Success (Timed ([9989%N] ++ lit " Translation completed in ")
                            (lit " seconds!"))) ;;
  output_data <~ of_result (snd (StreamlitAppLimit.process_json items response_text)) ;;
  ui_ret (map dict_of_item output_data).

(** The branch of the Translate button, for what [json.load] gives on the
    uploaded file.  [st.rerun()] ends the run. *)
Definition on_translate (uploaded_file : content) : ui unit :=
  try_except
    (input_data <~ of_outcome
                     match uploaded_file with
                     | Json data => Done data
                     | NotJson decoder_message => Failed (External decoder_message)
                     end ;;
     _ <~ set_session (fun s => {| input_data := Some input_data;
                                   output_data := output_data s;
                                   tab_index := tab_index s |}) ;;
     output <~ process_json input_data ;;
     _ <~ set_session (fun s => {| input_data := Interactive.input_data s;
                                   output_data := Some output;
                                   tab_index := tab_index s |}) ;;
     set_session (fun s => {| input_data := Interactive.input_data s;
                              output_data := Interactive.output_data s;
                              tab_index := Some 1 |}))
    (fun e => show (Error (lit "Error: " ++ message_of e))).

End Environment.

End Interactive.

(** * Notions used in the statements *)

(** A string made of white space only. *)
Definition all_space (s : str) : bool := forallb is_space s.

(** The lines the parsing loop does not skip, as it sees them. *)
Definition nonblank (l : str) : bool := negb (is_empty l).

Definition nonblank_lines (s : str) : list str :=
  filter nonblank (map strip (split_nl s)).

(** A string without a line feed. *)
Definition single_line (l : str) : Prop := ~ In NL l.

(** The number a run of decimal digits denotes. *)
Definition digit_value (c : char) : N :=
  match decimal_value c with
  | Some v => v
  | None => 0%N
  end.

Definition decimal_number (s : str) : N :=
  fold_left (fun a c => (10 * a + digit_value c)%N) s 0%N.

(** The text of an entry whose marker line carries [text] and whose
    continuation lines are [cs]: one string joined by single spaces. *)
Definition space_joined (text : str) (cs : list str) : str :=
  join [SPACE] (text :: cs).

(** The continuation lines of an entry, among the lines that follow its
    marker line: the trimmed lines, the empty ones left out, up to the next
    marker line. *)
Fixpoint continuation (lines : list str) : list str :=
  match lines with
  | [] => []
  | l :: rest =>
      if is_empty (strip l) then continuation rest
      else match re_match_index (strip l) with
           | Some _ => []
           | None => strip l :: continuation rest
           end
  end.

(** The entries of a response, read off its lines: one entry per marker
    line, made of the ordinal, the text of the marker line and the
    continuation lines that follow.  The lines before the first marker line
    belong to no entry. *)
Fixpoint entries (lines : list str) : list (N * str) :=
  match lines with
  | [] => []
  | l :: rest =>
      match re_match_index (strip l) with
      | Some (g1, g2) =>
          (decimal_number g1, strip (space_joined (strip g2) (continuation rest)))
            :: entries rest
      | None => entries rest
      end
  end.

(** What the parser would append if the open entry of [st] were closed
    after the continuation lines [cs]. *)
Definition closed (st : parser_state) (cs : list str) : list (N * str) :=
  match current_index st with
  | Some idx =>
      translations st
        ++ [(idx, strip (fold_left (fun t c => t ++ [SPACE] ++ c) cs (current_text st)))]
  | None => translations st
  end.

(** An ordinal that names a position of an input of [n] items. *)
Definition in_range (n : nat) (idx : N) : bool :=
  ((1 <=? idx) && (idx <=? N.of_nat n))%N.

(** The placeholder for an input item. *)
Definition placeholder (d : item) : item :=
  {| text := lit "[Translation missing for: " ++ text d ++ lit "]" |}.

(** The output items of the entries of [translations] that are in range,
    in the order of the list. *)
Definition kept (n : nat) (translations : list (N * str)) : list item :=
  map (fun e => {| text := snd e |}) (filter (fun e => in_range n (fst e)) translations).

(** The response line of the entry with ordinal [i] and text [t]. *)
Definition entry_line (e : nat * str) : str :=
  lit "[" ++ str_of_nat (fst e) ++ lit "] " ++ snd e.

(** The response made of one line per entry. *)
Definition response_of (es : list (nat * str)) : str :=
  join [NL] (map entry_line es).

(** The entries [1] .. [N] with the texts [ts], in ascending order. *)
Definition numbered (ts : list str) : list (nat * str) :=
  combine (seq 1 (length ts)) ts.

(** The orders on the elements of a list that its keys induce. *)
Definition key_le (A : Type) (key : A -> N) (x y : A) : Prop := (key x <= key y)%N.

Definition key_lt (A : Type) (key : A -> N) (x y : A) : Prop := (key x < key y)%N.

(** The parsed entry of a response line [entry_line e]. *)
Definition parsed (e : nat * str) : N * str := (N.of_nat (fst e), strip (snd e)).

(** The entries whose text is on one line. *)
Definition single_line_entries (es : list (nat * str)) : Prop :=
  Forall (fun e => single_line (snd e)) es.

(** The instructions before the items, in src/main_code.py. *)
Definition main_prompt_prefix : str :=
  join [NL]
    [lit "";
     lit "    Translate the following English texts to natural, conversational Hinglish (Hindi-English mix).";
     lit "";
     lit "    Guidelines:";
     lit "    1. Keep translations natural sounding, not robotic or literal";
     lit "    2. important : Convert numbers or numerical values to words in 'hindi' words.";
     lit "    3. Maintain English words that are commonly used in Hinglish conversation";
     lit "    4. Consider context between sentences for a natural flow";
     lit "    5. The output should feel like a casual conversation between Indians";
     lit "";
     lit "    For each text below, provide the Hinglish translation. Maintain the numbering format exactly as [1], [2], etc.";
     lit "";
     lit "    "].

(** The instructions after the items, in src/main_code.py. *)
Definition main_prompt_suffix : str :=
  join [NL]
    [lit "";
     lit "";
     lit "    Return ONLY the translated texts with their corresponding numbers in this exact format:";
     lit "    [1] <Hinglish translation>";
     lit "    [2] <Hinglish translation>";
     lit "    ...";
     lit "";
     lit "    Do not include any explanations, only the numbered translations.";
     lit "    "].

(** The instructions before the items, in src/streamlit_app.py. *)
Definition streamlit_prompt_prefix : str :=
  join [NL]
    [lit "";
     lit "    Translate the following English texts to natural, conversational Hinglish (Hindi-English mix).";
     lit "    ";
     lit "    Guidelines:";
     lit "    1. Keep translations natural sounding, not robotic or literal";
     lit "    2. Convert numbers or numerical values or currencies to words in 'hindi'. ";
     lit "    3. Maintain English words that are commonly used in Hinglish conversation";
     lit "    4. Consider context between sentences for a natural flow";
     lit "    5. The output should feel like a casual conversation between Indians";
     lit "    ";
     lit "    For each text below, provide the Hinglish translation. Maintain the numbering format exactly as [1], [2], etc.";
     lit "    ";
     lit "    "].

(** The instructions after the items, in src/streamlit_app.py. *)
Definition streamlit_prompt_suffix : str :=
  join [NL]
    [lit "";
     lit "    ";
     lit "    Return ONLY the translated texts with their corresponding numbers in this exact format:";
     lit "    [1] <Hinglish translation>";
     lit "    [2] <Hinglish translation>";
     lit "    ...";
     lit "    ";
     lit "    Do not include any explanations, only the numbered translations.";
     lit "    "].

(** A string without a brace. *)
Definition no_brace (s : str) : bool :=
  forallb (fun c => negb (c =? LBRACE)%N && negb (c =? RBRACE)%N) s.

(** A line that does not open an entry. *)
Definition no_marker (l : str) : Prop := re_match_index (strip l) = None.

(** A marker line, the two groups of its match, and the lines that follow
    it up to the next marker line. *)
Record block : Type := {
  marker_line : str;
  ordinal_digits : str;
  marker_text : str;
  continuation_lines : list str
}.

Definition well_formed_block (b : block) : Prop :=
  re_match_index (strip (marker_line b)) = Some (ordinal_digits b, marker_text b)
  /\ Forall no_marker (continuation_lines b).

Definition block_lines (b : block) : list str :=
  marker_line b :: continuation_lines b.

(** The entry a block stands for: its ordinal, and the text of the marker
    line and the trimmed, non-empty continuation lines joined by single
    spaces, trimmed. *)
Definition block_entry (b : block) : N * str :=
  (decimal_number (ordinal_digits b),
   strip (space_joined (strip (marker_text b))
            (filter nonblank (map strip (continuation_lines b))))).

(** A line that opens an entry. *)
Definition is_marker_line (l : str) : bool :=
  match re_match_index (strip l) with
  | Some _ => true
  | None => false
  end.

(** A string with no white space at either end. *)
Definition trimmed (s : str) : Prop := strip s = s.

(** Lines with an empty line between two consecutive ones. *)
Fixpoint blank_separated (ls : list str) : list str :=
  match ls with
  | [] => []
  | l :: rest =>
      match rest with
      | [] => [l]
      | _ :: _ => l :: [] :: blank_separated rest
      end
  end.

(** The items read from objects that all have the key [text]. *)
Definition items_of (texts : list str) : list item :=
  map (fun t => {| text := t |}) texts.

(** The output of the reassembly for the entries of a response: the
    entries in range, sorted, then the placeholders. *)
Definition reassembled (data : list item) (response_text : str) : list item :=
  kept (length data) (sort_by_key fst (entries (split_nl response_text)))
    ++ map placeholder
         (skipn (length (kept (length data)
                           (sort_by_key fst (entries (split_nl response_text)))))
                data).

(** The prompts, as texts. *)
Definition main_prompt_text (data : list item) : str :=
  main_prompt_prefix
    ++ join [NL; NL] (map entry_line (numbered (map text data)))
    ++ main_prompt_suffix.

Definition streamlit_prompt_text (data : list item) : str :=
  streamlit_prompt_prefix
    ++ join [NL; NL] (map entry_line (numbered (map text data)))
    ++ streamlit_prompt_suffix.

(** The world after more lines on the console. *)
Definition printed (w : Batch.world) (ls : list line) : Batch.world :=
  {| Batch.files := Batch.files w;
     Batch.console := Batch.console w ++ ls;
     Batch.requests := Batch.requests w |}.

(** The world after one request. *)
Definition requested (w : Batch.world) (prompt : str) : Batch.world :=
  {| Batch.files := Batch.files w;
     Batch.console := Batch.console w;
     Batch.requests := Batch.requests w ++ [prompt] |}.

(** The world after the writing of a file. *)
Definition written (w : Batch.world) (name : str) (data : list dict) : Batch.world :=
  {| Batch.files := fun n => if str_eqb n name then Some (Json data) else Batch.files w n;
     Batch.console := Batch.console w;
     Batch.requests := Batch.requests w |}.

(** The world after a writing that stopped midway: the file holds the
    beginning of a JSON text, on which the decoder says [decoder_message]. *)
Definition cut_short (w : Batch.world) (name decoder_message : str) : Batch.world :=
  {| Batch.files := fun n => if str_eqb n name then Some (NotJson decoder_message)
                             else Batch.files w n;
     Batch.console := Batch.console w;
     Batch.requests := Batch.requests w |}.

(** The objects of the sample input file. *)
Definition sample_data : list dict :=
  map (fun t => [(lit "text", t)]) Batch.sample_texts.

(** An object without the key [text]. *)
Definition lacks_text (d : dict) : Prop := dict_get d (lit "text") = None.

(** The world before the [try] of [main]: the banner, the sample input
    file when there is no input file, and the line that announces the
    processing. *)
Definition prepared (w : Batch.world) : Batch.world :=
  let banner :=
    [Text (lit "DubFlix English to Hinglish Translator (Batch Processing)");
     Text (lit "------------------------------------------------------")] in
  let processing :=
    Text ([NL] ++ lit "Processing " ++ Batch.INPUT_FILE ++ lit " to " ++ Batch.OUTPUT_FILE
            ++ lit "...") in
  match Batch.files w Batch.INPUT_FILE with
  | Some _ =>
      printed w (banner
                   ++ [Text (lit "Using existing input file: " ++ Batch.INPUT_FILE);
                       processing])
  | None =>
      printed (written w Batch.INPUT_FILE sample_data)
        (banner
           ++ [Text (lit "Input file " ++ Batch.INPUT_FILE
                       ++ lit " not found. Creating sample file...");
               Text (lit "Created sample input file with "
                       ++ str_of_nat (length Batch.sample_texts) ++ lit " entries.");
               processing])
  end.

(** A world with no file, where nothing was printed or sent. *)
Definition no_file : Batch.world :=
  {| Batch.files := fun _ => None; Batch.console := []; Batch.requests := [] |}.

(** A world whose only file is the input file, holding [data]. *)
Definition input_only (data : list dict) : Batch.world :=
  {| Batch.files := fun n => if str_eqb n Batch.INPUT_FILE then Some (Json data) else None;
     Batch.console := [];
     Batch.requests := [] |}.

(** The page after more messages, and after one request. *)
Definition shown (p : Interactive.page) (ms : list Interactive.message)
  : Interactive.page :=
  {| Interactive.session := Interactive.session p;
     Interactive.messages := Interactive.messages p ++ ms;
     Interactive.requests := Interactive.requests p |}.

Definition asked (p : Interactive.page) (prompt : str) : Interactive.page :=
  {| Interactive.session := Interactive.session p;
     Interactive.messages := Interactive.messages p;
     Interactive.requests := Interactive.requests p ++ [prompt] |}.

(** The page with another session. *)
Definition with_session (p : Interactive.page) (s : Interactive.session_state)
  : Interactive.page :=
  {| Interactive.session := s;
     Interactive.messages := Interactive.messages p;
     Interactive.requests := Interactive.requests p |}.

(** The rows of the pairs of an English and a Hinglish text, numbered
    from [i + 1]. *)
Fixpoint rows_from (i : nat) (pairs : list (str * str)) : list Interactive.row :=
  match pairs with
  | [] => []
  | (english, hinglish) :: pairs' => (i + 1, english, hinglish) :: rows_from (S i) pairs'
  end.

(** The message of a finished translation. *)
Definition translation_completed : Interactive.message :=
  Interactive.Success
    (Timed ([9989%N] ++ lit " Translation completed in ") (lit " seconds!")).

(** A page where nothing was uploaded, shown or sent. *)
Definition fresh_page : Interactive.page :=
  {| Interactive.session :=
       {| Interactive.input_data := None;
          Interactive.output_data := None;
          Interactive.tab_index := None |};
     Interactive.messages := [];
     Interactive.requests := [] |}.

(** A run of digits that [int()] accepts under the default limit. *)
Definition digits_within_limit (digits : str) : Prop :=
  (N.of_nat (length digits) <= DEFAULT_MAX_STR_DIGITS)%N.

(** A line whose marker, if it has one, is within the limit. *)
Definition within_limit_line (l : str) : bool :=
  match re_match_index (strip l) with
  | Some (group1, _) => (N.of_nat (length group1) <=? DEFAULT_MAX_STR_DIGITS)%N
  | None => true
  end.

(** A response all of whose markers are within the limit. *)
Definition within_limit (response_text : str) : bool :=
  forallb within_limit_line (split_nl response_text).

(** *** The prompt, written without the functions of the code

    The code points of a string of the standard library, the decimal
    numerals of the standard library, and a recursion of its own for the
    items. *)

Definition code_points (s : string) : str :=
  map (fun a => N.of_nat (nat_of_ascii a)) (list_ascii_of_string s).

Definition line_feed : string := String (ascii_of_nat 10) EmptyString.

(** The numeral of [i] in base ten, as [str(i)] writes it. *)
Definition numeral (i : nat) : string :=
  NilEmpty.string_of_uint (Nat.to_uint i).

(** The item of position [i]: the ordinal between brackets, a space, the
    text. *)
Definition numbered_item (i : nat) (t : str) : str :=
  code_points (String.append "["%string (String.append (numeral i) "] "%string)) ++ t.

(** The items of the texts [ts], numbered from [i], two line feeds (one
    blank line) between consecutive items. *)
Fixpoint items_block (i : nat) (ts : list str) : str :=
  match ts with
  | [] => []
  | t :: rest =>
      match rest with
      | [] => numbered_item i t
      | _ :: _ => numbered_item i t ++ code_points (String.append line_feed line_feed)
                    ++ items_block (S i) rest
      end
  end.

(** The instructions of src/main_code.py before the items, line by line. *)
Definition main_instructions_before : string :=
  String.concat line_feed
    [EmptyString;
     "    Translate the following English texts to natural, conversational Hinglish (Hindi-English mix)."%string;
     EmptyString;
     "    Guidelines:"%string;
     "    1. Keep translations natural sounding, not robotic or literal"%string;
     "    2. important : Convert numbers or numerical values to words in 'hindi' words."%string;
     "    3. Maintain English words that are commonly used in Hinglish conversation"%string;
     "    4. Consider context between sentences for a natural flow"%string;
     "    5. The output should feel like a casual conversation between Indians"%string;
     EmptyString;
     "    For each text below, provide the Hinglish translation. Maintain the numbering format exactly as [1], [2], etc."%string;
     EmptyString;
     "    "%string].

(** The instructions of src/main_code.py after the items, line by line. *)
Definition main_instructions_after : string :=
  String.concat line_feed
    [EmptyString;
     EmptyString;
     "    Return ONLY the translated texts with their corresponding numbers in this exact format:"%string;
     "    [1] <Hinglish translation>"%string;
     "    [2] <Hinglish translation>"%string;
     "    ..."%string;
     EmptyString;
     "    Do not include any explanations, only the numbered translations."%string;
     "    "%string].

(** The instructions of src/streamlit_app.py before the items, line by line. *)
Definition streamlit_instructions_before : string :=
  String.concat line_feed
    [EmptyString;
     "    Translate the following English texts to natural, conversational Hinglish (Hindi-English mix)."%string;
     "    "%string;
     "    Guidelines:"%string;
     "    1. Keep translations natural sounding, not robotic or literal"%string;
     "    2. Convert numbers or numerical values or currencies to words in 'hindi'. "%string;
     "    3. Maintain English words that are commonly used in Hinglish conversation"%string;
     "    4. Consider context between sentences for a natural flow"%string;
     "    5. The output should feel like a casual conversation between Indians"%string;
     "    "%string;
     "    For each text below, provide the Hinglish translation. Maintain the numbering format exactly as [1], [2], etc."%string;
     "    "%string;
     "    "%string].

(** The instructions of src/streamlit_app.py after the items, line by line. *)
Definition streamlit_instructions_after : string :=
  String.concat line_feed
    [EmptyString;
     "    "%string;
     "    Return ONLY the translated texts with their corresponding numbers in this exact format:"%string;
     "    [1] <Hinglish translation>"%string;
     "    [2] <Hinglish translation>"%string;
     "    ..."%string;
     "    "%string;
     "    Do not include any explanations, only the numbered translations."%string;
     "    "%string].

(** The decimal numeral whose digits are the ASCII digits of a string. *)
Definition digit_cons (c : char) (d : Decimal.uint) : Decimal.uint :=
  if (c =? 48)%N then Decimal.D0 d
  else if (c =? 49)%N then Decimal.D1 d
  else if (c =? 50)%N then Decimal.D2 d
  else if (c =? 51)%N then Decimal.D3 d
  else if (c =? 52)%N then Decimal.D4 d
  else if (c =? 53)%N then Decimal.D5 d
  else if (c =? 54)%N then Decimal.D6 d
  else if (c =? 55)%N then Decimal.D7 d
  else if (c =? 56)%N then Decimal.D8 d
  else Decimal.D9 d.

Fixpoint uint_of_digits (s : str) : Decimal.uint :=
  match s with
  | [] => Decimal.Nil
  | c :: s' => digit_cons c (uint_of_digits s')
  end.

Definition ascii_digit (c : char) : bool := ((48 <=? c) && (c <=? 57))%N.

(** * Examples *)

Example strip_example :
  strip (lit "  [12] ab c " ++ [9%N; 160%N]) = lit "[12] ab c".
Proof. reflexivity. Qed.

Example split_example :
  split_nl (lit "a
b

c") = [lit "a"; lit "b"; lit ""; lit "c"].
Proof. reflexivity. Qed.

Example match_example :
  re_match_index (lit "[12] ab c") = Some (lit "12", lit " ab c").
Proof. reflexivity. Qed.

Example int_example : int (lit "0120") = Ok 120%N.
Proof. reflexivity. Qed.

Example str_of_nat_example :
  map str_of_nat [0; 7; 10; 99; 100; 1234]
  = [lit "0"; lit "7"; lit "10"; lit "99"; lit "100"; lit "1234"].
Proof. reflexivity. Qed.

(** * Facts about the string operations *)

Module PyFacts.

Lemma lstrip_app (s t : str) :
  lstrip (s ++ t) = if all_space s then lstrip t else lstrip s ++ t.
Proof.
  induction s as [|c s IH]; simpl; [reflexivity|].
  destruct (is_space c); simpl; [exact IH | reflexivity].
Qed.

Lemma lstrip_all_space (s : str) : all_space s = true -> lstrip s = [].
Proof.
  induction s as [|c s IH]; simpl; [reflexivity|].
  destruct (is_space c); simpl; [exact IH | discriminate].
Qed.

Lemma lstrip_nil_all_space (s : str) : lstrip s = [] -> all_space s = true.
Proof.
  induction s as [|c s IH]; simpl; [reflexivity|].
  destruct (is_space c); simpl; [exact IH | discriminate].
Qed.

Lemma all_space_rev (s : str) : all_space (rev s) = all_space s.
Proof.
  unfold all_space. induction s as [|c s IH]; simpl; [reflexivity|].
  rewrite forallb_app, IH. simpl. rewrite andb_true_r. apply andb_comm.
Qed.

(** [rstrip] by recursion from the left. *)
Lemma rstrip_cons (c : char) (s : str) :
  rstrip (c :: s) =
  match rstrip s with
  | [] => if is_space c then [] else [c]
  | _ :: _ => c :: rstrip s
  end.
Proof.
  unfold rstrip. simpl. rewrite lstrip_app.
  destruct (all_space (rev s)) eqn:E.
  - rewrite (lstrip_all_space _ E). simpl. destruct (is_space c); reflexivity.
  - rewrite rev_app_distr. simpl.
    destruct (lstrip (rev s)) as [|x l] eqn:L.
    + apply lstrip_nil_all_space in L. congruence.
    + destruct (rev (x :: l)) eqn:R; [|reflexivity].
      apply (f_equal (@rev char)) in R. rewrite rev_involutive in R. discriminate.
Qed.

Lemma rstrip_nil : rstrip [] = [].
Proof. reflexivity. Qed.

Lemma rstrip_all_space (s : str) : all_space s = true -> rstrip s = [].
Proof.
  intros H. unfold rstrip. rewrite lstrip_all_space; [reflexivity|].
  now rewrite all_space_rev.
Qed.

Lemma rstrip_nil_all_space (s : str) : rstrip s = [] -> all_space s = true.
Proof.
  unfold rstrip. intros H. apply (f_equal (@rev char)) in H.
  rewrite rev_involutive in H. simpl in H.
  apply lstrip_nil_all_space in H. now rewrite all_space_rev in H.
Qed.

Lemma rstrip_app (s t : str) :
  rstrip (s ++ t) = if all_space t then rstrip s else s ++ rstrip t.
Proof.
  unfold rstrip. rewrite rev_app_distr, lstrip_app, all_space_rev.
  destruct (all_space t); [reflexivity|].
  now rewrite rev_app_distr, rev_involutive.
Qed.

Lemma lstrip_rstrip (s : str) : lstrip (rstrip s) = rstrip (lstrip s).
Proof.
  induction s as [|c s IH]; [reflexivity|].
  rewrite rstrip_cons. simpl lstrip at 2.
  destruct (is_space c) eqn:C.
  - rewrite <- IH. destruct (rstrip s); simpl; now rewrite ?C.
  - rewrite rstrip_cons. destruct (rstrip s); simpl; now rewrite C.
Qed.

Lemma lstrip_idem (s : str) : lstrip (lstrip s) = lstrip s.
Proof.
  induction s as [|c s IH]; [reflexivity|]. simpl.
  destruct (is_space c) eqn:C; [exact IH|]. simpl. now rewrite C.
Qed.

Lemma rstrip_idem (s : str) : rstrip (rstrip s) = rstrip s.
Proof.
  unfold rstrip. now rewrite rev_involutive, lstrip_idem.
Qed.

Lemma strip_idem (s : str) : strip (strip s) = strip s.
Proof.
  unfold strip. now rewrite lstrip_rstrip, lstrip_idem, rstrip_idem.
Qed.

Lemma strip_lstrip (s : str) : strip (lstrip s) = strip s.
Proof. unfold strip. now rewrite lstrip_idem. Qed.

Lemma strip_rstrip (s : str) : strip (rstrip s) = strip s.
Proof. unfold strip. now rewrite lstrip_rstrip, rstrip_idem. Qed.

Lemma strip_space_cons (c : char) (s : str) :
  is_space c = true -> strip (c :: s) = strip s.
Proof. intros C. unfold strip. simpl. now rewrite C. Qed.

Lemma strip_space_snoc (s : str) (c : char) :
  is_space c = true -> strip (s ++ [c]) = strip s.
Proof.
  intros C. unfold strip. rewrite <- !lstrip_rstrip. f_equal.
  rewrite rstrip_app. simpl. now rewrite C.
Qed.

Lemma strip_all_space (s : str) : all_space s = true -> strip s = [].
Proof. intros H. unfold strip. now rewrite lstrip_all_space. Qed.

(** Stripping only removes characters. *)
Lemma lstrip_incl (s : str) (c : char) : In c (lstrip s) -> In c s.
Proof.
  induction s as [|x s IH]; simpl; [tauto|].
  destruct (is_space x); simpl; tauto.
Qed.

Lemma rstrip_incl (s : str) (c : char) : In c (rstrip s) -> In c s.
Proof.
  unfold rstrip. rewrite <- in_rev. intros H. apply lstrip_incl in H.
  now rewrite <- in_rev in H.
Qed.

Lemma strip_incl (s : str) (c : char) : In c (strip s) -> In c s.
Proof. unfold strip. intros H. now apply lstrip_incl, rstrip_incl. Qed.

(** ** Lines *)

Lemma split_nl_not_nil (s : str) : split_nl s <> [].
Proof.
  destruct s as [|c s]; simpl; [discriminate|].
  destruct (c =? NL)%N; [discriminate|].
  destruct (split_nl s); discriminate.
Qed.

Lemma split_nl_cons (c : char) (s : str) :
  (c =? NL)%N = false ->
  exists l ls, split_nl s = l :: ls /\ split_nl (c :: s) = (c :: l) :: ls.
Proof.
  intros C. simpl. rewrite C.
  destruct (split_nl s) as [|l ls] eqn:E.
  - now apply split_nl_not_nil in E.
  - now exists l, ls.
Qed.

Lemma split_nl_snoc_nl (s : str) : split_nl (s ++ [NL]) = split_nl s ++ [[]].
Proof.
  induction s as [|c s IH]; [reflexivity|].
  simpl. rewrite IH. destruct (c =? NL)%N; [reflexivity|].
  destruct (split_nl s) as [|l ls] eqn:E; [now apply split_nl_not_nil in E|].
  reflexivity.
Qed.

Lemma split_nl_snoc (s : str) (c : char) :
  (c =? NL)%N = false ->
  exists ls l, split_nl s = ls ++ [l] /\ split_nl (s ++ [c]) = ls ++ [l ++ [c]].
Proof.
  intros C. induction s as [|x s (ls & l & E1 & E2)].
  - exists [], []. simpl. now rewrite C.
  - simpl. rewrite E1, E2. destruct (x =? NL)%N.
    + now exists ([] :: ls), l.
    + destruct ls as [|l0 ls]; simpl.
      * now exists [], (x :: l).
      * now exists ((x :: l0) :: ls), l.
Qed.

Lemma nonblank_lines_space_cons (c : char) (s : str) :
  is_space c = true -> nonblank_lines (c :: s) = nonblank_lines s.
Proof.
  intros C. unfold nonblank_lines. destruct (c =? NL)%N eqn:E.
  - simpl. now rewrite E.
  - destruct (@split_nl_cons c s E) as (l & ls & E1 & E2).
    rewrite E1, E2. simpl. now rewrite strip_space_cons.
Qed.

Lemma nonblank_lines_space_snoc (s : str) (c : char) :
  is_space c = true -> nonblank_lines (s ++ [c]) = nonblank_lines s.
Proof.
  intros C. unfold nonblank_lines. destruct (c =? NL)%N eqn:E.
  - apply N.eqb_eq in E. subst c. rewrite split_nl_snoc_nl.
    rewrite map_app, filter_app. simpl. apply app_nil_r.
  - destruct (@split_nl_snoc s c E) as (ls & l & E1 & E2).
    rewrite E1, E2, !map_app, !filter_app. simpl.
    now rewrite strip_space_snoc.
Qed.

Lemma nonblank_lines_lstrip (s : str) : nonblank_lines (lstrip s) = nonblank_lines s.
Proof.
  induction s as [|c s IH]; [reflexivity|]. simpl.
  destruct (is_space c) eqn:C; [|reflexivity].
  now rewrite nonblank_lines_space_cons.
Qed.

Lemma nonblank_lines_app_space (s ws : str) :
  all_space ws = true -> nonblank_lines (s ++ ws) = nonblank_lines s.
Proof.
  revert s. induction ws as [|c ws IH]; intros s H.
  - now rewrite app_nil_r.
  - simpl in H. apply andb_prop in H. destruct H as [C H].
    change (s ++ c :: ws) with (s ++ [c] ++ ws). rewrite app_assoc.
    rewrite IH by exact H. now apply nonblank_lines_space_snoc.
Qed.

Lemma lstrip_decompose (s : str) :
  exists ws, all_space ws = true /\ s = ws ++ lstrip s.
Proof.
  induction s as [|c s (ws & H & E)].
  - now exists [].
  - simpl. destruct (is_space c) eqn:C.
    + exists (c :: ws). simpl. rewrite C, H. split; [reflexivity|]. now f_equal.
    + now exists [].
Qed.

Lemma rstrip_decompose (s : str) :
  exists ws, all_space ws = true /\ s = rstrip s ++ ws.
Proof.
  destruct (lstrip_decompose (rev s)) as (ws & H & E).
  exists (rev ws). split; [now rewrite all_space_rev|].
  unfold rstrip. rewrite <- rev_app_distr, <- E. now rewrite rev_involutive.
Qed.

Lemma nonblank_lines_rstrip (s : str) : nonblank_lines (rstrip s) = nonblank_lines s.
Proof.
  destruct (rstrip_decompose s) as (ws & H & E).
  rewrite E at 2. now rewrite nonblank_lines_app_space.
Qed.

(** Trimming the whole response does not change the lines the loop sees. *)
Lemma nonblank_lines_strip (s : str) : nonblank_lines (strip s) = nonblank_lines s.
Proof.
  unfold strip. now rewrite nonblank_lines_rstrip, nonblank_lines_lstrip.
Qed.

Lemma split_nl_single_line (l : str) : single_line l -> split_nl l = [l].
Proof.
  unfold single_line. induction l as [|c l IH]; intros H; [reflexivity|].
  simpl in *. destruct (c =? NL)%N eqn:E.
  - apply N.eqb_eq in E. tauto.
  - rewrite IH by tauto. reflexivity.
Qed.

Lemma split_nl_line_app (l rest : str) :
  single_line l -> split_nl (l ++ NL :: rest) = l :: split_nl rest.
Proof.
  unfold single_line. induction l as [|c l IH]; intros H; [reflexivity|].
  simpl in *. destruct (c =? NL)%N eqn:E.
  - apply N.eqb_eq in E. tauto.
  - rewrite IH by tauto. reflexivity.
Qed.

Lemma split_nl_join (ls : list str) :
  ls <> [] -> Forall single_line ls -> split_nl (join [NL] ls) = ls.
Proof.
  induction ls as [|l ls IH]; intros NE H; [congruence|].
  inversion H as [|? ? Hl Hls]; subst. destruct ls as [|l' ls].
  - simpl. now apply split_nl_single_line.
  - change (join [NL] (l :: l' :: ls)) with (l ++ NL :: join [NL] (l' :: ls)).
    rewrite split_nl_line_app by exact Hl. f_equal. apply IH; [discriminate|exact Hls].
Qed.

(** ** Decimal digits *)

Lemma decimal_value_ascii (k : N) :
  (k < 10)%N -> decimal_value (ZERO + k)%N = Some k.
Proof.
  intros H.
  assert (E : k = 0%N \/ k = 1%N \/ k = 2%N \/ k = 3%N \/ k = 4%N \/ k = 5%N
              \/ k = 6%N \/ k = 7%N \/ k = 8%N \/ k = 9%N) by lia.
  repeat (destruct E as [E|E]; [subst k; reflexivity|]). subst k. reflexivity.
Qed.

Lemma is_decimal_ascii (k : N) : (k < 10)%N -> is_decimal (ZERO + k)%N = true.
Proof. intros H. unfold is_decimal. now rewrite decimal_value_ascii. Qed.

Lemma int_step_decimal (ds : str) (a : N) :
  forallb is_decimal ds = true ->
  fold_left int_step ds (Ok a)
  = Ok (fold_left (fun a c => (10 * a + digit_value c)%N) ds a).
Proof.
  revert a. induction ds as [|c ds IH]; intros a H; [reflexivity|].
  simpl in H. apply andb_prop in H. destruct H as [C H].
  simpl. unfold is_decimal in C. unfold digit_value at 2.
  destruct (decimal_value c); [|discriminate]. now apply IH.
Qed.

(** [int] succeeds on every non-empty run of decimal digits. *)
Lemma int_decimal (ds : str) :
  ds <> [] -> forallb is_decimal ds = true -> int ds = Ok (decimal_number ds).
Proof.
  intros NE H. destruct ds as [|c ds]; [congruence|].
  unfold int. now rewrite int_step_decimal.
Qed.

Lemma digits_of_O (n : N) (acc : str) :
  digits_of 0 n acc = (ZERO + n mod 10)%N :: acc.
Proof. reflexivity. Qed.

Lemma digits_of_S (fuel : nat) (n : N) (acc : str) :
  digits_of (S fuel) n acc =
  if (n / 10 =? 0)%N then (ZERO + n mod 10)%N :: acc
  else digits_of fuel (n / 10)%N ((ZERO + n mod 10)%N :: acc).
Proof. reflexivity. Qed.

Lemma digits_of_app (fuel : nat) (n : N) (acc : str) :
  digits_of fuel n acc = digits_of fuel n [] ++ acc.
Proof.
  revert n acc. induction fuel as [|fuel IH]; intros n acc; [reflexivity|].
  rewrite !digits_of_S. destruct (n / 10 =? 0)%N; [reflexivity|].
  rewrite IH, (IH _ [_]). now rewrite <- app_assoc.
Qed.

Lemma digits_of_decimal (fuel : nat) (n : N) :
  forallb is_decimal (digits_of fuel n []) = true.
Proof.
  assert (D : forall m : N, forallb is_decimal [(ZERO + m mod 10)%N] = true).
  { intros m. cbn [forallb]. rewrite is_decimal_ascii; [reflexivity|].
    apply N.mod_lt. discriminate. }
  revert n. induction fuel as [|fuel IH]; intros n.
  - rewrite digits_of_O. apply D.
  - rewrite digits_of_S. destruct (n / 10 =? 0)%N; [apply D|].
    rewrite digits_of_app, forallb_app, IH. apply D.
Qed.

Lemma digits_of_not_nil (fuel : nat) (n : N) : digits_of fuel n [] <> [].
Proof.
  destruct fuel as [|fuel]; [discriminate|].
  rewrite digits_of_S. destruct (n / 10 =? 0)%N; [discriminate|].
  rewrite digits_of_app. intros H. apply app_eq_nil in H. destruct H; discriminate.
Qed.

Lemma digits_of_number (fuel : nat) (n : N) (acc : str) :
  (n <= N.of_nat fuel)%N ->
  fold_left (fun a c => (10 * a + digit_value c)%N) (digits_of fuel n acc) 0%N
  = fold_left (fun a c => (10 * a + digit_value c)%N) acc n.
Proof.
  assert (V : forall m : N, digit_value (ZERO + m mod 10)%N = (m mod 10)%N).
  { intros m. unfold digit_value. rewrite decimal_value_ascii; [reflexivity|].
    apply N.mod_lt. discriminate. }
  revert n acc. induction fuel as [|fuel IH]; intros n acc H.
  - assert (n = 0%N) by lia. subst n. reflexivity.
  - rewrite digits_of_S. destruct (n / 10 =? 0)%N eqn:E.
    + apply N.eqb_eq in E. cbn [fold_left]. rewrite V. f_equal.
      pose proof (N.div_mod n 10 ltac:(discriminate)). lia.
    + apply N.eqb_neq in E. rewrite IH.
      * cbn [fold_left]. rewrite V. f_equal. pose proof (N.div_mod n 10 ltac:(discriminate)). lia.
      * assert (n <> 0%N) by (intros ->; now apply E).
        assert (n / 10 < n)%N by (apply N.div_lt; lia). lia.
Qed.

Lemma str_of_nat_decimal (n : nat) : forallb is_decimal (str_of_nat n) = true.
Proof. apply digits_of_decimal. Qed.

Lemma str_of_nat_not_nil (n : nat) : str_of_nat n <> [].
Proof. apply digits_of_not_nil. Qed.

Lemma decimal_number_str_of_nat (n : nat) :
  decimal_number (str_of_nat n) = N.of_nat n.
Proof.
  unfold decimal_number, str_of_nat.
  rewrite digits_of_number; [reflexivity | lia].
Qed.

(** [int(str(n)) == n]. *)
Lemma int_str_of_nat (n : nat) : int (str_of_nat n) = Ok (N.of_nat n).
Proof.
  rewrite int_decimal.
  - now rewrite decimal_number_str_of_nat.
  - apply str_of_nat_not_nil.
  - apply str_of_nat_decimal.
Qed.

(** ** The ordinal-marker pattern *)

Lemma span_decimal_spec (s ds rest : str) :
  span_decimal s = (ds, rest) ->
  forallb is_decimal ds = true /\ s = ds ++ rest.
Proof.
  revert ds rest. induction s as [|c s IH]; intros ds rest H; simpl in H.
  - inversion H. now split.
  - destruct (is_decimal c) eqn:C.
    + destruct (span_decimal s) as [ds' rest'] eqn:E. inversion H; subst.
      destruct (IH _ _ eq_refl) as [A B]. simpl. rewrite C, A. split; [reflexivity|].
      now f_equal.
    + inversion H. now split.
Qed.

Lemma span_decimal_app (ds : str) (c : char) (rest : str) :
  forallb is_decimal ds = true -> is_decimal c = false ->
  span_decimal (ds ++ c :: rest) = (ds, c :: rest).
Proof.
  intros H C. induction ds as [|d ds IH]; simpl.
  - now rewrite C.
  - simpl in H. apply andb_prop in H. destruct H as [D H].
    now rewrite D, IH.
Qed.

Lemma dot_star_single_line (s : str) : single_line s -> dot_star s = s.
Proof.
  unfold single_line. induction s as [|c s IH]; intros H; [reflexivity|].
  simpl in *. destruct (c =? NL)%N eqn:E.
  - apply N.eqb_eq in E. tauto.
  - rewrite IH by tauto. reflexivity.
Qed.

(** Group 1 of a match is a non-empty run of decimal digits. *)
Lemma re_match_index_group1 (line g1 g2 : str) :
  re_match_index line = Some (g1, g2) ->
  g1 <> [] /\ forallb is_decimal g1 = true.
Proof.
  unfold re_match_index. destruct line as [|c s]; [discriminate|].
  destruct (c =? LBRACKET)%N; [|discriminate].
  destruct (span_decimal s) as [ds after] eqn:E.
  destruct ds as [|d ds]; [discriminate|]. simpl.
  destruct after as [|c' rest]; [discriminate|].
  destruct (c' =? RBRACKET)%N; [|discriminate].
  intros H. inversion H; subst. split; [discriminate|].
  now destruct (span_decimal_spec _ E).
Qed.

Lemma re_match_index_int (line g1 g2 : str) :
  re_match_index line = Some (g1, g2) -> int g1 = Ok (decimal_number g1).
Proof.
  intros H. destruct (re_match_index_group1 _ H). now apply int_decimal.
Qed.

Lemma re_match_index_marker (ds rest : str) :
  ds <> [] -> forallb is_decimal ds = true -> single_line rest ->
  re_match_index (LBRACKET :: ds ++ RBRACKET :: rest) = Some (ds, rest).
Proof.
  intros NE D L. unfold re_match_index.
  change (LBRACKET =? LBRACKET)%N with true. cbv iota.
  rewrite span_decimal_app by (exact D || reflexivity).
  destruct ds as [|d ds]; [congruence|]. simpl.
  change (RBRACKET =? RBRACKET)%N with true. cbv iota.
  now rewrite dot_star_single_line.
Qed.

End PyFacts.

(** * Facts about the parser and the reassembly *)

Module ParserFacts.

Import PyFacts.

Lemma space_joined_fold (text : str) (cs : list str) :
  fold_left (fun t c => t ++ [SPACE] ++ c) cs text = space_joined text cs.
Proof.
  revert text. induction cs as [|c cs IH]; intros text; [reflexivity|].
  cbn [fold_left]. rewrite IH. unfold space_joined.
  destruct cs as [|c' cs]; cbn [join]; now rewrite <- ?app_assoc.
Qed.

Lemma re_match_index_nil : re_match_index [] = None.
Proof. reflexivity. Qed.

(** One iteration of the loop never raises. *)
Lemma parse_line_cases (st : parser_state) (line : str) :
  MainCode.parse_line st line =
  Ok (if is_empty (strip line) then st
      else match re_match_index (strip line) with
           | Some (g1, g2) =>
               {| translations := closed st [];
                  current_index := Some (decimal_number g1);
                  current_text := strip g2 |}
           | None =>
               {| translations := translations st;
                  current_index := current_index st;
                  current_text := current_text st ++ [SPACE] ++ strip line |}
           end).
Proof.
  unfold MainCode.parse_line. destruct (is_empty (strip line)); [reflexivity|].
  destruct (re_match_index (strip line)) as [[g1 g2]|] eqn:M; [|reflexivity].
  rewrite (re_match_index_int _ M). unfold closed. cbn [bind fold_left].
  reflexivity.
Qed.

(** The loop: its final state, closed, holds the entry that was open at
    the start, extended by its continuation lines, and then the entries of
    the lines. *)
Lemma parse_lines_closed (lines : list str) (st : parser_state) :
  exists st',
    for_each MainCode.parse_line lines st = Ok st'
    /\ closed st' [] = closed st (continuation lines) ++ entries lines.
Proof.
  revert st. induction lines as [|l rest IH]; intros st.
  - exists st. split; [reflexivity|]. now rewrite app_nil_r.
  - cbn [for_each]. rewrite parse_line_cases. cbn [bind].
    cbn [continuation entries].
    destruct (is_empty (strip l)) eqn:B.
    + destruct (strip l); [|discriminate]. rewrite re_match_index_nil. apply IH.
    + destruct (re_match_index (strip l)) as [[g1 g2]|] eqn:M.
      * destruct (IH {| translations := closed st [];
                        current_index := Some (decimal_number g1);
                        current_text := strip g2 |}) as (st' & E1 & E2).
        exists st'. split; [exact E1|]. rewrite E2.
        unfold closed at 1. cbn [current_index translations current_text].
        rewrite space_joined_fold. now rewrite <- app_assoc.
      * destruct (IH {| translations := translations st;
                        current_index := current_index st;
                        current_text := current_text st ++ [SPACE] ++ strip l |})
          as (st' & E1 & E2).
        exists st'. split; [exact E1|]. rewrite E2. reflexivity.
Qed.

Lemma continuation_nonblank (lines : list str) :
  continuation (filter nonblank (map strip lines)) = continuation lines.
Proof.
  induction lines as [|l rest IH]; [reflexivity|].
  cbn [map filter continuation]. unfold nonblank at 1.
  destruct (is_empty (strip l)) eqn:B; cbn [negb]; [exact IH|].
  cbn [continuation]. rewrite strip_idem, B, IH. reflexivity.
Qed.

(** The entries depend on the lines the loop does not skip only. *)
Lemma entries_nonblank (lines : list str) :
  entries (filter nonblank (map strip lines)) = entries lines.
Proof.
  induction lines as [|l rest IH]; [reflexivity|].
  cbn [map filter entries]. unfold nonblank at 1.
  destruct (is_empty (strip l)) eqn:B; cbn [negb].
  - destruct (strip l); [|discriminate]. now rewrite re_match_index_nil.
  - cbn [entries]. rewrite strip_idem, IH, continuation_nonblank. reflexivity.
Qed.

Lemma entries_strip (response_text : str) :
  entries (split_nl (strip response_text)) = entries (split_nl response_text).
Proof.
  rewrite <- (entries_nonblank (split_nl (strip response_text))).
  rewrite <- (entries_nonblank (split_nl response_text)).
  change (entries (nonblank_lines (strip response_text))
          = entries (nonblank_lines response_text)).
  now rewrite nonblank_lines_strip.
Qed.

(** The parser never raises, and its list is the list of the entries of
    the lines of the response. *)
Lemma parse_translations_entries (response_text : str) :
  MainCode.parse_translations response_text
  = Ok (entries (split_nl response_text)).
Proof.
  unfold MainCode.parse_translations.
  destruct (parse_lines_closed (split_nl (strip response_text))
              {| translations := []; current_index := None; current_text := [] |})
    as (st' & E1 & E2).
  rewrite E1. cbn [bind]. unfold closed in E2. cbn in E2.
  rewrite entries_strip in E2. rewrite <- E2.
  destruct (current_index st'); reflexivity.
Qed.

(** ** Reassembly *)

Lemma create_output_data_acc (n : nat) (translations : list (N * str))
      (out : list item) :
  fold_left
    (fun output_data '(idx, trans_text) =>
       if ((1 <=? idx) && (idx <=? N.of_nat n))%N
       then output_data ++ [{| text := trans_text |}]
       else output_data)
    translations out
  = out ++ kept n translations.
Proof.
  unfold kept. revert out.
  induction translations as [|[idx t] ts IH]; intros out.
  - cbn. now rewrite app_nil_r.
  - cbn [fold_left filter fst]. rewrite IH. unfold in_range at 2.
    destruct ((1 <=? idx) && (idx <=? N.of_nat n))%N;
      cbn [map snd]; [now rewrite <- app_assoc | reflexivity].
Qed.

Lemma create_output_data_kept (data : list item) (translations : list (N * str)) :
  MainCode.create_output_data data translations = kept (length data) translations.
Proof. unfold MainCode.create_output_data. now rewrite create_output_data_acc. Qed.

Lemma skipn_nth_error (A : Type) (l : list A) (i : nat) :
  i < length l ->
  exists d, nth_error l i = Some d /\ skipn i l = d :: skipn (S i) l.
Proof.
  revert i. induction l as [|x l IH]; intros i H; [simpl in H; lia|].
  destruct i as [|i].
  - now exists x.
  - simpl in H. destruct (IH i) as (d & E1 & E2); [lia|]. now exists d.
Qed.

(** The padding loop reads [data] in range only: it never raises, and
    appends the placeholders of the input items from position
    [len(output_data)] on. *)
Lemma pad_loop (data : list item) (k a : nat) (out : list item) :
  a + k = length data ->
  for_each
    (fun output_data i =>
       d <- getitem data i ;;
       Ok (output_data
             ++ [{| text := lit "[Translation missing for: " ++ text d ++ lit "]" |}]))
    (seq a k) out
  = Ok (out ++ map placeholder (skipn a data)).
Proof.
  revert a out. induction k as [|k IH]; intros a out H.
  - rewrite skipn_all2 by lia. cbn. now rewrite app_nil_r.
  - destruct (@skipn_nth_error _ data a) as (d & E1 & E2); [lia|].
    cbn [seq for_each]. unfold getitem. rewrite E1. cbn [bind].
    rewrite IH by lia. rewrite E2. cbn [map]. rewrite <- app_assoc. reflexivity.
Qed.

Lemma fill_placeholders_pad (data output_data : list item) :
  MainCode.fill_placeholders data output_data
  = Ok (output_data ++ map placeholder (skipn (length output_data) data)).
Proof.
  unfold MainCode.fill_placeholders.
  destruct (length output_data <? length data) eqn:E.
  - apply Nat.ltb_lt in E. unfold range. apply pad_loop. lia.
  - apply Nat.ltb_ge in E. rewrite skipn_all2 by exact E. cbn.
    now rewrite app_nil_r.
Qed.

(** The whole of [process_entire_json], from the response text on. *)
Lemma process_entire_json_eq (data : list item) (response_text : str) :
  MainCode.process_entire_json data response_text
  = (MainCode.verify_count data (entries (split_nl response_text)),
     let output_data :=
       kept (length data) (sort_by_key fst (entries (split_nl response_text))) in
     Ok (output_data ++ map placeholder (skipn (length output_data) data))).
Proof.
  unfold MainCode.process_entire_json.
  rewrite parse_translations_entries, create_output_data_kept, fill_placeholders_pad.
  reflexivity.
Qed.

(** ** The two variants *)

Lemma parse_line_agree (st : parser_state) (line : str) :
  StreamlitApp.parse_line st line = MainCode.parse_line st line.
Proof.
  unfold StreamlitApp.parse_line, MainCode.parse_line.
  destruct (is_empty (strip line)); [reflexivity|].
  destruct (re_match_index (strip line)) as [[g1 g2]|]; reflexivity.
Qed.

Lemma for_each_ext (S B : Type) (f g : S -> B -> result S) (l : list B) (s : S) :
  (forall s b, f s b = g s b) -> for_each f l s = for_each g l s.
Proof.
  intros E. revert s. induction l as [|b l IH]; intros s; [reflexivity|].
  cbn [for_each]. rewrite E. destruct (g s b); cbn [bind]; [apply IH | reflexivity].
Qed.

Lemma parse_translations_agree (response_text : str) :
  StreamlitApp.parse_translations response_text
  = MainCode.parse_translations response_text.
Proof.
  unfold StreamlitApp.parse_translations, MainCode.parse_translations.
  now rewrite (for_each_ext _ _ _ _ parse_line_agree).
Qed.

Lemma create_output_data_agree (data : list item) (translations : list (N * str)) :
  StreamlitApp.create_output_data data translations
  = MainCode.create_output_data data translations.
Proof. reflexivity. Qed.

Lemma fill_placeholders_agree (data output_data : list item) :
  StreamlitApp.fill_placeholders data output_data
  = MainCode.fill_placeholders data output_data.
Proof.
  unfold StreamlitApp.fill_placeholders, MainCode.fill_placeholders.
  destruct (length output_data <? length data); reflexivity.
Qed.

(** The interactive variant returns what the batch variant returns, and
    shows no message. *)
Lemma process_json_eq (data : list item) (response_text : str) :
  StreamlitApp.process_json data response_text
  = ([], snd (MainCode.process_entire_json data response_text)).
Proof.
  unfold StreamlitApp.process_json, MainCode.process_entire_json.
  rewrite parse_translations_agree.
  destruct (MainCode.parse_translations response_text); [|reflexivity].
  now rewrite create_output_data_agree, fill_placeholders_agree.
Qed.

End ParserFacts.

(** * Facts about the stable sort *)

Section SortFacts.
Variable A : Type.
Variable key : A -> N.

Lemma insert_by_key_perm (x : A) (l : list A) :
  Permutation (insert_by_key key x l) (x :: l).
Proof.
  induction l as [|y l IH]; cbn [insert_by_key]; [reflexivity|].
  destruct (key x <=? key y)%N; [reflexivity|].
  rewrite IH. apply perm_swap.
Qed.

Lemma sort_by_key_perm (l : list A) : Permutation (sort_by_key key l) l.
Proof.
  induction l as [|x l IH]; cbn [sort_by_key]; [reflexivity|].
  rewrite insert_by_key_perm. now apply perm_skip.
Qed.

Lemma insert_by_key_sorted (x : A) (l : list A) :
  StronglySorted (key_le key) l -> StronglySorted (key_le key) (insert_by_key key x l).
Proof.
  induction l as [|y l IH]; intros H; cbn [insert_by_key].
  - repeat constructor.
  - inversion H as [|? ? Hl Hy]; subst.
    destruct (key x <=? key y)%N eqn:E.
    + apply N.leb_le in E. constructor; [exact H|].
      constructor; [exact E|].
      eapply Forall_impl; [|exact Hy]. intros z Hz. unfold key_le in *. lia.
    + apply N.leb_gt in E. constructor; [now apply IH|].
      apply (Permutation_Forall (Permutation_sym (insert_by_key_perm x l))).
      constructor; [unfold key_le; lia | exact Hy].
Qed.

Lemma sort_by_key_sorted (l : list A) : StronglySorted (key_le key) (sort_by_key key l).
Proof.
  induction l as [|x l IH]; cbn [sort_by_key]; [constructor|].
  now apply insert_by_key_sorted.
Qed.

(** With distinct keys, ascending is strictly ascending. *)
Lemma sorted_strict (l : list A) :
  NoDup (map key l) -> StronglySorted (key_le key) l -> StronglySorted (key_lt key) l.
Proof.
  induction l as [|x l IH]; intros ND H; [constructor|].
  inversion H as [|? ? Hl Hx]; subst. cbn [map] in ND.
  inversion ND as [|? ? Hn ND']; subst.
  constructor; [now apply IH|].
  rewrite Forall_forall in *. intros y Hy.
  assert (key x <> key y).
  { intros E. apply Hn. rewrite E. now apply in_map. }
  specialize (Hx y Hy). unfold key_le, key_lt in *. lia.
Qed.

(** A strictly ascending list is determined by its elements. *)
Lemma strictly_sorted_unique (l1 l2 : list A) :
  Permutation l1 l2 -> StronglySorted (key_lt key) l1 -> StronglySorted (key_lt key) l2 ->
  l1 = l2.
Proof.
  revert l2. induction l1 as [|x l1 IH]; intros l2 P S1 S2.
  - now apply Permutation_nil in P.
  - destruct l2 as [|y l2].
    + apply Permutation_sym, Permutation_nil in P. discriminate.
    + inversion S1 as [|? ? S1' F1]; subst.
      inversion S2 as [|? ? S2' F2]; subst.
      rewrite Forall_forall in F1, F2.
      assert (Hx : In x (y :: l2)) by (apply (Permutation_in _ P); now left).
      assert (Hy : In y (x :: l1))
        by (apply (Permutation_in _ (Permutation_sym P)); now left).
      assert (E : x = y).
      { destruct Hx as [Hx|Hx]; [now symmetry|].
        destruct Hy as [Hy|Hy]; [exact Hy|].
        specialize (F1 _ Hy). specialize (F2 _ Hx). unfold key_lt in *. lia. }
      subst y. f_equal. apply IH; [|exact S1'|exact S2'].
      now apply Permutation_cons_inv in P.
Qed.

(** Sorting forgets the order of a list whose keys are distinct. *)
Lemma sort_by_key_permutation (l1 l2 : list A) :
  Permutation l1 l2 -> NoDup (map key l2) ->
  sort_by_key key l1 = sort_by_key key l2.
Proof.
  intros P ND. apply strictly_sorted_unique.
  - rewrite !sort_by_key_perm. exact P.
  - apply sorted_strict; [|apply sort_by_key_sorted].
    apply (Permutation_NoDup (l := map key l2)); [|exact ND].
    apply Permutation_map. rewrite sort_by_key_perm. now apply Permutation_sym.
  - apply sorted_strict; [|apply sort_by_key_sorted].
    apply (Permutation_NoDup (l := map key l2)); [|exact ND].
    apply Permutation_map. now rewrite sort_by_key_perm.
Qed.

(** Sorting keeps a strictly ascending list as it is. *)
Lemma sort_by_key_sorted_id (l : list A) :
  StronglySorted (key_lt key) l -> sort_by_key key l = l.
Proof.
  induction l as [|x l IH]; intros H; [reflexivity|].
  inversion H as [|? ? Hl Hx]; subst. cbn [sort_by_key]. rewrite IH by exact Hl.
  destruct l as [|y l]; [reflexivity|]. cbn [insert_by_key].
  inversion Hx as [|? ? Hxy _]; subst. unfold key_lt in Hxy.
  destruct (key x <=? key y)%N eqn:E; [reflexivity|].
  apply N.leb_gt in E. lia.
Qed.

(** The sort is stable: the elements of one key keep their order. *)
Lemma insert_by_key_stable (k : N) (x : A) (l : list A) :
  StronglySorted (key_le key) l ->
  filter (fun y => (key y =? k)%N) (insert_by_key key x l)
  = filter (fun y => (key y =? k)%N) (x :: l).
Proof.
  induction l as [|y l IH]; intros H; [reflexivity|].
  cbn [insert_by_key]. destruct (key x <=? key y)%N eqn:E; [reflexivity|].
  inversion H as [|? ? Hl Hy]; subst. apply N.leb_gt in E.
  cbn [filter] in *. rewrite IH by exact Hl.
  destruct (key x =? k)%N eqn:Ex; [|reflexivity].
  destruct (key y =? k)%N eqn:Ey; [|reflexivity].
  apply N.eqb_eq in Ex, Ey. lia.
Qed.

Lemma sort_by_key_stable (k : N) (l : list A) :
  filter (fun y => (key y =? k)%N) (sort_by_key key l)
  = filter (fun y => (key y =? k)%N) l.
Proof.
  induction l as [|x l IH]; [reflexivity|].
  cbn [sort_by_key]. rewrite insert_by_key_stable by apply sort_by_key_sorted.
  cbn [filter]. now rewrite IH.
Qed.

End SortFacts.

(** * Facts about well-formed responses *)

Module ResponseFacts.

Import PyFacts ParserFacts.

Lemma rstrip_app_nonspace (s : str) (c : char) (t : str) :
  is_space c = false -> rstrip (s ++ c :: t) = s ++ c :: rstrip t.
Proof.
  intros C. change (s ++ c :: t) with (s ++ [c] ++ t). rewrite app_assoc.
  rewrite rstrip_app. destruct (all_space t) eqn:E.
  - rewrite (rstrip_all_space _ E), rstrip_app. cbn [all_space forallb].
    rewrite C. cbn [andb]. rewrite rstrip_cons, rstrip_nil, C. reflexivity.
  - now rewrite <- app_assoc.
Qed.

Lemma decimal_single_line (ds : str) :
  forallb is_decimal ds = true -> single_line ds.
Proof.
  unfold single_line. intros H I. rewrite forallb_forall in H.
  specialize (H _ I). discriminate.
Qed.

Lemma entry_line_eq (e : nat * str) :
  entry_line e = LBRACKET :: str_of_nat (fst e) ++ RBRACKET :: SPACE :: snd e.
Proof.
  unfold entry_line. change (lit "[") with [LBRACKET].
  change (lit "] ") with [RBRACKET; SPACE]. reflexivity.
Qed.

Lemma strip_entry_line (e : nat * str) :
  strip (entry_line e)
  = LBRACKET :: str_of_nat (fst e) ++ RBRACKET :: rstrip (SPACE :: snd e).
Proof.
  rewrite entry_line_eq. unfold strip.
  change (lstrip (LBRACKET :: ?x)) with (LBRACKET :: x).
  rewrite app_comm_cons. now rewrite rstrip_app_nonspace.
Qed.

Lemma single_line_rstrip (s : str) : single_line s -> single_line (rstrip s).
Proof. unfold single_line. intros H I. apply H. now apply rstrip_incl. Qed.

Lemma single_line_entry_line (e : nat * str) :
  single_line (snd e) -> single_line (entry_line e).
Proof.
  intros H. rewrite entry_line_eq. unfold single_line in *.
  cbn [In]. rewrite in_app_iff. cbn [In].
  pose proof (decimal_single_line _ (str_of_nat_decimal (fst e))) as D.
  unfold single_line in D.
  intros [E|[E|[E|[E|E]]]]; try discriminate; tauto.
Qed.

Lemma match_entry_line (e : nat * str) :
  single_line (snd e) ->
  re_match_index (strip (entry_line e))
  = Some (str_of_nat (fst e), rstrip (SPACE :: snd e)).
Proof.
  intros H. rewrite strip_entry_line. apply re_match_index_marker.
  - apply str_of_nat_not_nil.
  - apply str_of_nat_decimal.
  - apply single_line_rstrip. unfold single_line in *. cbn [In].
    intros [E|E]; [discriminate | tauto].
Qed.

Lemma continuation_entry_lines (es : list (nat * str)) :
  single_line_entries es -> continuation (map entry_line es) = [].
Proof.
  intros H. destruct es as [|e es]; [reflexivity|].
  inversion H as [|? ? He _]; subst. cbn [map continuation].
  rewrite (match_entry_line _ He). rewrite strip_entry_line. reflexivity.
Qed.

Lemma entries_entry_lines (es : list (nat * str)) :
  single_line_entries es -> entries (map entry_line es) = map parsed es.
Proof.
  induction es as [|e es IH]; intros H; [reflexivity|].
  inversion H as [|? ? He Hes]; subst. cbn [map entries].
  rewrite (match_entry_line _ He), (IH Hes), (continuation_entry_lines Hes).
  unfold space_joined, parsed. cbn [join].
  rewrite strip_idem, strip_rstrip, strip_space_cons by reflexivity.
  now rewrite decimal_number_str_of_nat.
Qed.

(** The parsed entries of a response made of one line per entry. *)
Lemma entries_response_of (es : list (nat * str)) :
  single_line_entries es ->
  entries (split_nl (response_of es)) = map parsed es.
Proof.
  intros H. destruct es as [|e es]; [reflexivity|].
  unfold response_of. rewrite split_nl_join.
  - now apply entries_entry_lines.
  - discriminate.
  - rewrite Forall_map. eapply Forall_impl; [|exact H].
    intros a. apply single_line_entry_line.
Qed.

(** ** The entries [1] .. [N] *)

Lemma single_line_entries_combine (ns : list nat) (ts : list str) :
  Forall single_line ts -> single_line_entries (combine ns ts).
Proof.
  intros H. revert ns. induction H as [|t ts Ht Hts IH]; intros ns.
  - destruct ns; constructor.
  - destruct ns as [|n ns]; [constructor|]. constructor; [exact Ht | apply IH].
Qed.

Lemma keys_parsed_combine (a : nat) (ts : list str) :
  map fst (map parsed (combine (seq a (length ts)) ts))
  = map N.of_nat (seq a (length ts)).
Proof.
  revert a. induction ts as [|t ts IH]; intros a; [reflexivity|].
  cbn [length seq combine map]. now rewrite IH.
Qed.

Lemma keys_parsed_numbered_NoDup (ts : list str) :
  NoDup (map fst (map parsed (numbered ts))).
Proof.
  unfold numbered. rewrite keys_parsed_combine.
  apply Injective_map_NoDup; [|apply seq_NoDup].
  intros x y. apply Nat2N.inj.
Qed.

Lemma parsed_numbered_sorted (ts : list str) :
  StronglySorted (key_lt fst) (map parsed (numbered ts)).
Proof.
  unfold numbered. generalize 1 as a.
  induction ts as [|t ts IH]; intros a; [constructor|].
  cbn [length seq combine map]. constructor; [apply IH|].
  rewrite Forall_forall. intros e He.
  assert (K : In (fst e) (map N.of_nat (seq (S a) (length ts)))).
  { rewrite <- keys_parsed_combine. now apply in_map. }
  rewrite in_map_iff in K. destruct K as (n & E & I).
  rewrite in_seq in I. unfold key_lt, parsed. cbn [fst]. lia.
Qed.

Lemma kept_parsed_combine (n a : nat) (ts : list str) :
  1 <= a -> a + length ts <= S n ->
  kept n (map parsed (combine (seq a (length ts)) ts))
  = map (fun t => {| text := strip t |}) ts.
Proof.
  unfold kept. revert a. induction ts as [|t ts IH]; intros a H1 H2; [reflexivity|].
  cbn [length seq combine map filter] in *.
  replace (in_range n (fst (parsed (a, t)))) with true.
  - cbn [map]. rewrite IH by lia. reflexivity.
  - symmetry. unfold in_range, parsed. cbn [fst].
    apply andb_true_intro. split; apply N.leb_le; lia.
Qed.

Lemma kept_parsed_numbered (ts : list str) :
  kept (length ts) (map parsed (numbered ts))
  = map (fun t => {| text := strip t |}) ts.
Proof. apply kept_parsed_combine; lia. Qed.

Lemma length_numbered (ts : list str) : length (numbered ts) = length ts.
Proof. unfold numbered. rewrite length_combine, length_seq. lia. Qed.

Lemma verify_count_same (data : list item) (translations : list (N * str)) :
  length translations = length data ->
  MainCode.verify_count data translations = [].
Proof.
  intros E. unfold MainCode.verify_count. rewrite E, Nat.eqb_refl. reflexivity.
Qed.

(** The response with the entries [1] .. [N] in ascending order. *)
Lemma process_numbered (data : list item) (ts : list str) :
  length data = length ts -> Forall single_line ts ->
  MainCode.process_entire_json data (response_of (numbered ts))
  = ([], Ok (map (fun t => {| text := strip t |}) ts)).
Proof.
  intros L H. rewrite process_entire_json_eq.
  rewrite entries_response_of by now apply single_line_entries_combine.
  rewrite verify_count_same by now rewrite length_map, length_numbered.
  rewrite sort_by_key_sorted_id by apply parsed_numbered_sorted.
  rewrite L, kept_parsed_numbered. cbv zeta.
  rewrite skipn_all2 by (rewrite length_map; lia).
  cbn [map]. now rewrite app_nil_r.
Qed.

(** The response with the same entries in any order. *)
Lemma process_permuted (data : list item) (ts : list str) (p : list (nat * str)) :
  Forall single_line ts -> Permutation p (numbered ts) ->
  MainCode.process_entire_json data (response_of p)
  = MainCode.process_entire_json data (response_of (numbered ts)).
Proof.
  intros H P. rewrite !process_entire_json_eq.
  assert (Hn : single_line_entries (numbered ts))
    by now apply single_line_entries_combine.
  assert (Hp : single_line_entries p)
    by exact (Permutation_Forall (Permutation_sym P) Hn).
  rewrite !entries_response_of by assumption.
  rewrite (@sort_by_key_permutation _ fst (map parsed p) (map parsed (numbered ts)))
    by (try apply Permutation_map; try apply keys_parsed_numbered_NoDup; exact P).
  unfold MainCode.verify_count. rewrite !length_map, (Permutation_length P).
  reflexivity.
Qed.

End ResponseFacts.

(** * Facts about multi-line entries *)

Module BlockFacts.

Import PyFacts ParserFacts.

Lemma entries_no_marker (before lines : list str) :
  Forall no_marker before -> entries (before ++ lines) = entries lines.
Proof.
  induction 1 as [|l before Hl _ IH]; [reflexivity|].
  cbn [app entries]. unfold no_marker in Hl. now rewrite Hl.
Qed.

Lemma continuation_no_marker (cs rest : list str) :
  Forall no_marker cs ->
  continuation (cs ++ rest) = filter nonblank (map strip cs) ++ continuation rest.
Proof.
  induction 1 as [|l cs Hl _ IH]; [reflexivity|].
  cbn [app continuation map filter]. unfold no_marker in Hl. rewrite Hl, IH.
  unfold nonblank. destruct (is_empty (strip l)); reflexivity.
Qed.

Lemma re_match_index_nonblank (line g1 g2 : str) :
  re_match_index line = Some (g1, g2) -> is_empty line = false.
Proof. destruct line; [discriminate | reflexivity]. Qed.

Lemma continuation_blocks (blocks : list block) :
  Forall well_formed_block blocks ->
  continuation (concat (map block_lines blocks)) = [].
Proof.
  intros H. destruct H as [|b blocks [Hm _] _]; [reflexivity|].
  cbn [map concat block_lines app continuation].
  now rewrite (re_match_index_nonblank _ Hm), Hm.
Qed.

Lemma entries_blocks (blocks : list block) :
  Forall well_formed_block blocks ->
  entries (concat (map block_lines blocks)) = map block_entry blocks.
Proof.
  induction 1 as [|b blocks [Hm Hc] Hbs IH]; [reflexivity|].
  cbn [map concat block_lines app entries]. rewrite Hm.
  rewrite (continuation_no_marker _ Hc), (continuation_blocks Hbs), app_nil_r.
  rewrite (entries_no_marker _ Hc), IH. reflexivity.
Qed.

(** Every list of lines is made of lines that open no entry followed by
    well-formed blocks. *)
Lemma lines_decompose (lines : list str) :
  exists before blocks,
    lines = before ++ concat (map block_lines blocks)
    /\ Forall no_marker before
    /\ Forall well_formed_block blocks.
Proof.
  induction lines as [|l lines (before & blocks & E & Hb & Hw)].
  - exists [], []. repeat split; constructor.
  - destruct (re_match_index (strip l)) as [[g1 g2]|] eqn:M.
    + exists [], ({| marker_line := l; ordinal_digits := g1; marker_text := g2;
                     continuation_lines := before |} :: blocks).
      split; [|split].
      * cbn [map concat block_lines marker_line continuation_lines app].
        now rewrite E.
      * constructor.
      * constructor; [|exact Hw]. split; [exact M | exact Hb].
    + exists (l :: before), blocks. split; [|split].
      * now rewrite E.
      * constructor; [exact M | exact Hb].
      * exact Hw.
Qed.

End BlockFacts.

(** * Facts about the prompt builder *)

Module PromptFacts.

Lemma format_plain (s t arg0 : str) :
  no_brace s = true ->
  format (s ++ t) arg0 = r <- format t arg0 ;; Ok (s ++ r).
Proof.
  induction s as [|c s IH]; intros H.
  - cbn [app]. destruct (format t arg0); reflexivity.
  - cbn [no_brace forallb] in H. apply andb_prop in H. destruct H as [C H].
    apply andb_prop in C. destruct C as [C1 C2].
    apply negb_true_iff in C1, C2.
    cbn [app format]. rewrite C1, C2, (IH H).
    destruct (format t arg0); reflexivity.
Qed.

(** Formatting a template with the one field [{0}]. *)
Lemma format_field0 (pre post arg0 : str) :
  no_brace pre = true -> no_brace post = true ->
  format (pre ++ lit "{0}" ++ post) arg0 = Ok (pre ++ arg0 ++ post).
Proof.
  intros H1 H2. rewrite format_plain by exact H1.
  change (lit "{0}" ++ post) with (LBRACE :: ZERO :: RBRACE :: post).
  cbn [format].
  change (LBRACE =? LBRACE)%N with true. change (ZERO =? LBRACE)%N with false.
  change (ZERO =? ZERO)%N with true. change (RBRACE =? RBRACE)%N with true.
  cbv iota.
  rewrite <- (app_nil_r post) at 1. rewrite format_plain by exact H2.
  cbn [format bind]. now rewrite app_nil_r.
Qed.

Lemma enumerate_from_numbered (a : nat) (ts : list str) :
  map (fun '(i, t) => lit "[" ++ str_of_nat (i + 1) ++ lit "] " ++ t)
      (enumerate_from a ts)
  = map entry_line (combine (seq (S a) (length ts)) ts).
Proof.
  revert a. induction ts as [|t ts IH]; intros a; [reflexivity|].
  cbn [enumerate_from map length seq combine]. rewrite IH.
  unfold entry_line at 1. cbn [fst snd]. now rewrite Nat.add_1_r.
Qed.

Lemma nth_error_enumerate_from (a : nat) (ts : list str) (i : nat) (t : str) :
  nth_error ts i = Some t ->
  nth_error
    (map (fun '(i, t) => lit "[" ++ str_of_nat (i + 1) ++ lit "] " ++ t)
         (enumerate_from a ts)) i
  = Some (lit "[" ++ str_of_nat (a + i + 1) ++ lit "] " ++ t).
Proof.
  revert a i. induction ts as [|x ts IH]; intros a i H.
  - destruct i; discriminate.
  - destruct i as [|i]; cbn [nth_error] in H.
    + inversion H; subst. cbn [enumerate_from map nth_error].
      now rewrite Nat.add_0_r.
    + cbn [enumerate_from map nth_error]. rewrite (IH (S a) i H).
      now rewrite Nat.add_succ_comm.
Qed.

Lemma main_template_split :
  MainCode.prompt_template = main_prompt_prefix ++ lit "{0}" ++ main_prompt_suffix.
Proof. vm_compute. reflexivity. Qed.

Lemma streamlit_template_split :
  StreamlitApp.prompt_template
  = streamlit_prompt_prefix ++ lit "{0}" ++ streamlit_prompt_suffix.
Proof. vm_compute. reflexivity. Qed.

Lemma main_texts_with_indices (data : list item) :
  MainCode.texts_with_indices data = map entry_line (numbered (map text data)).
Proof. apply enumerate_from_numbered. Qed.

Lemma streamlit_texts_with_indices (data : list item) :
  StreamlitApp.texts_with_indices data = map entry_line (numbered (map text data)).
Proof. apply enumerate_from_numbered. Qed.

Lemma main_prompt_eq (data : list item) :
  MainCode.prompt data
  = Ok (main_prompt_prefix
          ++ join [NL; NL] (map entry_line (numbered (map text data)))
          ++ main_prompt_suffix).
Proof.
  unfold MainCode.prompt.
  rewrite main_template_split, main_texts_with_indices.
  apply format_field0; vm_compute; reflexivity.
Qed.

Lemma streamlit_prompt_eq (data : list item) :
  StreamlitApp.prompt data
  = Ok (streamlit_prompt_prefix
          ++ join [NL; NL] (map entry_line (numbered (map text data)))
          ++ streamlit_prompt_suffix).
Proof.
  unfold StreamlitApp.prompt.
  rewrite streamlit_template_split, streamlit_texts_with_indices.
  apply format_field0; vm_compute; reflexivity.
Qed.

End PromptFacts.

(** * Facts about the limit of [int()] *)

Module LimitFacts.

Import PyFacts ParserFacts.

Lemma int_limited_cases (s : str) :
  int_limited s
  = if (N.of_nat (length s) <=? DEFAULT_MAX_STR_DIGITS)%N then int s
    else Raise ValueError.
Proof.
  unfold int_limited. rewrite N.leb_antisym.
  destruct (DEFAULT_MAX_STR_DIGITS <? N.of_nat (length s))%N; reflexivity.
Qed.

(** One iteration of the loop under the limit: the iteration of the loop
    without the limit when the marker of the line is within the limit, and
    [ValueError] otherwise. *)
Lemma parse_line_limit (st : parser_state) (l : str) :
  MainCodeLimit.parse_line st l
  = if within_limit_line l then MainCode.parse_line st l else Raise ValueError.
Proof.
  unfold MainCodeLimit.parse_line, MainCode.parse_line, within_limit_line.
  destruct (is_empty (strip l)) eqn:B.
  - destruct (strip l); [reflexivity | discriminate].
  - destruct (re_match_index (strip l)) as [[g1 g2]|]; [|reflexivity].
    rewrite int_limited_cases.
    destruct (N.of_nat (length g1) <=? DEFAULT_MAX_STR_DIGITS)%N; reflexivity.
Qed.

Lemma for_each_limit (lines : list str) (st : parser_state) :
  for_each MainCodeLimit.parse_line lines st
  = if forallb within_limit_line lines then for_each MainCode.parse_line lines st
    else Raise ValueError.
Proof.
  revert st. induction lines as [|l rest IH]; intros st; [reflexivity|].
  cbn [for_each forallb]. rewrite parse_line_limit.
  destruct (within_limit_line l); [|reflexivity].
  rewrite parse_line_cases. cbn [bind andb]. apply IH.
Qed.

Lemma within_limit_line_blank (l : str) :
  is_empty (strip l) = true -> within_limit_line l = true.
Proof.
  intros B. unfold within_limit_line.
  destruct (strip l); [reflexivity | discriminate].
Qed.

Lemma within_limit_nonblank (lines : list str) :
  forallb within_limit_line (filter nonblank (map strip lines))
  = forallb within_limit_line lines.
Proof.
  induction lines as [|l rest IH]; [reflexivity|].
  cbn [map filter forallb]. unfold nonblank at 1.
  destruct (is_empty (strip l)) eqn:B; cbn [negb].
  - now rewrite (within_limit_line_blank _ B).
  - cbn [forallb]. rewrite IH. f_equal.
    unfold within_limit_line. now rewrite strip_idem.
Qed.

(** The white space around the response does not count. *)
Lemma within_limit_strip (response_text : str) :
  within_limit (strip response_text) = within_limit response_text.
Proof.
  unfold within_limit.
  rewrite <- (within_limit_nonblank (split_nl (strip response_text))).
  rewrite <- (within_limit_nonblank (split_nl response_text)).
  change (forallb within_limit_line (nonblank_lines (strip response_text))
          = forallb within_limit_line (nonblank_lines response_text)).
  now rewrite nonblank_lines_strip.
Qed.

(** The parser under the limit: what the parser without the limit returns
    when every marker is within the limit, [ValueError] otherwise. *)
Lemma parse_translations_limit (response_text : str) :
  MainCodeLimit.parse_translations response_text
  = if within_limit response_text then MainCode.parse_translations response_text
    else Raise ValueError.
Proof.
  unfold MainCodeLimit.parse_translations, MainCode.parse_translations.
  rewrite for_each_limit.
  change (forallb within_limit_line (split_nl (strip response_text)))
    with (within_limit (strip response_text)).
  rewrite within_limit_strip.
  destruct (within_limit response_text); reflexivity.
Qed.

Lemma parse_translations_entries_limit (response_text : str) :
  MainCodeLimit.parse_translations response_text
  = if within_limit response_text then Ok (entries (split_nl response_text))
    else Raise ValueError.
Proof. now rewrite parse_translations_limit, parse_translations_entries. Qed.

Lemma process_entire_json_limit (data : list item) (response_text : str) :
  MainCodeLimit.process_entire_json data response_text
  = if within_limit response_text then MainCode.process_entire_json data response_text
    else ([], Raise ValueError).
Proof.
  unfold MainCodeLimit.process_entire_json, MainCode.process_entire_json.
  rewrite parse_translations_limit.
  destruct (within_limit response_text); reflexivity.
Qed.

(** The two variants under the limit. *)
Lemma parse_line_limit_agree (st : parser_state) (line : str) :
  StreamlitAppLimit.parse_line st line = MainCodeLimit.parse_line st line.
Proof. reflexivity. Qed.

Lemma parse_translations_limit_agree (response_text : str) :
  StreamlitAppLimit.parse_translations response_text
  = MainCodeLimit.parse_translations response_text.
Proof. reflexivity. Qed.

Lemma process_json_limit (data : list item) (response_text : str) :
  StreamlitAppLimit.process_json data response_text
  = if within_limit response_text then StreamlitApp.process_json data response_text
    else ([], Raise ValueError).
Proof.
  assert (E : StreamlitAppLimit.process_json data response_text
              = match MainCodeLimit.parse_translations response_text with
                | Raise e => ([], Raise e)
                | Ok translations =>
                    ([], StreamlitApp.fill_placeholders data
                           (StreamlitApp.create_output_data data
                              (sort_by_key fst translations)))
                end) by reflexivity.
  assert (F : StreamlitApp.process_json data response_text
              = match MainCode.parse_translations response_text with
                | Raise e => ([], Raise e)
                | Ok translations =>
                    ([], StreamlitApp.fill_placeholders data
                           (StreamlitApp.create_output_data data
                              (sort_by_key fst translations)))
                end) by reflexivity.
  rewrite E, F, parse_translations_limit.
  destruct (within_limit response_text); reflexivity.
Qed.

(** Under the limit too, the interactive variant returns what the batch
    variant returns. *)
Lemma process_json_limit_eq (data : list item) (response_text : str) :
  StreamlitAppLimit.process_json data response_text
  = ([], snd (MainCodeLimit.process_entire_json data response_text)).
Proof.
  rewrite process_json_limit, process_entire_json_limit, process_json_eq.
  destruct (within_limit response_text); reflexivity.
Qed.

(** The run under the limit, from the response text on. *)
Lemma process_entire_json_limit_eq (data : list item) (response_text : str) :
  MainCodeLimit.process_entire_json data response_text
  = if within_limit response_text then
      (MainCode.verify_count data (entries (split_nl response_text)),
       Ok (reassembled data response_text))
    else ([], Raise ValueError).
Proof. now rewrite process_entire_json_limit, process_entire_json_eq. Qed.

(** A response that parses under the limit. *)
Lemma parse_limit_ok (response_text : str) (translations : list (N * str)) :
  MainCodeLimit.parse_translations response_text = Ok translations ->
  within_limit response_text = true
  /\ translations = entries (split_nl response_text).
Proof.
  rewrite parse_translations_entries_limit.
  destruct (within_limit response_text); [|discriminate].
  intros H. injection H as E. now split.
Qed.

Lemma process_limit_ok (data : list item) (response_text : str)
      (output_data : list item) :
  snd (MainCodeLimit.process_entire_json data response_text) = Ok output_data ->
  within_limit response_text = true
  /\ output_data = reassembled data response_text.
Proof.
  rewrite process_entire_json_limit_eq.
  destruct (within_limit response_text); [|discriminate].
  cbn [snd]. intros H. injection H as E. now split.
Qed.

(** The markers of a list of blocks are the markers of its lines. *)
Lemma within_limit_no_marker (lines : list str) :
  Forall no_marker lines -> forallb within_limit_line lines = true.
Proof.
  induction 1 as [|l rest Hl _ IH]; [reflexivity|].
  cbn [forallb]. rewrite IH. unfold within_limit_line.
  unfold no_marker in Hl. now rewrite Hl.
Qed.

Lemma within_limit_blocks (blocks : list block) :
  Forall well_formed_block blocks ->
  Forall (fun b => digits_within_limit (ordinal_digits b)) blocks ->
  forallb within_limit_line (concat (map block_lines blocks)) = true.
Proof.
  intros Hw. induction Hw as [|b rest [M C] _ IH]; intros Hd; [reflexivity|].
  inversion Hd as [|? ? D Hd']; subst.
  cbn [map concat]. unfold block_lines at 1. cbn [app forallb].
  rewrite forallb_app, (within_limit_no_marker C), (IH Hd').
  unfold within_limit_line. rewrite M.
  unfold digits_within_limit in D. apply N.leb_le in D. now rewrite D.
Qed.

(** The number of digits that [str()] writes. *)
Lemma digits_of_length (fuel : nat) (n k : N) :
  (0 < k)%N -> (n < 10 ^ k)%N ->
  (N.of_nat (length (digits_of fuel n [])) <= k)%N.
Proof.
  revert n k. induction fuel as [|fuel IH]; intros n k K H.
  - rewrite digits_of_O. cbn [length]. lia.
  - rewrite digits_of_S. destruct (n / 10 =? 0)%N eqn:E; [cbn [length]; lia|].
    apply N.eqb_neq in E. rewrite digits_of_app, length_app. cbn [length].
    replace k with (N.succ (N.pred k)) in H by lia.
    rewrite N.pow_succ_r' in H.
    destruct (N.eq_dec (N.pred k) 0) as [Z|Z].
    + exfalso. apply E. apply N.div_small. rewrite Z in H. cbn in H. lia.
    + assert (D : (n / 10 < 10 ^ N.pred k)%N)
        by (apply N.Div0.div_lt_upper_bound; exact H).
      specialize (IH (n / 10)%N (N.pred k) ltac:(lia) D). lia.
Qed.

Lemma str_of_nat_within_limit (n : nat) :
  (N.of_nat n < 10 ^ DEFAULT_MAX_STR_DIGITS)%N ->
  digits_within_limit (str_of_nat n).
Proof.
  intros H. unfold digits_within_limit, str_of_nat.
  apply digits_of_length; [reflexivity | exact H].
Qed.

(** The response made of one line per entry is within the limit when its
    ordinals are. *)
Lemma within_limit_response_of (es : list (nat * str)) :
  single_line_entries es ->
  Forall (fun e => (N.of_nat (fst e) < 10 ^ DEFAULT_MAX_STR_DIGITS)%N) es ->
  within_limit (response_of es) = true.
Proof.
  intros H B. unfold within_limit, response_of.
  destruct es as [|e es]; [reflexivity|].
  rewrite split_nl_join.
  - rewrite forallb_forall. intros l I. rewrite in_map_iff in I.
    destruct I as (x & E & I). subst l. unfold within_limit_line.
    unfold single_line_entries in H. rewrite Forall_forall in H, B.
    rewrite (ResponseFacts.match_entry_line _ (H x I)).
    apply N.leb_le. apply str_of_nat_within_limit. exact (B x I).
  - discriminate.
  - rewrite Forall_map. eapply Forall_impl; [|exact H].
    intros x. apply ResponseFacts.single_line_entry_line.
Qed.

Lemma numbered_bound (ts : list str) :
  Forall (fun e => fst e <= length ts) (numbered ts).
Proof.
  rewrite Forall_forall. intros [i t] I. unfold numbered in I.
  apply in_combine_l in I. apply in_seq in I. cbn [fst]. lia.
Qed.

Lemma within_limit_numbered (ts : list str) :
  Forall single_line ts ->
  (N.of_nat (length ts) < 10 ^ DEFAULT_MAX_STR_DIGITS)%N ->
  within_limit (response_of (numbered ts)) = true.
Proof.
  intros H B. apply within_limit_response_of.
  - now apply ResponseFacts.single_line_entries_combine.
  - eapply Forall_impl; [|exact (numbered_bound ts)].
    cbv beta. intros e L. lia.
Qed.

End LimitFacts.

(** * Facts about the prompt as a text *)

Module PromptTextFacts.

Import PyFacts PromptFacts.

Lemma code_points_lit (s : string) : code_points s = lit s.
Proof.
  unfold code_points, lit. apply map_ext. intros a.
  unfold nat_of_ascii. apply N2Nat.id.
Qed.

Lemma code_points_app (s t : string) :
  code_points (String.append s t) = code_points s ++ code_points t.
Proof.
  unfold code_points. induction s as [|a s IH]; [reflexivity|].
  cbn [String.append list_ascii_of_string map app]. now rewrite IH.
Qed.

(** The digits that [str()] writes are ASCII digits. *)
Lemma ascii_digit_mod (m : N) : ascii_digit (ZERO + m mod 10)%N = true.
Proof.
  pose proof (N.mod_lt m 10 ltac:(discriminate)) as H.
  revert H. generalize (m mod 10)%N. intros k H.
  unfold ascii_digit, ZERO. apply andb_true_intro.
  split; apply N.leb_le; lia.
Qed.

Lemma digits_of_ascii (fuel : nat) (n : N) :
  forallb ascii_digit (digits_of fuel n []) = true.
Proof.
  revert n. induction fuel as [|fuel IH]; intros n.
  - rewrite digits_of_O. cbn [forallb]. now rewrite ascii_digit_mod.
  - rewrite digits_of_S. destruct (n / 10 =? 0)%N.
    + cbn [forallb]. now rewrite ascii_digit_mod.
    + rewrite digits_of_app, forallb_app, IH. cbn [forallb].
      now rewrite ascii_digit_mod.
Qed.

(** With enough fuel, the first digit of a positive number is not zero. *)
Lemma digits_of_leading (fuel : nat) (n : N) :
  (n <= N.of_nat fuel)%N -> n <> 0%N ->
  exists c s, digits_of fuel n [] = c :: s /\ c <> ZERO.
Proof.
  revert n. induction fuel as [|fuel IH]; intros n H Z; [lia|].
  rewrite digits_of_S. destruct (n / 10 =? 0)%N eqn:E.
  - apply N.eqb_eq in E. exists (ZERO + n mod 10)%N, [].
    split; [reflexivity|].
    pose proof (N.div_mod n 10 ltac:(discriminate)). unfold ZERO. lia.
  - apply N.eqb_neq in E.
    assert (L : (n / 10 < n)%N) by (apply N.div_lt; lia).
    destruct (IH (n / 10)%N) as (c & s & D & C); [lia | exact E |].
    rewrite digits_of_app, D. exists c, (s ++ [(ZERO + n mod 10)%N]).
    split; [reflexivity | exact C].
Qed.

Lemma ascii_digit_cases (c : char) :
  ascii_digit c = true ->
  c = 48%N \/ c = 49%N \/ c = 50%N \/ c = 51%N \/ c = 52%N \/ c = 53%N
  \/ c = 54%N \/ c = 55%N \/ c = 56%N \/ c = 57%N.
Proof.
  unfold ascii_digit. intros H. apply andb_prop in H. destruct H as [A B].
  apply N.leb_le in A, B. lia.
Qed.

Ltac each_digit H :=
  apply ascii_digit_cases in H;
  repeat (destruct H as [H|H]; [subst|]); [..|subst].

(** The numeral of a string of ASCII digits is written back as the
    string. *)
Lemma string_of_uint_of_digits (s : str) :
  forallb ascii_digit s = true ->
  code_points (NilEmpty.string_of_uint (uint_of_digits s)) = s.
Proof.
  induction s as [|c s IH]; intros H; [reflexivity|].
  cbn [forallb] in H. apply andb_prop in H. destruct H as [C H].
  specialize (IH H). cbn [uint_of_digits].
  each_digit C; cbn; unfold code_points in IH; now rewrite IH.
Qed.

Lemma digit_value_ascii (c : char) :
  ascii_digit c = true -> digit_value c = (c - 48)%N.
Proof. intros C. each_digit C; reflexivity. Qed.

(** The number of the numeral of a string of ASCII digits. *)
Lemma of_uint_acc_of_digits (s : str) (acc : nat) :
  forallb ascii_digit s = true ->
  Nat.of_uint_acc (uint_of_digits s) acc
  = N.to_nat (fold_left (fun a c => (10 * a + digit_value c)%N) s (N.of_nat acc)).
Proof.
  revert acc. induction s as [|c s IH]; intros acc H.
  - cbn. now rewrite Nat2N.id.
  - cbn [forallb] in H. apply andb_prop in H. destruct H as [C H].
    cbn [uint_of_digits fold_left]. rewrite (digit_value_ascii _ C).
    each_digit C; cbn [digit_cons N.eqb Pos.eqb Nat.of_uint_acc];
      rewrite Nat.tail_mul_spec, (IH _ H); do 2 f_equal; lia.
Qed.

Lemma of_uint_of_digits (s : str) :
  forallb ascii_digit s = true ->
  Nat.of_uint (uint_of_digits s) = N.to_nat (decimal_number s).
Proof. intros H. unfold Nat.of_uint. now rewrite of_uint_acc_of_digits. Qed.

(** The numeral of what [str()] writes has no zero in front. *)
Lemma unorm_leading (c : char) (s : str) :
  ascii_digit c = true -> c <> ZERO ->
  Decimal.unorm (uint_of_digits (c :: s)) = uint_of_digits (c :: s).
Proof.
  intros C Z. cbn [uint_of_digits].
  each_digit C; try reflexivity. now elim Z.
Qed.

Lemma unorm_str_of_nat (n : nat) :
  Decimal.unorm (uint_of_digits (str_of_nat n)) = uint_of_digits (str_of_nat n).
Proof.
  destruct n as [|n]; [reflexivity|].
  pose proof (digits_of_ascii (S n) (N.of_nat (S n))) as A.
  destruct (@digits_of_leading (S n) (N.of_nat (S n))) as (c & s & D & C);
    [lia | lia |].
  unfold str_of_nat. rewrite D in *.
  cbn [forallb] in A. apply andb_prop in A. destruct A as [A _].
  now apply unorm_leading.
Qed.

(** [str(n)] writes the decimal numeral of [n]. *)
Lemma str_of_nat_numeral (n : nat) : str_of_nat n = code_points (numeral n).
Proof.
  pose proof (digits_of_ascii n (N.of_nat n)) as A.
  fold (str_of_nat n) in A.
  assert (E : Nat.to_uint n = uint_of_digits (str_of_nat n)).
  { rewrite <- unorm_str_of_nat, <- DecimalNat.Unsigned.to_of.
    rewrite (of_uint_of_digits _ A), decimal_number_str_of_nat.
    now rewrite Nat2N.id. }
  unfold numeral. rewrite E. symmetry. now apply string_of_uint_of_digits.
Qed.

Lemma numbered_item_entry_line (i : nat) (t : str) :
  numbered_item i t = entry_line (i, t).
Proof.
  unfold numbered_item, entry_line. cbn [fst snd].
  rewrite !code_points_app, <- str_of_nat_numeral, <- !app_assoc. reflexivity.
Qed.

(** The items of the prompt, as the code joins them. *)
Lemma items_block_join (i : nat) (ts : list str) :
  items_block i ts
  = join [NL; NL] (map entry_line (combine (seq i (length ts)) ts)).
Proof.
  revert i. induction ts as [|t rest IH]; intros i; [reflexivity|].
  destruct rest as [|t' rest].
  - cbn [items_block length seq combine map join].
    apply numbered_item_entry_line.
  - change (items_block i (t :: t' :: rest))
      with (numbered_item i t ++ code_points (String.append line_feed line_feed)
              ++ items_block (S i) (t' :: rest)).
    rewrite IH, numbered_item_entry_line. reflexivity.
Qed.

Lemma items_block_numbered (ts : list str) :
  items_block 1 ts = join [NL; NL] (map entry_line (numbered ts)).
Proof. apply items_block_join. Qed.

(** Each item is in the block. *)
Lemma items_block_contains (k : nat) (ts : list str) (i : nat) (t : str) :
  nth_error ts i = Some t ->
  exists before after,
    items_block k ts = before ++ numbered_item (k + i) t ++ after.
Proof.
  revert k i. induction ts as [|t0 rest IH]; intros k i H.
  - destruct i; discriminate.
  - destruct i as [|i]; cbn [nth_error] in H.
    + injection H as E. subst t0. rewrite Nat.add_0_r. exists [].
      destruct rest as [|t' rest].
      * exists []. cbn [items_block]. now rewrite app_nil_r.
      * eexists. reflexivity.
    + destruct rest as [|t' rest]; [destruct i; discriminate|].
      destruct (IH (S k) i H) as (b & a & E).
      exists (numbered_item k t0 ++ code_points (String.append line_feed line_feed) ++ b), a.
      change (items_block k (t0 :: t' :: rest))
        with (numbered_item k t0 ++ code_points (String.append line_feed line_feed)
                ++ items_block (S k) (t' :: rest)).
      replace (k + S i) with (S k + i) by lia.
      rewrite E, <- !app_assoc. reflexivity.
Qed.

Lemma main_instructions :
  code_points main_instructions_before = main_prompt_prefix
  /\ code_points main_instructions_after = main_prompt_suffix.
Proof. split; vm_compute; reflexivity. Qed.

Lemma streamlit_instructions :
  code_points streamlit_instructions_before = streamlit_prompt_prefix
  /\ code_points streamlit_instructions_after = streamlit_prompt_suffix.
Proof. split; vm_compute; reflexivity. Qed.

(** The prompts of the two variants, as texts. *)
Lemma main_prompt_text_eq (data : list item) :
  MainCode.prompt data
  = Ok (code_points main_instructions_before
          ++ items_block 1 (map text data)
          ++ code_points main_instructions_after).
Proof.
  destruct main_instructions as [B A].
  rewrite main_prompt_eq, B, A, items_block_numbered. reflexivity.
Qed.

Lemma streamlit_prompt_text_eq (data : list item) :
  StreamlitApp.prompt data
  = Ok (code_points streamlit_instructions_before
          ++ items_block 1 (map text data)
          ++ code_points streamlit_instructions_after).
Proof.
  destruct streamlit_instructions as [B A].
  rewrite streamlit_prompt_eq, B, A, items_block_numbered. reflexivity.
Qed.

End PromptTextFacts.

(** * The properties of the specification *)

Import PyFacts ParserFacts ResponseFacts BlockFacts PromptFacts LimitFacts
       PromptTextFacts.

Ltac single_lines :=
  repeat constructor; unfold single_line; cbn; intuition discriminate.

Ltac no_markers :=
  repeat (apply Forall_cons; [vm_compute; reflexivity|]); apply Forall_nil.

(** The length of the output: the padding brings a short output up to the
    length of the input, and nothing shortens a long one. *)
Lemma output_length (data : list item) (response_text : str) :
  exists output_data,
    snd (MainCode.process_entire_json data response_text) = Ok output_data
    /\ length output_data
       = Nat.max (length data)
           (length (kept (length data)
                      (sort_by_key fst (entries (split_nl response_text))))).
Proof.
  rewrite process_entire_json_eq. cbn [snd]. eexists. split; [reflexivity|].
  rewrite length_app, length_map, length_skipn. lia.
Qed.

(** The batch variant prints its warning exactly when the number of parsed
    entries is not the number of input items; the interactive variant
    shows nothing. *)
Lemma warning_printed (data : list item) (response_text : str) :
  exists translations,
    MainCode.parse_translations response_text = Ok translations
    /\ fst (MainCode.process_entire_json data response_text)
       = (if length translations =? length data then []
          else [lit "Warning: Expected " ++ str_of_nat (length data)
                  ++ lit " translations but got "
                  ++ str_of_nat (length translations) ++ lit "."])
    /\ fst (StreamlitApp.process_json data response_text) = [].
Proof.
  exists (entries (split_nl response_text)).
  split; [apply parse_translations_entries|].
  rewrite process_json_eq, process_entire_json_eq. cbn [fst].
  unfold MainCode.verify_count.
  split; [|reflexivity].
  destruct (length (entries (split_nl response_text)) =? length data); reflexivity.
Qed.

(** C1, at an input that breaks it: for the one input item [Hello] and a
    response with two entries of ordinal 1, both entries are in range, both
    are appended and nothing is cut: the output has two items, not one. *)
Theorem surplus_entries_lengthen_output :
  snd (MainCode.process_entire_json [{| text := lit "Hello" |}] (lit "[1] a
[1] b"))
  = Ok [{| text := lit "a" |}; {| text := lit "b" |}]
  /\ snd (StreamlitApp.process_json [{| text := lit "Hello" |}] (lit "[1] a
[1] b"))
     = Ok [{| text := lit "a" |}; {| text := lit "b" |}].
Proof. split; vm_compute; reflexivity. Qed.

(** C2: when the response is made of the lines [[1] t1] .. [[N] tN] in
    ascending order, one entry per line, and the input has N items, both
    variants return N items, the item at position i holding ti trimmed (and
    the batch variant prints no warning). *)
Theorem ascending_response_output (data : list item) (ts : list str) :
  length data = length ts -> Forall single_line ts ->
  MainCode.process_entire_json data (response_of (numbered ts))
  = ([], Ok (map (fun t => {| text := strip t |}) ts))
  /\ StreamlitApp.process_json data (response_of (numbered ts))
     = ([], Ok (map (fun t => {| text := strip t |}) ts)).
Proof.
  intros L H. rewrite process_json_eq, process_numbered by assumption.
  split; reflexivity.
Qed.

Lemma ascending_response_output_witness :
  (length [{| text := lit "Hello" |}; {| text := lit "World" |}]
   = length [lit "Namaste"; lit "Duniya "]
   /\ Forall single_line [lit "Namaste"; lit "Duniya "])
  /\ (MainCode.process_entire_json
        [{| text := lit "Hello" |}; {| text := lit "World" |}]
        (response_of (numbered [lit "Namaste"; lit "Duniya "]))
      = ([], Ok (map (fun t => {| text := strip t |}) [lit "Namaste"; lit "Duniya "]))
      /\ StreamlitApp.process_json
           [{| text := lit "Hello" |}; {| text := lit "World" |}]
           (response_of (numbered [lit "Namaste"; lit "Duniya "]))
         = ([], Ok (map (fun t => {| text := strip t |}) [lit "Namaste"; lit "Duniya "]))).
Proof.
  assert (H : Forall single_line [lit "Namaste"; lit "Duniya "]) by single_lines.
  split; [split; [reflexivity | exact H]|].
  exact (@ascending_response_output
           [{| text := lit "Hello" |}; {| text := lit "World" |}]
           [lit "Namaste"; lit "Duniya "] eq_refl H).
Defined.

(** C3: when the response holds the entries [[1] t1] .. [[N] tN], one per
    line, in any order, both variants return what they return for the
    ascending order; with an input of N items, that is the N items holding
    t1 .. tN trimmed, in this order. *)
Theorem permuted_response_output
        (data : list item) (ts : list str) (p : list (nat * str)) :
  Forall single_line ts -> Permutation p (numbered ts) ->
  MainCode.process_entire_json data (response_of p)
  = MainCode.process_entire_json data (response_of (numbered ts))
  /\ StreamlitApp.process_json data (response_of p)
     = StreamlitApp.process_json data (response_of (numbered ts))
  /\ (length data = length ts ->
      snd (MainCode.process_entire_json data (response_of p))
      = Ok (map (fun t => {| text := strip t |}) ts)
      /\ snd (StreamlitApp.process_json data (response_of p))
         = Ok (map (fun t => {| text := strip t |}) ts)).
Proof.
  intros H P. rewrite !process_json_eq, (process_permuted data H P).
  repeat split; rewrite process_numbered by assumption; reflexivity.
Qed.

Lemma permuted_response_output_witness :
  (Forall single_line [lit "ek"; lit "do"; lit "teen"]
   /\ Permutation [(3, lit "teen"); (1, lit "ek"); (2, lit "do")]
                  (numbered [lit "ek"; lit "do"; lit "teen"]))
  /\ snd (MainCode.process_entire_json
            [{| text := lit "one" |}; {| text := lit "two" |}; {| text := lit "three" |}]
            (response_of [(3, lit "teen"); (1, lit "ek"); (2, lit "do")]))
     = Ok (map (fun t => {| text := strip t |}) [lit "ek"; lit "do"; lit "teen"]).
Proof.
  assert (H : Forall single_line [lit "ek"; lit "do"; lit "teen"]) by single_lines.
  assert (P : Permutation [(3, lit "teen"); (1, lit "ek"); (2, lit "do")]
                          (numbered [lit "ek"; lit "do"; lit "teen"]))
    by exact (Permutation_cons_append [(1, lit "ek"); (2, lit "do")] (3, lit "teen")).
  split; [split; [exact H | exact P]|].
  exact (proj1 (proj2 (proj2
           (@permuted_response_output
              [{| text := lit "one" |}; {| text := lit "two" |}; {| text := lit "three" |}]
              [lit "ek"; lit "do"; lit "teen"]
              [(3, lit "teen"); (1, lit "ek"); (2, lit "do")] H P)) eq_refl)).
Defined.

(** C4, at the input of the claim: for three input items and a response
    with the entries 1 and 3 only, the text of entry 3 lands at position 2
    and the placeholder at position 3, about the third input text, whose
    translation is the one at position 2. *)
Theorem shortfall_gap_misaligned :
  snd (MainCode.process_entire_json
         [{| text := lit "one" |}; {| text := lit "two" |}; {| text := lit "three" |}]
         (lit "[1] ek
[3] teen"))
  = Ok [{| text := lit "ek" |}; {| text := lit "teen" |};
        {| text := lit "[Translation missing for: three]" |}]
  /\ snd (StreamlitApp.process_json
            [{| text := lit "one" |}; {| text := lit "two" |}; {| text := lit "three" |}]
            (lit "[1] ek
[3] teen"))
     = Ok [{| text := lit "ek" |}; {| text := lit "teen" |};
           {| text := lit "[Translation missing for: three]" |}].
Proof. split; vm_compute; reflexivity. Qed.

(** C5: when no line of the response, once trimmed, matches the marker
    pattern (so for the empty response, and for any prose without a marker),
    neither variant raises, and the output has one placeholder per input
    item, built from the input text at that position. *)
Theorem no_marker_all_placeholders (data : list item) (response_text : str) :
  Forall no_marker (split_nl response_text) ->
  snd (MainCode.process_entire_json data response_text) = Ok (map placeholder data)
  /\ snd (StreamlitApp.process_json data response_text) = Ok (map placeholder data).
Proof.
  intros H. rewrite process_json_eq, process_entire_json_eq. cbn [snd].
  rewrite <- (app_nil_r (split_nl response_text)), (entries_no_marker _ H).
  split; reflexivity.
Qed.

Lemma no_marker_all_placeholders_witness :
  Forall no_marker (split_nl (lit "Sorry, I cannot help with that.
See note [1] below."))
  /\ snd (MainCode.process_entire_json
            [{| text := lit "Hello" |}; {| text := lit "World" |}]
            (lit "Sorry, I cannot help with that.
See note [1] below."))
     = Ok (map placeholder [{| text := lit "Hello" |}; {| text := lit "World" |}]).
Proof.
  assert (E : split_nl (lit "Sorry, I cannot help with that.
See note [1] below.")
              = [lit "Sorry, I cannot help with that."; lit "See note [1] below."])
    by (vm_compute; reflexivity).
  assert (H : Forall no_marker (split_nl (lit "Sorry, I cannot help with that.
See note [1] below."))) by (rewrite E; no_markers).
  split; [exact H|].
  exact (proj1 (@no_marker_all_placeholders
                  [{| text := lit "Hello" |}; {| text := lit "World" |}] _ H)).
Defined.

(** C6: let the lines of the response be some lines that open no entry,
    followed by blocks made of a marker line and of lines that open no
    entry, the ordinal of every marker line having at most 4300 digits (the
    limit of [int()]).  Both parsers return one entry per block, in order:
    its ordinal, and the text of the marker line followed by every
    continuation line that is not empty once trimmed, each trimmed and
    appended after a single space (the whole trimmed).  The lines before the
    first marker line leave no trace in the result. *)
Theorem multi_line_entries_joined
        (response_text : str) (before : list str) (blocks : list block) :
  split_nl response_text = before ++ concat (map block_lines blocks) ->
  Forall no_marker before ->
  Forall well_formed_block blocks ->
  Forall (fun b => digits_within_limit (ordinal_digits b)) blocks ->
  MainCodeLimit.parse_translations response_text = Ok (map block_entry blocks)
  /\ StreamlitAppLimit.parse_translations response_text = Ok (map block_entry blocks).
Proof.
  intros E Hb Hw Hd.
  assert (W : within_limit response_text = true).
  { unfold within_limit.
    now rewrite E, forallb_app, (within_limit_no_marker Hb), (within_limit_blocks Hw Hd). }
  assert (P : MainCodeLimit.parse_translations response_text
              = Ok (map block_entry blocks)).
  { rewrite parse_translations_entries_limit, W.
    now rewrite E, (entries_no_marker _ Hb), (entries_blocks Hw). }
  split; [exact P|].
  exact (eq_trans (parse_translations_limit_agree response_text) P).
Qed.

Lemma multi_line_entries_joined_witness :
  (split_nl (lit "Here you go:
[2] kya
  haal

hai
[1] namaste")
   = [lit "Here you go:"]
       ++ concat (map block_lines
            [{| marker_line := lit "[2] kya"; ordinal_digits := lit "2";
                marker_text := lit " kya";
                continuation_lines := [lit "  haal"; lit ""; lit "hai"] |};
             {| marker_line := lit "[1] namaste"; ordinal_digits := lit "1";
                marker_text := lit " namaste"; continuation_lines := [] |}])
   /\ Forall no_marker [lit "Here you go:"]
   /\ Forall well_formed_block
        [{| marker_line := lit "[2] kya"; ordinal_digits := lit "2";
            marker_text := lit " kya";
            continuation_lines := [lit "  haal"; lit ""; lit "hai"] |};
         {| marker_line := lit "[1] namaste"; ordinal_digits := lit "1";
            marker_text := lit " namaste"; continuation_lines := [] |}]
   /\ Forall (fun b => digits_within_limit (ordinal_digits b))
        [{| marker_line := lit "[2] kya"; ordinal_digits := lit "2";
            marker_text := lit " kya";
            continuation_lines := [lit "  haal"; lit ""; lit "hai"] |};
         {| marker_line := lit "[1] namaste"; ordinal_digits := lit "1";
            marker_text := lit " namaste"; continuation_lines := [] |}])
  /\ MainCodeLimit.parse_translations (lit "Here you go:
[2] kya
  haal

hai
[1] namaste")
     = Ok [(2%N, lit "kya haal hai"); (1%N, lit "namaste")]
  /\ StreamlitAppLimit.parse_translations (lit "Here you go:
[2] kya
  haal

hai
[1] namaste")
     = Ok [(2%N, lit "kya haal hai"); (1%N, lit "namaste")].
Proof.
  assert (Hb : Forall no_marker [lit "Here you go:"]) by no_markers.
  assert (Hw : Forall well_formed_block
        [{| marker_line := lit "[2] kya"; ordinal_digits := lit "2";
            marker_text := lit " kya";
            continuation_lines := [lit "  haal"; lit ""; lit "hai"] |};
         {| marker_line := lit "[1] namaste"; ordinal_digits := lit "1";
            marker_text := lit " namaste"; continuation_lines := [] |}]).
  { repeat constructor; vm_compute; reflexivity. }
  assert (Hd : Forall (fun b => digits_within_limit (ordinal_digits b))
        [{| marker_line := lit "[2] kya"; ordinal_digits := lit "2";
            marker_text := lit " kya";
            continuation_lines := [lit "  haal"; lit ""; lit "hai"] |};
         {| marker_line := lit "[1] namaste"; ordinal_digits := lit "1";
            marker_text := lit " namaste"; continuation_lines := [] |}]).
  { repeat constructor; vm_compute; discriminate. }
  split; [split; [reflexivity | split; [exact Hb | split; [exact Hw | exact Hd]]]|].
  refine (@multi_line_entries_joined _ _ _ _ Hb Hw Hd). reflexivity.
Defined.

(** C7, at an input that breaks it: for the one input item [Hello] and a
    response with two entries, the batch variant prints the warning and
    returns two items, not one; the interactive variant returns the same two
    items and shows no warning. *)
Theorem count_mismatch_warning_and_length :
  MainCode.process_entire_json [{| text := lit "Hello" |}] (lit "[1] a
[1] b")
  = ([lit "Warning: Expected 1 translations but got 2."],
     Ok [{| text := lit "a" |}; {| text := lit "b" |}])
  /\ StreamlitApp.process_json [{| text := lit "Hello" |}] (lit "[1] a
[1] b")
     = ([], Ok [{| text := lit "a" |}; {| text := lit "b" |}]).
Proof. split; vm_compute; reflexivity. Qed.

(** C8: for every input, the prompt of either variant is one string: the
    fixed instructions of that variant around the items.  The item of
    position i (from 1) is the line made of the ordinal i in base ten
    between square brackets, a space and the input text; two line feeds,
    that is one blank line, separate consecutive items; every item of the
    input is in the prompt.  The builder is a function of the input
    alone. *)
Theorem prompt_lists_numbered_items (data : list item) :
  MainCode.prompt data
  = Ok (code_points main_instructions_before
          ++ items_block 1 (map text data)
          ++ code_points main_instructions_after)
  /\ StreamlitApp.prompt data
     = Ok (code_points streamlit_instructions_before
             ++ items_block 1 (map text data)
             ++ code_points streamlit_instructions_after)
  /\ forall i d,
       nth_error data i = Some d ->
       exists before after,
         items_block 1 (map text data)
         = before ++ numbered_item (i + 1) (text d) ++ after.
Proof.
  split; [apply main_prompt_text_eq|]. split; [apply streamlit_prompt_text_eq|].
  intros i d H. rewrite Nat.add_comm.
  apply items_block_contains. now apply map_nth_error.
Qed.

Lemma prompt_lists_numbered_items_witness :
  nth_error [{| text := lit "Hello" |}; {| text := lit "World" |}] 1
  = Some {| text := lit "World" |}
  /\ MainCode.prompt [{| text := lit "Hello" |}; {| text := lit "World" |}]
     = Ok (code_points main_instructions_before
             ++ lit "[1] Hello

[2] World"
             ++ code_points main_instructions_after)
  /\ StreamlitApp.prompt [{| text := lit "Hello" |}; {| text := lit "World" |}]
     = Ok (code_points streamlit_instructions_before
             ++ lit "[1] Hello

[2] World"
             ++ code_points streamlit_instructions_after)
  /\ exists before after,
       lit "[1] Hello

[2] World" = before ++ lit "[2] World" ++ after.
Proof.
  split; [reflexivity|].
  destruct (prompt_lists_numbered_items
              [{| text := lit "Hello" |}; {| text := lit "World" |}])
    as (M & S & C).
  split; [exact M|]. split; [exact S|].
  exact (C 1 {| text := lit "World" |} eq_refl).
Defined.

(** C9: for every input and every response, the interactive variant
    returns what the batch variant returns; so do their parsers and their
    two reassembly steps. *)
Theorem variants_agree (data : list item) (response_text : str) :
  snd (StreamlitApp.process_json data response_text)
  = snd (MainCode.process_entire_json data response_text)
  /\ StreamlitApp.parse_translations response_text
     = MainCode.parse_translations response_text
  /\ (forall translations,
        StreamlitApp.create_output_data data translations
        = MainCode.create_output_data data translations)
  /\ (forall output_data,
        StreamlitApp.fill_placeholders data output_data
        = MainCode.fill_placeholders data output_data).
Proof.
  split; [now rewrite process_json_eq|].
  split; [apply parse_translations_agree|].
  split; [apply create_output_data_agree | apply fill_placeholders_agree].
Qed.

(** C10: the items appended before the padding are the texts of the
    entries whose ordinal is at least 1 and at most N, in the order of the
    sorted list; an entry out of this range adds nothing; and, whenever the
    parser returns its entries, the output is these items followed by the
    placeholders of the input items from this position on, and by nothing
    else. *)
Theorem out_of_range_entries_dropped (data : list item) :
  (forall translations,
     MainCode.create_output_data data translations
     = kept (length data) translations
     /\ StreamlitApp.create_output_data data translations
        = kept (length data) translations)
  /\ (forall before e after,
        in_range (length data) (fst e) = false ->
        MainCode.create_output_data data (before ++ e :: after)
        = MainCode.create_output_data data (before ++ after)
        /\ StreamlitApp.create_output_data data (before ++ e :: after)
           = StreamlitApp.create_output_data data (before ++ after))
  /\ (forall response_text translations,
        MainCodeLimit.parse_translations response_text = Ok translations ->
        StreamlitAppLimit.parse_translations response_text = Ok translations
        /\ snd (MainCodeLimit.process_entire_json data response_text)
           = Ok (kept (length data) (sort_by_key fst translations)
                   ++ map placeholder
                        (skipn (length (kept (length data)
                                          (sort_by_key fst translations)))
                               data))
        /\ snd (StreamlitAppLimit.process_json data response_text)
           = snd (MainCodeLimit.process_entire_json data response_text)).
Proof.
  assert (K : forall ts,
             StreamlitApp.create_output_data data ts = kept (length data) ts).
  { intros ts. exact (eq_trans (create_output_data_agree data ts)
                               (create_output_data_kept data ts)). }
  split; [|split].
  - intros ts. split; [apply create_output_data_kept | apply K].
  - intros before e after H.
    assert (F : kept (length data) (before ++ e :: after)
                = kept (length data) (before ++ after)).
    { unfold kept. rewrite !filter_app. cbn [filter]. now rewrite H. }
    split.
    + now rewrite !create_output_data_kept.
    + now rewrite !K.
  - intros r ts P.
    split; [exact (eq_trans (parse_translations_limit_agree r) P)|].
    destruct (parse_limit_ok _ P) as [W E]. subst ts.
    rewrite process_json_limit_eq, process_entire_json_limit_eq, W. cbn [snd].
    split; reflexivity.
Qed.

Lemma out_of_range_entries_dropped_witness :
  (in_range (length [{| text := lit "one" |}; {| text := lit "two" |}]) 7%N = false
   /\ MainCodeLimit.parse_translations (lit "[1] ek
[7] saat
[2] do") = Ok [(1%N, lit "ek"); (7%N, lit "saat"); (2%N, lit "do")])
  /\ MainCode.create_output_data
       [{| text := lit "one" |}; {| text := lit "two" |}]
       ([(1%N, lit "ek")] ++ (7%N, lit "saat") :: [(2%N, lit "do")])
     = MainCode.create_output_data
         [{| text := lit "one" |}; {| text := lit "two" |}]
         ([(1%N, lit "ek")] ++ [(2%N, lit "do")])
  /\ snd (MainCodeLimit.process_entire_json
            [{| text := lit "one" |}; {| text := lit "two" |}] (lit "[1] ek
[7] saat
[2] do"))
     = Ok [{| text := lit "ek" |}; {| text := lit "do" |}].
Proof.
  assert (P : MainCodeLimit.parse_translations (lit "[1] ek
[7] saat
[2] do") = Ok [(1%N, lit "ek"); (7%N, lit "saat"); (2%N, lit "do")])
    by (vm_compute; reflexivity).
  destruct (out_of_range_entries_dropped
              [{| text := lit "one" |}; {| text := lit "two" |}]) as (_ & D & O).
  split; [split; [reflexivity | exact P]|].
  split; [exact (proj1 (D [(1%N, lit "ek")] (7%N, lit "saat") [(2%N, lit "do")] eq_refl))|].
  exact (proj1 (proj2 (O _ _ P))).
Defined.

(** * More properties of the parser and the reassembly *)

Module MoreParserFacts.

Lemma kept_length_NoDup (n : nat) (ts : list (N * str)) :
  NoDup (map fst ts) -> length (kept n ts) <= n.
Proof.
  intros ND. unfold kept. rewrite length_map.
  assert (L : length (map fst (filter (fun e => in_range n (fst e)) ts))
              <= length (map N.of_nat (seq 1 n)));
    [|now rewrite !length_map, length_seq in L].
  apply NoDup_incl_length.
  - induction ts as [|e ts IH]; [constructor|].
    cbn [map] in ND. inversion ND as [|? ? Hn ND']; subst. cbn [filter].
    destruct (in_range n (fst e)); [|now apply IH].
    cbn [map]. constructor; [|now apply IH].
    intros I. apply Hn. rewrite in_map_iff in *.
    destruct I as (x & E & I). exists x. split; [exact E|].
    now apply filter_In in I.
  - intros k I. rewrite in_map_iff in I. destruct I as (e & E & I).
    apply filter_In in I. destruct I as [_ R]. subst k.
    unfold in_range in R. apply andb_prop in R. destruct R as [R1 R2].
    apply N.leb_le in R1, R2. rewrite in_map_iff.
    exists (N.to_nat (fst e)). split; [now rewrite N2Nat.id|].
    rewrite in_seq. lia.
Qed.

Lemma entries_count (lines : list str) :
  length (entries lines) = length (filter is_marker_line lines).
Proof.
  induction lines as [|l rest IH]; [reflexivity|].
  cbn [entries filter]. unfold is_marker_line at 1.
  destruct (re_match_index (strip l)) as [[g1 g2]|]; cbn [length]; now rewrite IH.
Qed.

Lemma split_nl_single_lines (s : str) : Forall single_line (split_nl s).
Proof.
  induction s as [|c s IH]; [repeat constructor; intros []|].
  cbn [split_nl]. destruct (c =? NL)%N eqn:E.
  - constructor; [intros [] | exact IH].
  - destruct (split_nl s) as [|l ls]; [repeat constructor|].
    + unfold single_line. cbn [In]. apply N.eqb_neq in E. intros [H|[]]. congruence.
    + inversion IH as [|? ? Hl Hls]; subst. constructor; [|exact Hls].
      unfold single_line in *. cbn [In]. apply N.eqb_neq in E.
      intros [H|H]; [congruence | tauto].
Qed.

Lemma dot_star_single (s : str) : single_line (dot_star s).
Proof.
  unfold single_line. induction s as [|c s IH]; [intros []|].
  cbn [dot_star]. destruct (c =? NL)%N eqn:E; [intros []|].
  cbn [In]. apply N.eqb_neq in E. intros [H|H]; [congruence | tauto].
Qed.

Lemma re_match_index_group2 (line g1 g2 : str) :
  re_match_index line = Some (g1, g2) -> single_line g2.
Proof.
  unfold re_match_index. destruct line as [|c s]; [discriminate|].
  destruct (c =? LBRACKET)%N; [|discriminate].
  destruct (span_decimal s) as [ds after].
  destruct (is_empty ds); [discriminate|].
  destruct after as [|c' rest]; [discriminate|].
  destruct (c' =? RBRACKET)%N; [|discriminate].
  intros H. inversion H; subst. apply dot_star_single.
Qed.

Lemma single_line_strip (s : str) : single_line s -> single_line (strip s).
Proof. unfold single_line. intros H I. apply H. now apply PyFacts.strip_incl. Qed.

Lemma continuation_single_lines (lines : list str) :
  Forall single_line lines -> Forall single_line (continuation lines).
Proof.
  induction 1 as [|l rest Hl _ IH]; [constructor|].
  cbn [continuation]. destruct (is_empty (strip l)); [exact IH|].
  destruct (re_match_index (strip l)); [constructor|].
  constructor; [now apply single_line_strip | exact IH].
Qed.

Lemma space_joined_single_line (t : str) (cs : list str) :
  single_line t -> Forall single_line cs -> single_line (space_joined t cs).
Proof.
  intros Ht Hcs. revert t Ht. unfold space_joined.
  induction Hcs as [|c cs Hc _ IH]; intros t Ht; [exact Ht|].
  change (join [SPACE] (t :: c :: cs)) with (t ++ [SPACE] ++ join [SPACE] (c :: cs)).
  specialize (IH c Hc). unfold single_line in *.
  rewrite !in_app_iff. cbn [In]. intros [H|[[H|[]]|H]]; try tauto. discriminate.
Qed.

(** Every parsed text is on one line and trimmed. *)
Lemma entries_texts (lines : list str) :
  Forall single_line lines ->
  Forall (fun e => single_line (snd e) /\ trimmed (snd e)) (entries lines).
Proof.
  induction 1 as [|l rest Hl Hrest IH]; [constructor|].
  cbn [entries]. destruct (re_match_index (strip l)) as [[g1 g2]|] eqn:M; [|exact IH].
  constructor; [|exact IH]. cbn [snd]. split.
  - apply single_line_strip, space_joined_single_line.
    + apply single_line_strip. exact (re_match_index_group2 _ M).
    + now apply continuation_single_lines.
  - apply PyFacts.strip_idem.
Qed.

Lemma placeholder_trimmed (d : item) : trimmed (text (placeholder d)).
Proof.
  unfold trimmed, placeholder. cbn [text].
  change (lit "]") with [RBRACKET].
  change (lit "[Translation missing for: ")
    with (LBRACKET :: lit "Translation missing for: ").
  unfold strip. cbn [app lstrip].
  change (is_space LBRACKET) with false. cbv iota.
  rewrite app_comm_cons, app_assoc.
  rewrite ResponseFacts.rstrip_app_nonspace by reflexivity.
  reflexivity.
Qed.

Lemma kept_Forall (P : str -> Prop) (n : nat) (ts : list (N * str)) :
  Forall (fun e => P (snd e)) ts -> Forall (fun o => P (text o)) (kept n ts).
Proof.
  unfold kept. induction 1 as [|e ts He _ IH]; [constructor|].
  cbn [filter]. destruct (in_range n (fst e)); [|exact IH].
  cbn [map]. now constructor.
Qed.

Lemma join_blank_separated (ls : list str) :
  join [NL; NL] ls = join [NL] (blank_separated ls).
Proof.
  induction ls as [|l rest IH]; [reflexivity|].
  destruct rest as [|l' rest]; [reflexivity|].
  change (join [NL; NL] (l :: l' :: rest))
    with (l ++ [NL; NL] ++ join [NL; NL] (l' :: rest)).
  rewrite IH.
  change (blank_separated (l :: l' :: rest))
    with (l :: [] :: blank_separated (l' :: rest)).
  remember (blank_separated (l' :: rest)) as X eqn:E.
  destruct X as [|x xs]; [|reflexivity].
  destruct rest; discriminate.
Qed.

Lemma blank_separated_nonblank (ls : list str) :
  filter nonblank (map strip (blank_separated ls)) = filter nonblank (map strip ls).
Proof.
  induction ls as [|l rest IH]; [reflexivity|].
  destruct rest as [|l' rest]; [reflexivity|].
  cbn [blank_separated map filter] in *. rewrite IH.
  change (nonblank (strip [])) with false. reflexivity.
Qed.

Lemma blank_separated_single_lines (ls : list str) :
  Forall single_line ls -> Forall single_line (blank_separated ls).
Proof.
  induction 1 as [|l rest Hl Hrest IH]; [constructor|].
  destruct rest as [|l' rest]; [now constructor|].
  cbn [blank_separated]. constructor; [exact Hl|].
  constructor; [intros [] | exact IH].
Qed.

(** The entries of lines joined with a blank line between them. *)
Lemma entries_join_blank (ls : list str) :
  Forall single_line ls ->
  entries (split_nl (join [NL; NL] ls)) = entries ls.
Proof.
  intros H. destruct ls as [|l rest]; [reflexivity|].
  rewrite join_blank_separated, PyFacts.split_nl_join.
  - rewrite <- ParserFacts.entries_nonblank, blank_separated_nonblank.
    apply ParserFacts.entries_nonblank.
  - destruct rest; discriminate.
  - now apply blank_separated_single_lines.
Qed.

End MoreParserFacts.

(** * Further properties of the parser, the reassembly and the prompt *)

Import MoreParserFacts.

Lemma filter_permutation (A : Type) (f : A -> bool) (l l' : list A) :
  Permutation l l' -> Permutation (filter f l) (filter f l').
Proof.
  induction 1 as [|x l l' _ IH|x y l|l l' l'' _ IH1 _ IH2]; cbn [filter].
  - constructor.
  - destruct (f x); [now constructor | exact IH].
  - destruct (f x), (f y); try reflexivity. apply perm_swap.
  - now transitivity (filter f l').
Qed.

Lemma kept_sorted_length (n : nat) (ts : list (N * str)) :
  length (kept n (sort_by_key fst ts))
  = length (filter (fun e => in_range n (fst e)) ts).
Proof.
  unfold kept. rewrite length_map. apply Permutation_length.
  apply filter_permutation, sort_by_key_perm.
Qed.

(** The two variants, from the entries of the response. *)
Lemma both_variants (data : list item) (response_text : str) :
  MainCode.parse_translations response_text = Ok (entries (split_nl response_text))
  /\ snd (MainCode.process_entire_json data response_text)
     = Ok (kept (length data) (sort_by_key fst (entries (split_nl response_text)))
             ++ map placeholder
                  (skipn (length (kept (length data)
                                    (sort_by_key fst (entries (split_nl response_text)))))
                         data))
  /\ snd (StreamlitApp.process_json data response_text)
     = snd (MainCode.process_entire_json data response_text).
Proof.
  split; [apply parse_translations_entries|].
  rewrite process_json_eq, process_entire_json_eq. split; reflexivity.
Qed.

(** X1: whenever the parser returns its entries (no marker is over the
    limit of [int()]), neither variant raises afterwards, and the output is
    never shorter than the input: its length is the larger of the number of
    input items and the number of parsed entries whose ordinal is in
    range. *)
Theorem output_covers_input
        (data : list item) (response_text : str) (translations : list (N * str)) :
  MainCodeLimit.parse_translations response_text = Ok translations ->
  exists output_data,
    snd (MainCodeLimit.process_entire_json data response_text) = Ok output_data
    /\ snd (StreamlitAppLimit.process_json data response_text) = Ok output_data
    /\ length data <= length output_data
    /\ length output_data
       = Nat.max (length data)
           (length (filter (fun e => in_range (length data) (fst e)) translations)).
Proof.
  intros P. destruct (parse_limit_ok _ P) as [W E]. subst translations.
  exists (reassembled data response_text).
  rewrite process_json_limit_eq, process_entire_json_limit_eq, W. cbn [snd].
  split; [reflexivity|]. split; [reflexivity|].
  unfold reassembled.
  rewrite length_app, length_map, length_skipn, kept_sorted_length. lia.
Qed.

Lemma output_covers_input_witness :
  MainCodeLimit.parse_translations (lit "[1] a
[1] b") = Ok [(1%N, lit "a"); (1%N, lit "b")]
  /\ exists output_data,
       snd (MainCodeLimit.process_entire_json [{| text := lit "Hello" |}] (lit "[1] a
[1] b")) = Ok output_data
       /\ snd (StreamlitAppLimit.process_json [{| text := lit "Hello" |}] (lit "[1] a
[1] b")) = Ok output_data
       /\ length output_data = 2.
Proof.
  assert (P : MainCodeLimit.parse_translations (lit "[1] a
[1] b") = Ok [(1%N, lit "a"); (1%N, lit "b")]) by (vm_compute; reflexivity).
  split; [exact P|].
  destruct (@output_covers_input [{| text := lit "Hello" |}] _ _ P)
    as (out & M & S & _ & L).
  exists out. split; [exact M|]. split; [exact S | exact L].
Defined.

(** X2: when the ordinals of the parsed entries are pairwise distinct, the
    output has exactly as many items as the input. *)
Theorem distinct_ordinals_exact_length
        (data : list item) (response_text : str) (translations : list (N * str)) :
  MainCode.parse_translations response_text = Ok translations ->
  NoDup (map fst translations) ->
  exists output_data,
    snd (MainCode.process_entire_json data response_text) = Ok output_data
    /\ snd (StreamlitApp.process_json data response_text) = Ok output_data
    /\ length output_data = length data.
Proof.
  intros P ND. destruct (both_variants data response_text) as (P' & M & S).
  rewrite P' in P. inversion P as [E]. clear P.
  eexists. split; [exact M|]. split; [now rewrite S, M|].
  rewrite length_app, length_map, length_skipn.
  assert (length (kept (length data) (sort_by_key fst (entries (split_nl response_text))))
          <= length data); [|lia].
  apply kept_length_NoDup.
  apply (Permutation_NoDup (l := map fst translations)); [|exact ND].
  subst translations. apply Permutation_map, Permutation_sym, sort_by_key_perm.
Qed.

Lemma distinct_ordinals_exact_length_witness :
  (MainCode.parse_translations (lit "[2] do
[9] nau") = Ok [(2%N, lit "do"); (9%N, lit "nau")]
   /\ NoDup (map fst [(2%N, lit "do"); (9%N, lit "nau")]))
  /\ exists output_data,
       snd (MainCode.process_entire_json
              [{| text := lit "one" |}; {| text := lit "two" |}; {| text := lit "three" |}]
              (lit "[2] do
[9] nau")) = Ok output_data
       /\ snd (StreamlitApp.process_json
                 [{| text := lit "one" |}; {| text := lit "two" |}; {| text := lit "three" |}]
                 (lit "[2] do
[9] nau")) = Ok output_data
       /\ length output_data = 3.
Proof.
  assert (P : MainCode.parse_translations (lit "[2] do
[9] nau") = Ok [(2%N, lit "do"); (9%N, lit "nau")]) by (vm_compute; reflexivity).
  assert (ND : NoDup (map fst [(2%N, lit "do"); (9%N, lit "nau")])).
  { repeat constructor; cbn; intuition discriminate. }
  split; [split; [exact P | exact ND]|].
  exact (@distinct_ordinals_exact_length
           [{| text := lit "one" |}; {| text := lit "two" |}; {| text := lit "three" |}]
           _ _ P ND).
Defined.

(** X3: the result depends on the lines of the response through their
    trimmed, non-empty form only: white space around the response or
    around a line, and empty lines, change nothing. *)
Theorem same_lines_same_result (data : list item) (r1 r2 : str) :
  nonblank_lines r1 = nonblank_lines r2 ->
  MainCode.process_entire_json data r1 = MainCode.process_entire_json data r2
  /\ StreamlitApp.process_json data r1 = StreamlitApp.process_json data r2.
Proof.
  intros E.
  assert (En : entries (split_nl r1) = entries (split_nl r2)).
  { rewrite <- (entries_nonblank (split_nl r1)), <- (entries_nonblank (split_nl r2)).
    exact (f_equal entries E). }
  rewrite !process_json_eq, !process_entire_json_eq, En. split; reflexivity.
Qed.

Lemma same_lines_same_result_witness :
  nonblank_lines (lit "

   [1] namaste   

      duniya
  ") = nonblank_lines (lit "[1] namaste
duniya")
  /\ MainCode.process_entire_json [{| text := lit "Hello" |}] (lit "

   [1] namaste   

      duniya
  ")
     = MainCode.process_entire_json [{| text := lit "Hello" |}] (lit "[1] namaste
duniya").
Proof.
  assert (E : nonblank_lines (lit "

   [1] namaste   

      duniya
  ") = nonblank_lines (lit "[1] namaste
duniya")) by (vm_compute; reflexivity).
  split; [exact E|].
  exact (proj1 (@same_lines_same_result [{| text := lit "Hello" |}] _ _ E)).
Defined.

(** X4: every text of an output that either variant returns is trimmed,
    the parsed ones and the placeholders alike. *)
Theorem output_texts_trimmed
        (data : list item) (response_text : str) (output_data : list item) :
  snd (MainCodeLimit.process_entire_json data response_text) = Ok output_data
  \/ snd (StreamlitAppLimit.process_json data response_text) = Ok output_data ->
  Forall (fun o => trimmed (text o)) output_data.
Proof.
  intros H.
  assert (M : snd (MainCodeLimit.process_entire_json data response_text)
              = Ok output_data).
  { destruct H as [H|H]; [exact H|]. now rewrite process_json_limit_eq in H. }
  destruct (process_limit_ok _ _ M) as [_ E]. subst output_data.
  unfold reassembled. apply Forall_app. split.
  - apply kept_Forall with (P := trimmed).
    apply (Permutation_Forall
             (Permutation_sym (sort_by_key_perm fst (entries (split_nl response_text))))).
    eapply Forall_impl; [|exact (entries_texts (split_nl_single_lines response_text))].
    intros e [_ T]. exact T.
  - rewrite Forall_map. rewrite Forall_forall. intros d _. apply placeholder_trimmed.
Qed.

Lemma output_texts_trimmed_witness :
  (snd (MainCodeLimit.process_entire_json
          [{| text := lit " one " |}; {| text := lit "two" |}] (lit "[1]   ek  "))
   = Ok [{| text := lit "ek" |}; {| text := lit "[Translation missing for: two]" |}]
   \/ snd (StreamlitAppLimit.process_json
             [{| text := lit " one " |}; {| text := lit "two" |}] (lit "[1]   ek  "))
      = Ok [{| text := lit "ek" |}; {| text := lit "[Translation missing for: two]" |}])
  /\ Forall (fun o => trimmed (text o))
       [{| text := lit "ek" |}; {| text := lit "[Translation missing for: two]" |}].
Proof.
  assert (M : snd (MainCodeLimit.process_entire_json
                     [{| text := lit " one " |}; {| text := lit "two" |}]
                     (lit "[1]   ek  "))
              = Ok [{| text := lit "ek" |};
                    {| text := lit "[Translation missing for: two]" |}])
    by (vm_compute; reflexivity).
  split; [left; exact M|].
  exact (@output_texts_trimmed _ _ _ (or_introl M)).
Defined.

(** X5: the parser raises in one case only.  When every marker of the
    response has at most 4300 digits, both parsers return their entries, and
    every text they return is on one line (it holds no line feed) and
    trimmed; when some marker has more digits, [int()] refuses it and both
    parsers, and so both variants, raise [ValueError]. *)
Theorem translations_on_one_line (response_text : str) :
  (within_limit response_text = true ->
   exists translations,
     MainCodeLimit.parse_translations response_text = Ok translations
     /\ StreamlitAppLimit.parse_translations response_text = Ok translations
     /\ Forall (fun e => single_line (snd e) /\ trimmed (snd e)) translations)
  /\ (within_limit response_text = false ->
      MainCodeLimit.parse_translations response_text = Raise ValueError
      /\ StreamlitAppLimit.parse_translations response_text = Raise ValueError
      /\ forall data,
           MainCodeLimit.process_entire_json data response_text = ([], Raise ValueError)
           /\ StreamlitAppLimit.process_json data response_text = ([], Raise ValueError)).
Proof.
  pose proof (parse_translations_entries_limit response_text) as P.
  pose proof (eq_trans (parse_translations_limit_agree response_text) P) as S.
  split; intros W; rewrite W in P, S.
  - exists (entries (split_nl response_text)).
    split; [exact P|]. split; [exact S|].
    apply entries_texts, split_nl_single_lines.
  - split; [exact P|]. split; [exact S|]. intros data.
    now rewrite process_json_limit, process_entire_json_limit, W.
Qed.

Lemma translations_on_one_line_witness :
  (within_limit (lit "[1] ek
  do") = true
   /\ within_limit (lit "[1] ek
[" ++ repeat 49%N 4301 ++ lit "] do") = false)
  /\ (exists translations,
        MainCodeLimit.parse_translations (lit "[1] ek
  do") = Ok translations
        /\ Forall (fun e => single_line (snd e) /\ trimmed (snd e)) translations)
  /\ MainCodeLimit.parse_translations (lit "[1] ek
[" ++ repeat 49%N 4301 ++ lit "] do") = Raise ValueError.
Proof.
  assert (W1 : within_limit (lit "[1] ek
  do") = true) by (vm_compute; reflexivity).
  assert (W2 : within_limit (lit "[1] ek
[" ++ repeat 49%N 4301 ++ lit "] do") = false) by (vm_compute; reflexivity).
  split; [split; [exact W1 | exact W2]|]. split.
  - destruct (proj1 (translations_on_one_line (lit "[1] ek
  do")) W1) as (ts & P & _ & F).
    exists ts. split; [exact P | exact F].
  - exact (proj1 (proj2 (translations_on_one_line (lit "[1] ek
[" ++ repeat 49%N 4301 ++ lit "] do")) W2)).
Defined.

(** X6: the sort of the parsed entries keeps them all, puts the ordinals in
    ascending order, and keeps the entries of one ordinal in the order of
    the response. *)
Theorem sort_ascending_and_stable (translations : list (N * str)) :
  Permutation (sort_by_key fst translations) translations
  /\ StronglySorted (key_le fst) (sort_by_key fst translations)
  /\ forall k,
       filter (fun e => (fst e =? k)%N) (sort_by_key fst translations)
       = filter (fun e => (fst e =? k)%N) translations.
Proof.
  split; [apply sort_by_key_perm|].
  split; [apply sort_by_key_sorted|].
  intros k. apply sort_by_key_stable.
Qed.

(** X7: when the parser returns its entries, their number is the number of
    lines that match the marker pattern once trimmed; the batch variant
    prints nothing when this number is the number of input items, and one
    warning line otherwise, whatever the ordinals are; the interactive
    variant shows no message.  When the parser raises, nothing is
    printed. *)
Theorem warning_iff_marker_count (data : list item) (response_text : str) :
  (forall translations,
     MainCodeLimit.parse_translations response_text = Ok translations ->
     length translations = length (filter is_marker_line (split_nl response_text))
     /\ (length translations = length data ->
         fst (MainCodeLimit.process_entire_json data response_text) = [])
     /\ (length translations <> length data ->
         fst (MainCodeLimit.process_entire_json data response_text)
         = [lit "Warning: Expected " ++ str_of_nat (length data)
              ++ lit " translations but got " ++ str_of_nat (length translations)
              ++ lit "."])
     /\ fst (StreamlitAppLimit.process_json data response_text) = [])
  /\ (forall e,
        MainCodeLimit.parse_translations response_text = Raise e ->
        MainCodeLimit.process_entire_json data response_text = ([], Raise e)
        /\ StreamlitAppLimit.process_json data response_text = ([], Raise e)).
Proof.
  split.
  - intros ts P. destruct (parse_limit_ok _ P) as [W E]. subst ts.
    split; [apply entries_count|].
    rewrite process_json_limit_eq, process_entire_json_limit_eq, W. cbn [fst].
    unfold MainCode.verify_count.
    split; [|split; [|reflexivity]]; intros H.
    + rewrite H, Nat.eqb_refl. reflexivity.
    + apply Nat.eqb_neq in H. rewrite H. reflexivity.
  - intros e P. rewrite process_json_limit_eq.
    unfold MainCodeLimit.process_entire_json. rewrite P. split; reflexivity.
Qed.

Lemma warning_iff_marker_count_witness :
  (MainCodeLimit.parse_translations (lit "[1] ek
[7] saat") = Ok [(1%N, lit "ek"); (7%N, lit "saat")]
   /\ length [(1%N, lit "ek"); (7%N, lit "saat")]
      = length [{| text := lit "one" |}; {| text := lit "two" |}]
   /\ length [(1%N, lit "ek"); (7%N, lit "saat")]
      <> length [{| text := lit "one" |}])
  /\ fst (MainCodeLimit.process_entire_json
            [{| text := lit "one" |}; {| text := lit "two" |}] (lit "[1] ek
[7] saat")) = []
  /\ fst (MainCodeLimit.process_entire_json [{| text := lit "one" |}] (lit "[1] ek
[7] saat")) = [lit "Warning: Expected 1 translations but got 2."].
Proof.
  assert (P : MainCodeLimit.parse_translations (lit "[1] ek
[7] saat") = Ok [(1%N, lit "ek"); (7%N, lit "saat")]) by (vm_compute; reflexivity).
  assert (L : length [(1%N, lit "ek"); (7%N, lit "saat")]
              = length [{| text := lit "one" |}; {| text := lit "two" |}])
    by reflexivity.
  assert (D : length [(1%N, lit "ek"); (7%N, lit "saat")]
              <> length [{| text := lit "one" |}]) by discriminate.
  split; [split; [exact P | split; [exact L | exact D]]|]. split.
  - exact (proj1 (proj2 (proj1 (warning_iff_marker_count
             [{| text := lit "one" |}; {| text := lit "two" |}] _) _ P)) L).
  - exact (proj1 (proj2 (proj2 (proj1 (warning_iff_marker_count
             [{| text := lit "one" |}] _) _ P))) D).
Defined.

(** X8: the padding is by position: with [k] parsed entries in range, every
    position from [k] on (counted from 0) of the output holds the
    placeholder of the input item at the same position, wherever the
    missing ordinals are. *)
Theorem padding_by_position
        (data : list item) (response_text : str) (translations : list (N * str))
        (i : nat) (d : item) :
  MainCode.parse_translations response_text = Ok translations ->
  length (filter (fun e => in_range (length data) (fst e)) translations) <= i ->
  nth_error data i = Some d ->
  exists output_data,
    snd (MainCode.process_entire_json data response_text) = Ok output_data
    /\ snd (StreamlitApp.process_json data response_text) = Ok output_data
    /\ nth_error output_data i = Some (placeholder d).
Proof.
  intros P L D. destruct (both_variants data response_text) as (P' & M & S).
  rewrite P' in P. inversion P as [E]. clear P. subst translations.
  rewrite <- kept_sorted_length in L.
  eexists. split; [exact M|]. split; [now rewrite S, M|].
  rewrite nth_error_app2 by exact L.
  apply map_nth_error. rewrite nth_error_skipn.
  now replace (_ + (i - _)) with i by lia.
Qed.

Lemma padding_by_position_witness :
  (MainCode.parse_translations (lit "[1] ek
[3] teen") = Ok [(1%N, lit "ek"); (3%N, lit "teen")]
   /\ length (filter (fun e => in_range 3 (fst e)) [(1%N, lit "ek"); (3%N, lit "teen")])
      <= 2
   /\ nth_error
        [{| text := lit "one" |}; {| text := lit "two" |}; {| text := lit "three" |}] 2
      = Some {| text := lit "three" |})
  /\ exists output_data,
       snd (MainCode.process_entire_json
              [{| text := lit "one" |}; {| text := lit "two" |}; {| text := lit "three" |}]
              (lit "[1] ek
[3] teen")) = Ok output_data
       /\ snd (StreamlitApp.process_json
                 [{| text := lit "one" |}; {| text := lit "two" |}; {| text := lit "three" |}]
                 (lit "[1] ek
[3] teen")) = Ok output_data
       /\ nth_error output_data 2 = Some (placeholder {| text := lit "three" |}).
Proof.
  assert (P : MainCode.parse_translations (lit "[1] ek
[3] teen") = Ok [(1%N, lit "ek"); (3%N, lit "teen")]) by (vm_compute; reflexivity).
  assert (L : length (filter (fun e => in_range 3 (fst e))
                        [(1%N, lit "ek"); (3%N, lit "teen")]) <= 2)
    by (vm_compute; constructor).
  split; [split; [exact P | split; [exact L | reflexivity]]|].
  exact (@padding_by_position
           [{| text := lit "one" |}; {| text := lit "two" |}; {| text := lit "three" |}]
           _ _ 2 _ P L eq_refl).
Defined.

Lemma process_of_entries (data : list item) (response_text : str) (ts : list str) :
  entries (split_nl response_text) = map parsed (numbered ts) ->
  length data = length ts ->
  MainCode.process_entire_json data response_text
  = ([], Ok (map (fun t => {| text := strip t |}) ts)).
Proof.
  intros E L. rewrite process_entire_json_eq, E.
  rewrite verify_count_same by now rewrite length_map, length_numbered.
  rewrite sort_by_key_sorted_id by apply parsed_numbered_sorted.
  rewrite L, kept_parsed_numbered. cbv zeta.
  rewrite skipn_all2 by (rewrite length_map; lia).
  cbn [map]. now rewrite app_nil_r.
Qed.

(** X9: the parser reads back what the prompt builder writes: when every
    input text is on one line and the response is the block of numbered
    items of the prompt, with its blank lines, the output is the input with
    every text trimmed, and no warning is printed. *)
Theorem items_block_read_back (data : list item) :
  Forall (fun d => single_line (text d)) data ->
  MainCode.process_entire_json data (join [NL; NL] (MainCode.texts_with_indices data))
  = ([], Ok (map (fun d => {| text := strip (text d) |}) data))
  /\ StreamlitApp.process_json data
       (join [NL; NL] (StreamlitApp.texts_with_indices data))
     = ([], Ok (map (fun d => {| text := strip (text d) |}) data)).
Proof.
  intros H.
  assert (Hs : Forall single_line (map text data)) by now rewrite Forall_map.
  assert (M : MainCode.process_entire_json data
                (join [NL; NL] (map entry_line (numbered (map text data))))
              = ([], Ok (map (fun d => {| text := strip (text d) |}) data))).
  { rewrite (@process_of_entries data _ (map text data)).
    - now rewrite map_map.
    - rewrite entries_join_blank.
      + apply entries_entry_lines. now apply single_line_entries_combine.
      + rewrite Forall_map.
        eapply Forall_impl; [|exact (single_line_entries_combine _ Hs)].
        intros e. apply single_line_entry_line.
    - now rewrite length_map. }
  rewrite process_json_eq, streamlit_texts_with_indices, main_texts_with_indices, M.
  split; reflexivity.
Qed.

Lemma items_block_read_back_witness :
  Forall (fun d => single_line (text d))
         [{| text := lit " Hello" |}; {| text := lit "World " |}]
  /\ MainCode.process_entire_json
       [{| text := lit " Hello" |}; {| text := lit "World " |}]
       (join [NL; NL]
          (MainCode.texts_with_indices
             [{| text := lit " Hello" |}; {| text := lit "World " |}]))
     = ([], Ok [{| text := lit "Hello" |}; {| text := lit "World" |}]).
Proof.
  assert (H : Forall (fun d => single_line (text d))
                     [{| text := lit " Hello" |}; {| text := lit "World " |}])
    by single_lines.
  split; [exact H|].
  exact (proj1 (@items_block_read_back
                  [{| text := lit " Hello" |}; {| text := lit "World " |}] H)).
Defined.

(** X10: the prompt builder escapes nothing: an input text that holds a
    blank line followed by a numbered item gives the prompt of the input
    where this item is a text of its own. *)
Theorem prompt_escapes_nothing (a b : str) :
  MainCode.prompt [{| text := a ++ [NL; NL] ++ lit "[2] " ++ b |}]
  = MainCode.prompt [{| text := a |}; {| text := b |}]
  /\ StreamlitApp.prompt [{| text := a ++ [NL; NL] ++ lit "[2] " ++ b |}]
     = StreamlitApp.prompt [{| text := a |}; {| text := b |}].
Proof.
  rewrite !main_prompt_eq, !streamlit_prompt_eq.
  assert (E : join [NL; NL]
                (map entry_line
                   (numbered (map text [{| text := a ++ [NL; NL] ++ lit "[2] " ++ b |}])))
              = join [NL; NL]
                  (map entry_line (numbered (map text [{| text := a |}; {| text := b |}])))).
  { unfold numbered, entry_line. cbn [map text length seq combine join fst snd].
    change (str_of_nat 2) with (lit "2").
    change (lit "[2] ") with (lit "[" ++ lit "2" ++ lit "] ").
    now rewrite <- !app_assoc. }
  rewrite E. split; reflexivity.
Qed.

(** X25: the limit of [int()] is all that separates the two readings of
    the interpreter.  On a response all of whose markers have at most 4300
    digits, the parsers and the two variants under the limit return, and
    print, what they do with the limit off. *)
Theorem limit_changes_nothing_within (data : list item) (response_text : str) :
  within_limit response_text = true ->
  MainCodeLimit.parse_translations response_text
  = MainCode.parse_translations response_text
  /\ StreamlitAppLimit.parse_translations response_text
     = StreamlitApp.parse_translations response_text
  /\ MainCodeLimit.process_entire_json data response_text
     = MainCode.process_entire_json data response_text
  /\ StreamlitAppLimit.process_json data response_text
     = StreamlitApp.process_json data response_text.
Proof.
  intros W.
  pose proof (parse_translations_limit response_text) as P. rewrite W in P.
  split; [exact P|].
  split; [exact (eq_trans (parse_translations_limit_agree response_text)
                   (eq_trans P (eq_sym (parse_translations_agree response_text))))|].
  now rewrite process_entire_json_limit, process_json_limit, W.
Qed.

Lemma limit_changes_nothing_within_witness :
  within_limit (lit "[2] do
[" ++ repeat 48%N 4299 ++ lit "1] ek") = true
  /\ MainCodeLimit.process_entire_json
       [{| text := lit "one" |}; {| text := lit "two" |}] (lit "[2] do
[" ++ repeat 48%N 4299 ++ lit "1] ek")
     = ([], Ok [{| text := lit "ek" |}; {| text := lit "do" |}]).
Proof.
  assert (W : within_limit (lit "[2] do
[" ++ repeat 48%N 4299 ++ lit "1] ek") = true) by (vm_compute; reflexivity).
  split; [exact W|].
  rewrite (proj1 (proj2 (proj2 (@limit_changes_nothing_within
             [{| text := lit "one" |}; {| text := lit "two" |}] _ W)))).
  vm_compute. reflexivity.
Defined.

(** X26: under the limit of [int()], for every input of fewer than
    10^4300 items: when the response is made of the lines [[1] t1] ..
    [[N] tN] in ascending order, one entry per line, both variants return
    the N items holding t1 .. tN trimmed, and the batch variant prints no
    warning. *)
Theorem ascending_response_under_limit (data : list item) (ts : list str) :
  length data = length ts -> Forall single_line ts ->
  (N.of_nat (length ts) < 10 ^ DEFAULT_MAX_STR_DIGITS)%N ->
  MainCodeLimit.process_entire_json data (response_of (numbered ts))
  = ([], Ok (map (fun t => {| text := strip t |}) ts))
  /\ StreamlitAppLimit.process_json data (response_of (numbered ts))
     = ([], Ok (map (fun t => {| text := strip t |}) ts)).
Proof.
  intros L H B.
  rewrite process_json_limit_eq, process_entire_json_limit,
    (within_limit_numbered H B), process_numbered by assumption.
  split; reflexivity.
Qed.

Lemma ascending_response_under_limit_witness :
  (length [{| text := lit "Hello" |}; {| text := lit "World" |}]
   = length [lit "Namaste"; lit "Duniya "]
   /\ Forall single_line [lit "Namaste"; lit "Duniya "]
   /\ (N.of_nat (length [lit "Namaste"; lit "Duniya "]) < 10 ^ DEFAULT_MAX_STR_DIGITS)%N)
  /\ MainCodeLimit.process_entire_json
       [{| text := lit "Hello" |}; {| text := lit "World" |}] (lit "[1] Namaste
[2] Duniya ")
     = ([], Ok [{| text := lit "Namaste" |}; {| text := lit "Duniya" |}]).
Proof.
  assert (H : Forall single_line [lit "Namaste"; lit "Duniya "]) by single_lines.
  assert (B : (N.of_nat (length [lit "Namaste"; lit "Duniya "])
               < 10 ^ DEFAULT_MAX_STR_DIGITS)%N) by (vm_compute; reflexivity).
  split; [split; [reflexivity | split; [exact H | exact B]]|].
  exact (proj1 (@ascending_response_under_limit
                  [{| text := lit "Hello" |}; {| text := lit "World" |}]
                  [lit "Namaste"; lit "Duniya "] eq_refl H B)).
Defined.

(** * Properties of the batch program *)

Module BatchFacts.

Import Batch.

Lemma str_eqb_refl (a : str) : str_eqb a a = true.
Proof. induction a as [|x a IH]; [reflexivity|]. cbn. now rewrite N.eqb_refl. Qed.

Lemma str_eqb_eq (a b : str) : str_eqb a b = true <-> a = b.
Proof.
  split; [|intros ->; apply str_eqb_refl].
  revert b. induction a as [|x a IH]; intros [|y b] H; try discriminate; [reflexivity|].
  cbn in H. apply andb_prop in H. destruct H as [H1 H2].
  apply N.eqb_eq in H1. now rewrite H1, (IH b H2).
Qed.

Lemma str_eqb_neq (a b : str) : a <> b -> str_eqb a b = false.
Proof.
  intros H. destruct (str_eqb a b) eqn:E; [|reflexivity].
  now apply str_eqb_eq in E.
Qed.

Lemma printed_printed (w : world) (l1 l2 : list line) :
  printed (printed w l1) l2 = printed w (l1 ++ l2).
Proof. unfold printed. cbn. now rewrite app_assoc. Qed.

Lemma written_printed (w : world) (l : list line) (name : str) (data : list dict) :
  written (printed w l) name data = printed (written w name data) l.
Proof. reflexivity. Qed.

Lemma print_run (l : line) (w : world) : print l w = (printed w [l], Done tt).
Proof. reflexivity. Qed.

Lemma print_all_run (ls : list str) (w : world) :
  print_all ls w = (printed w (map Text ls), Done tt).
Proof.
  revert w. induction ls as [|l ls IH]; intros w.
  - unfold printed. cbn. rewrite app_nil_r. now destruct w.
  - cbn [print_all]. unfold io_bind. rewrite print_run, IH, printed_printed.
    reflexivity.
Qed.

Lemma texts_of_lacks (data : list dict) :
  Exists lacks_text data -> texts_of data = Failed (KeyError (lit "text")).
Proof.
  induction data as [|d data IH]; intros H; [inversion H|].
  cbn [texts_of]. unfold getitem_text.
  destruct (dict_get d (lit "text")) eqn:G; [|reflexivity].
  inversion H as [? ? L|? ? L]; subst.
  - unfold lacks_text in L. congruence.
  - now rewrite (IH L).
Qed.

Lemma texts_of_length (data : list dict) (ts : list str) :
  texts_of data = Done ts -> length ts = length data.
Proof.
  revert ts. induction data as [|d data IH]; intros ts H; cbn [texts_of] in H.
  - inversion H. reflexivity.
  - destruct (getitem_text d); [|discriminate].
    destruct (texts_of data) as [ts'|]; [|discriminate].
    inversion H. cbn. now rewrite (IH ts' eq_refl).
Qed.

Section Environment.

Variable generate_content : str -> outcome str.
Variable exception_text : exn -> str.
Variable missing_file_text : str -> str.

(** The run of [process_entire_json], case by case. *)
Lemma process_run (input_file output_file : str) (w : world) :
  process_entire_json generate_content exception_text missing_file_text
    input_file output_file w =
  match files w input_file with
  | None => (w, Failed (External (missing_file_text input_file)))
  | Some (NotJson decoder_message) => (w, Failed (External decoder_message))
  | Some (Json data) =>
      let found :=
        Text (lit "Found " ++ str_of_nat (length data) ++ lit " entries to translate.") in
      match texts_of data with
      | Failed f => (printed w [found], Failed f)
      | Done texts =>
          let items := items_of texts in
          let sending := Text (lit "Sending request to Gemini API...") in
          match generate_content (main_prompt_text items) with
          | Failed f =>
              (requested (printed w [found; sending]) (main_prompt_text items), Failed f)
          | Done response_text =>
              let got := Timed (lit "Got response from API in ") (lit " seconds.") in
              if within_limit response_text then
                let output := map dict_of_item (reassembled items response_text) in
                let warnings :=
                  map Text (MainCode.verify_count items
                              (entries (split_nl response_text))) in
                if encodable output then
                  (printed
                     (written (requested w (main_prompt_text items)) output_file output)
                     ([found; sending; got] ++ warnings
                        ++ [Text (lit "Successfully processed translations and saved to "
                                    ++ output_file)]),
                   Done output)
                else
                  (printed
                     (cut_short (requested w (main_prompt_text items)) output_file
                                (exception_text JSONDecodeError))
                     ([found; sending; got] ++ warnings),
                   Failed (External (exception_text UnicodeEncodeError)))
              else
                (printed (requested w (main_prompt_text items)) [found; sending; got],
                 Failed (External (exception_text ValueError)))
          end
      end
  end.
Proof.
  unfold process_entire_json, io_bind, load_json.
  destruct (files w input_file) as [[data|m]|]; [|reflexivity|reflexivity].
  rewrite print_run. unfold of_outcome.
  destruct (texts_of data) as [texts|f]; [|reflexivity].
  fold (items_of texts). rewrite PromptFacts.main_prompt_eq.
  fold (main_prompt_text (items_of texts)).
  unfold of_result at 1. unfold io_ret at 1. rewrite print_run.
  unfold request.
  destruct (generate_content (main_prompt_text (items_of texts))) as [r|f];
    [|now rewrite printed_printed].
  rewrite print_run, LimitFacts.process_entire_json_limit_eq. cbv zeta.
  destruct (within_limit r).
  - rewrite print_all_run. unfold of_result, io_ret, write_json.
    fold (reassembled (items_of texts) r).
    destruct (encodable (map dict_of_item (reassembled (items_of texts) r))).
    + rewrite print_run. unfold printed, written, requested. cbn.
      now rewrite <- !app_assoc.
    + unfold printed, cut_short, requested. cbn. now rewrite <- !app_assoc.
  - unfold print_all, of_result, io_ret, io_raise, printed, requested. cbn.
    now rewrite <- !app_assoc.
Qed.

(** The run of [main], case by case. *)
Lemma main_run (api_key : option str) (w : world) :
  main generate_content exception_text missing_file_text api_key w =
  if not_set api_key then
    (printed (prepared w) [Text (lit "Error: Google API key not found.")], Done tt)
  else
    match process_entire_json generate_content exception_text missing_file_text
            INPUT_FILE OUTPUT_FILE (prepared w) with
    | (w', Done _) =>
        (printed w' [Timed ([NL] ++ lit "Processing completed in ") (lit " seconds.")],
         Done tt)
    | (w', Failed f) =>
        (printed w' [Text (lit "Error occurred: " ++ message_of f)], Done tt)
    end.
Proof.
  unfold main, io_bind, path_exists, try_except. rewrite !print_run.
  cbn [files printed]. unfold prepared.
  destruct (files w INPUT_FILE) as [c|]; cbn [negb].
  - rewrite !print_run, !printed_printed. cbn [app].
    destruct (not_set api_key); [now rewrite print_run, printed_printed|].
    destruct (process_entire_json generate_content exception_text missing_file_text
                INPUT_FILE OUTPUT_FILE _) as [w' [out|f]];
      now rewrite print_run.
  - unfold create_sample_input, io_bind, write_json, io_ret.
    fold sample_data.
    assert (E : encodable sample_data = true) by (vm_compute; reflexivity).
    rewrite E, !print_run.
    change {| files := fun n => if str_eqb n INPUT_FILE then Some (Json sample_data)
                                else files ?x n;
              console := console ?x; requests := requests ?x |}
      with (written x INPUT_FILE sample_data).
    rewrite !written_printed, !printed_printed. cbn [app].
    destruct (not_set api_key); [now rewrite print_run, printed_printed|].
    destruct (process_entire_json generate_content exception_text missing_file_text
                INPUT_FILE OUTPUT_FILE _) as [w' [out|f]];
      now rewrite print_run.
Qed.

Lemma prepared_files (w : world) (name : str) :
  files (prepared w) name
  = match files w INPUT_FILE with
    | Some _ => files w name
    | None => if str_eqb name INPUT_FILE then Some (Json sample_data) else files w name
    end.
Proof. unfold prepared. destruct (files w INPUT_FILE); reflexivity. Qed.

Lemma prepared_requests (w : world) : requests (prepared w) = requests w.
Proof. unfold prepared. destruct (files w INPUT_FILE); reflexivity. Qed.

Lemma prepared_input (w : world) : files (prepared w) INPUT_FILE <> None.
Proof.
  rewrite prepared_files. destruct (files w INPUT_FILE); [discriminate|].
  rewrite str_eqb_refl. discriminate.
Qed.

(** The effects of [process_entire_json]: at most one request, and no
    file but the output file is changed. *)
Lemma process_effects (input_file output_file : str) (w : world) :
  let run := process_entire_json generate_content exception_text missing_file_text
               input_file output_file w in
  (exists rs, requests (fst run) = requests w ++ rs /\ length rs <= 1)
  /\ (forall name, name <> output_file -> files (fst run) name = files w name).
Proof.
  cbv zeta. rewrite process_run.
  destruct (files w input_file) as [[data|m]|].
  - cbv zeta. destruct (texts_of data) as [texts|f].
    + destruct (generate_content (main_prompt_text (items_of texts))) as [r|f].
      * destruct (within_limit r).
        -- destruct (encodable (map dict_of_item (reassembled (items_of texts) r)));
             (split; [eexists; split; [reflexivity | cbn; lia]|]);
             intros name H; cbn; now rewrite str_eqb_neq.
        -- split; [eexists; split; [reflexivity | cbn; lia] | reflexivity].
      * split; [eexists; split; [reflexivity | cbn; lia] | reflexivity].
    + split; [exists []; split; [cbn; now rewrite app_nil_r | cbn; lia] | reflexivity].
  - split; [exists []; split; [cbn; now rewrite app_nil_r | cbn; lia] | reflexivity].
  - split; [exists []; split; [cbn; now rewrite app_nil_r | cbn; lia] | reflexivity].
Qed.

(** An output with a text that cannot be encoded. *)
Lemma encodable_items (output_data : list item) :
  encodable (map dict_of_item output_data)
  = forallb (fun o => utf8_encodable (text o)) output_data.
Proof.
  unfold encodable. induction output_data as [|o out IH]; [reflexivity|].
  cbn [map forallb]. rewrite IH. unfold dict_of_item at 1. cbn [forallb fst snd].
  change (utf8_encodable (lit "text")) with true. cbn [andb].
  now rewrite andb_true_r.
Qed.

Lemma not_encodable_items (output_data : list item) :
  Exists (fun o => utf8_encodable (text o) = false) output_data ->
  encodable (map dict_of_item output_data) = false.
Proof.
  intros H. rewrite encodable_items.
  induction H as [o out H|o out _ IH]; cbn [forallb].
  - now rewrite H.
  - rewrite IH. apply andb_false_r.
Qed.

Lemma prepared_existing (w : world) (c : content) (name : str) :
  files w INPUT_FILE = Some c -> files (prepared w) name = files w name.
Proof. intros F. now rewrite prepared_files, F. Qed.

Lemma prepared_present (w : world) :
  files w INPUT_FILE <> None -> forall name, files (prepared w) name = files w name.
Proof.
  intros F name. rewrite prepared_files. now destruct (files w INPUT_FILE).
Qed.


(** X11: with no API key, or an empty one, [main] sends no request and
    leaves the output file as it is.  When the input file exists, nothing
    is raised, no file is changed, and the last line printed says that the
    key was not found. *)
Theorem main_without_key (api_key : option str) (w : world) :
  not_set api_key = true ->
  let after := main generate_content exception_text missing_file_text api_key w in
  requests (fst after) = requests w
  /\ files (fst after) OUTPUT_FILE = files w OUTPUT_FILE
  /\ (files w INPUT_FILE <> None ->
      snd after = Done tt
      /\ (forall name, files (fst after) name = files w name)
      /\ exists before,
           console (fst after)
           = before ++ [Text (lit "Error: Google API key not found.")]).
Proof.
  intros K. cbv zeta. rewrite main_run, K. cbn [fst snd].
  split; [exact (prepared_requests w)|].
  split.
  - change (files (prepared w) OUTPUT_FILE = files w OUTPUT_FILE).
    rewrite prepared_files. now destruct (files w INPUT_FILE).
  - intros F. split; [reflexivity|].
    split; [exact (prepared_present w F) | eexists; reflexivity].
Qed.

(** X12: [main] never changes a file other than the output file, but for
    the input file when it does not exist: it then holds the four sample
    objects. *)
Theorem main_touches_output_only (api_key : option str) (w : world) (name : str) :
  name <> OUTPUT_FILE ->
  let after := main generate_content exception_text missing_file_text api_key w in
  files (fst after) name
  = match files w INPUT_FILE with
    | Some _ => files w name
    | None => if str_eqb name INPUT_FILE then Some (Json sample_data) else files w name
    end.
Proof.
  intros H. cbv zeta. rewrite main_run, <- prepared_files.
  destruct (not_set api_key); [reflexivity|].
  destruct (process_effects INPUT_FILE OUTPUT_FILE (prepared w)) as (_ & F).
  cbv zeta in F. specialize (F name H).
  destruct (process_entire_json generate_content exception_text missing_file_text
              INPUT_FILE OUTPUT_FILE (prepared w)) as [w' [out|f]]; exact F.
Qed.

(** X13: [main] sends at most one request, whatever the files hold and
    whatever the API does; and when the input file exists, it lets no
    exception out: every failure of the processing is caught and
    printed. *)
Theorem main_one_request_at_most (api_key : option str) (w : world) :
  let after := main generate_content exception_text missing_file_text api_key w in
  (exists rs, requests (fst after) = requests w ++ rs /\ length rs <= 1)
  /\ (files w INPUT_FILE <> None -> snd after = Done tt).
Proof.
  cbv zeta. rewrite main_run.
  destruct (not_set api_key).
  - split; [|reflexivity]. exists []. cbn [fst].
    change (requests (printed (prepared w) _)) with (requests (prepared w)).
    rewrite prepared_requests, app_nil_r. split; [reflexivity | cbn; lia].
  - destruct (process_effects INPUT_FILE OUTPUT_FILE (prepared w)) as (R & _).
    cbv zeta in R. rewrite prepared_requests in R.
    destruct (process_entire_json generate_content exception_text missing_file_text
                INPUT_FILE OUTPUT_FILE (prepared w)) as [w' [out|f]];
      (split; [exact R | reflexivity]).
Qed.

(** X14: the failures that come before the writing leave every file as it
    was.  With a key and an input file whose objects all have the key
    [text], when the API call fails, or when the response holds a marker of
    more than 4300 digits (which [int()] refuses), [main] has sent the one
    request, has changed no file, and its last line shows the error. *)
Theorem main_failure_keeps_files (api_key : option str) (w : world) (data : list dict)
        (texts : list str) (prompt : str) :
  not_set api_key = false ->
  files w INPUT_FILE = Some (Json data) ->
  texts_of data = Done texts ->
  MainCode.prompt (items_of texts) = Ok prompt ->
  let after := main generate_content exception_text missing_file_text api_key w in
  (forall f,
     generate_content prompt = Failed f ->
     snd after = Done tt
     /\ (forall name, files (fst after) name = files w name)
     /\ requests (fst after) = requests w ++ [prompt]
     /\ exists before,
          console (fst after)
          = before ++ [Text (lit "Error occurred: " ++ message_of f)])
  /\ (forall response_text,
        generate_content prompt = Done response_text ->
        within_limit response_text = false ->
        snd after = Done tt
        /\ (forall name, files (fst after) name = files w name)
        /\ requests (fst after) = requests w ++ [prompt]
        /\ exists before,
             console (fst after)
             = before ++ [Text (lit "Error occurred: " ++ exception_text ValueError)]).
Proof.
  intros K F T P. cbv zeta.
  pose proof (PromptFacts.main_prompt_eq (items_of texts)) as Q.
  rewrite P in Q. fold (main_prompt_text (items_of texts)) in Q.
  injection Q as E. subst prompt. clear P.
  rewrite main_run, K, process_run, (prepared_existing w INPUT_FILE F), F, T.
  cbv zeta. split.
  - intros f G. rewrite G. cbn [fst snd files console requests printed requested].
    split; [reflexivity|].
    split; [intros name; exact (prepared_existing w name F)|].
    split; [now rewrite prepared_requests | eexists; reflexivity].
  - intros r G W. rewrite G, W.
    cbn [fst snd files console requests printed requested].
    split; [reflexivity|].
    split; [intros name; exact (prepared_existing w name F)|].
    split; [now rewrite prepared_requests | eexists; reflexivity].
Qed.


(** X24: an output that holds a surrogate is never delivered.  With a key,
    an input file whose objects all have the key [text], an API that
    answers and a parser that returns, when a text of the output holds a
    surrogate (it can come from an input text, through a placeholder), the
    dump fails: the error is caught and printed, the run does not reach
    its completion line, and the output file either is as it was or, the
    dump having started, holds the beginning of a text that is not JSON.
    No other file is changed. *)
Theorem main_partial_output (api_key : option str) (w : world) (data : list dict)
        (texts : list str) (prompt response_text : str) (output_data : list item) :
  not_set api_key = false ->
  files w INPUT_FILE = Some (Json data) ->
  texts_of data = Done texts ->
  MainCode.prompt (items_of texts) = Ok prompt ->
  generate_content prompt = Done response_text ->
  snd (MainCodeLimit.process_entire_json (items_of texts) response_text)
  = Ok output_data ->
  Exists (fun o => utf8_encodable (text o) = false) output_data ->
  let after := main generate_content exception_text missing_file_text api_key w in
  snd after = Done tt
  /\ (files (fst after) OUTPUT_FILE = files w OUTPUT_FILE
      \/ exists decoder_message,
           files (fst after) OUTPUT_FILE = Some (NotJson decoder_message))
  /\ files (fst after) OUTPUT_FILE <> Some (Json (map dict_of_item output_data))
  /\ (forall name, name <> OUTPUT_FILE -> files (fst after) name = files w name)
  /\ requests (fst after) = requests w ++ [prompt]
  /\ exists before message,
       console (fst after) = before ++ [Text (lit "Error occurred: " ++ message)].
Proof.
  intros K F T P G O S. cbv zeta.
  pose proof (PromptFacts.main_prompt_eq (items_of texts)) as Q.
  rewrite P in Q. fold (main_prompt_text (items_of texts)) in Q.
  injection Q as E. subst prompt. clear P.
  destruct (LimitFacts.process_limit_ok _ _ O) as [W E]. subst output_data.
  rewrite main_run, K, process_run, (prepared_existing w INPUT_FILE F), F, T.
  cbv zeta. rewrite G, W, (not_encodable_items S).
  cbn [fst snd files console requests printed cut_short requested].
  rewrite str_eqb_refl.
  split; [reflexivity|].
  split; [right; eexists; reflexivity|].
  split; [discriminate|].
  split.
  - intros name H. rewrite (str_eqb_neq H). exact (prepared_existing w name F).
  - split; [now rewrite prepared_requests | eexists; eexists; reflexivity].
Qed.

(** X16: when an object of the input file has no key [text], [main] sends
    no request, leaves the output file as it is, and its last line shows
    the key between quotes as the error. *)
Theorem main_missing_text_key (api_key : option str) (w : world) (data : list dict) :
  not_set api_key = false ->
  files w INPUT_FILE = Some (Json data) ->
  Exists lacks_text data ->
  let after := main generate_content exception_text missing_file_text api_key w in
  requests (fst after) = requests w
  /\ files (fst after) OUTPUT_FILE = files w OUTPUT_FILE
  /\ exists before,
       console (fst after) = before ++ [Text (lit "Error occurred: 'text'")].
Proof.
  intros K F L. cbv zeta.
  rewrite main_run, K, process_run, (prepared_existing w INPUT_FILE F), F.
  cbv zeta. rewrite (texts_of_lacks L).
  cbn [fst files console requests printed written requested].
  split; [now rewrite prepared_requests|].
  split; [now rewrite (prepared_existing w OUTPUT_FILE F)|].
  eexists. reflexivity.
Qed.

End Environment.

Lemma main_without_key_witness :
  (not_set (Some []) = true
   /\ files (input_only [[(lit "text", lit "Hello")]]) INPUT_FILE <> None)
  /\ requests (fst (main (fun _ => Done (lit "[1] ek")) (fun _ => []) (fun _ => [])
                     (Some []) (input_only [[(lit "text", lit "Hello")]]))) = []
  /\ snd (main (fun _ => Done (lit "[1] ek")) (fun _ => []) (fun _ => [])
            (Some []) (input_only [[(lit "text", lit "Hello")]])) = Done tt.
Proof.
  assert (F : files (input_only [[(lit "text", lit "Hello")]]) INPUT_FILE <> None)
    by discriminate.
  split; [split; [reflexivity | exact F]|].
  destruct (@main_without_key (fun _ => Done (lit "[1] ek")) (fun _ => []) (fun _ => [])
              (Some []) (input_only [[(lit "text", lit "Hello")]]) eq_refl)
    as (R & _ & D).
  split; [exact R | exact (proj1 (D F))].
Defined.

Lemma main_touches_output_only_witness :
  lit "notes.txt" <> OUTPUT_FILE
  /\ files (fst (main (fun _ => Done (lit "[1] ek")) (fun _ => []) (fun _ => [])
                   (Some (lit "key")) no_file)) (lit "notes.txt") = None.
Proof.
  assert (H : lit "notes.txt" <> OUTPUT_FILE) by discriminate.
  split; [exact H|].
  exact (@main_touches_output_only (fun _ => Done (lit "[1] ek"))
           (fun _ => []) (fun _ => []) (Some (lit "key")) no_file (lit "notes.txt") H).
Defined.

Lemma main_one_request_at_most_witness :
  files (input_only [[(lit "text", lit "Hello")]]) INPUT_FILE <> None
  /\ snd (main (fun _ => Failed (External (lit "quota exceeded"))) (fun _ => [])
            (fun _ => []) (Some (lit "key")) (input_only [[(lit "text", lit "Hello")]]))
     = Done tt.
Proof.
  assert (F : files (input_only [[(lit "text", lit "Hello")]]) INPUT_FILE <> None)
    by discriminate.
  split; [exact F|].
  exact (proj2 (@main_one_request_at_most
                  (fun _ => Failed (External (lit "quota exceeded"))) (fun _ => [])
                  (fun _ => []) (Some (lit "key"))
                  (input_only [[(lit "text", lit "Hello")]])) F).
Defined.

Lemma main_failure_keeps_files_witness :
  (not_set (Some (lit "key")) = false
   /\ files (input_only [[(lit "text", lit "Hello")]]) INPUT_FILE
      = Some (Json [[(lit "text", lit "Hello")]])
   /\ texts_of [[(lit "text", lit "Hello")]] = Done [lit "Hello"]
   /\ MainCode.prompt (items_of [lit "Hello"])
      = Ok (main_prompt_text (items_of [lit "Hello"]))
   /\ within_limit (lit "[" ++ repeat 49%N 4301 ++ lit "] Namaste") = false)
  /\ files (fst (main (fun _ => Done (lit "[" ++ repeat 49%N 4301 ++ lit "] Namaste"))
                   (fun _ => lit "Exceeds the limit (4300 digits) for integer string conversion: value has 4301 digits; use sys.set_int_max_str_digits() to increase the limit")
                   (fun _ => []) (Some (lit "key"))
                   (input_only [[(lit "text", lit "Hello")]])))
           OUTPUT_FILE
     = None
  /\ exists before,
       console (fst (main (fun _ => Done (lit "[" ++ repeat 49%N 4301 ++ lit "] Namaste"))
                       (fun _ => lit "Exceeds the limit (4300 digits) for integer string conversion: value has 4301 digits; use sys.set_int_max_str_digits() to increase the limit")
                       (fun _ => []) (Some (lit "key"))
                       (input_only [[(lit "text", lit "Hello")]])))
       = before
           ++ [Text (lit "Error occurred: Exceeds the limit (4300 digits) for integer string conversion: value has 4301 digits; use sys.set_int_max_str_digits() to increase the limit")].
Proof.
  assert (P : MainCode.prompt (items_of [lit "Hello"])
              = Ok (main_prompt_text (items_of [lit "Hello"])))
    by apply PromptFacts.main_prompt_eq.
  assert (W : within_limit (lit "[" ++ repeat 49%N 4301 ++ lit "] Namaste") = false)
    by (vm_compute; reflexivity).
  split; [split; [reflexivity | split; [reflexivity | split; [reflexivity
            | split; [exact P | exact W]]]]|].
  destruct (proj2 (@main_failure_keeps_files
                     (fun _ => Done (lit "[" ++ repeat 49%N 4301 ++ lit "] Namaste"))
                     (fun _ => lit "Exceeds the limit (4300 digits) for integer string conversion: value has 4301 digits; use sys.set_int_max_str_digits() to increase the limit")
                     (fun _ => []) (Some (lit "key"))
                     (input_only [[(lit "text", lit "Hello")]])
                     [[(lit "text", lit "Hello")]] [lit "Hello"] _ eq_refl eq_refl eq_refl P)
                  _ eq_refl W) as (_ & F & _ & C).
  split; [exact (F OUTPUT_FILE) | exact C].
Defined.


Lemma main_partial_output_witness :
  (not_set (Some (lit "key")) = false
   /\ files (input_only [[(lit "text", [97%N; 55296%N])]]) INPUT_FILE
      = Some (Json [[(lit "text", [97%N; 55296%N])]])
   /\ texts_of [[(lit "text", [97%N; 55296%N])]] = Done [[97%N; 55296%N]]
   /\ MainCode.prompt (items_of [[97%N; 55296%N]])
      = Ok (main_prompt_text (items_of [[97%N; 55296%N]]))
   /\ snd (MainCodeLimit.process_entire_json (items_of [[97%N; 55296%N]]) (lit "Sorry."))
      = Ok [{| text := lit "[Translation missing for: " ++ [97%N; 55296%N] ++ lit "]" |}]
   /\ Exists (fun o => utf8_encodable (text o) = false)
        [{| text := lit "[Translation missing for: " ++ [97%N; 55296%N] ++ lit "]" |}])
  /\ files (fst (main (fun _ => Done (lit "Sorry.")) (fun _ => []) (fun _ => [])
                   (Some (lit "key")) (input_only [[(lit "text", [97%N; 55296%N])]])))
           OUTPUT_FILE
     <> Some (Json (map dict_of_item
                      [{| text := lit "[Translation missing for: " ++ [97%N; 55296%N]
                                    ++ lit "]" |}])).
Proof.
  assert (P : MainCode.prompt (items_of [[97%N; 55296%N]])
              = Ok (main_prompt_text (items_of [[97%N; 55296%N]])))
    by apply PromptFacts.main_prompt_eq.
  assert (O : snd (MainCodeLimit.process_entire_json (items_of [[97%N; 55296%N]])
                     (lit "Sorry."))
              = Ok [{| text := lit "[Translation missing for: " ++ [97%N; 55296%N]
                                 ++ lit "]" |}]) by (vm_compute; reflexivity).
  assert (S : Exists (fun o => utf8_encodable (text o) = false)
                [{| text := lit "[Translation missing for: " ++ [97%N; 55296%N]
                              ++ lit "]" |}])
    by (apply Exists_cons_hd; vm_compute; reflexivity).
  split; [split; [reflexivity | split; [reflexivity | split; [reflexivity
            | split; [exact P | split; [exact O | exact S]]]]]|].
  exact (proj1 (proj2 (proj2
           (@main_partial_output (fun _ => Done (lit "Sorry.")) (fun _ => []) (fun _ => [])
              (Some (lit "key")) (input_only [[(lit "text", [97%N; 55296%N])]])
              [[(lit "text", [97%N; 55296%N])]] [[97%N; 55296%N]] _ (lit "Sorry.") _
              eq_refl eq_refl eq_refl P eq_refl O S)))).
Defined.

Lemma main_missing_text_key_witness :
  (not_set (Some (lit "key")) = false
   /\ files (input_only [[(lit "text", lit "Hello")]; [(lit "txt", lit "World")]])
            INPUT_FILE
      = Some (Json [[(lit "text", lit "Hello")]; [(lit "txt", lit "World")]])
   /\ Exists lacks_text [[(lit "text", lit "Hello")]; [(lit "txt", lit "World")]])
  /\ requests (fst (main (fun _ => Done (lit "[1] Namaste")) (fun _ => []) (fun _ => [])
                     (Some (lit "key"))
                     (input_only [[(lit "text", lit "Hello")]; [(lit "txt", lit "World")]])))
     = [].
Proof.
  assert (L : Exists lacks_text [[(lit "text", lit "Hello")]; [(lit "txt", lit "World")]])
    by (apply Exists_cons_tl, Exists_cons_hd; reflexivity).
  split; [repeat split; try reflexivity; exact L|].
  exact (proj1 (@main_missing_text_key (fun _ => Done (lit "[1] Namaste"))
                  (fun _ => []) (fun _ => []) (Some (lit "key"))
                  (input_only [[(lit "text", lit "Hello")]; [(lit "txt", lit "World")]])
                  _ eq_refl eq_refl L)).
Defined.

End BatchFacts.

(** * Properties of the interactive program *)

Module InteractiveFacts.

Import Interactive.

Lemma texts_of_items (output_data : list item) :
  texts_of (map dict_of_item output_data) = Done (map text output_data).
Proof.
  induction output_data as [|o out IH]; [reflexivity|].
  cbn [map texts_of]. rewrite IH. reflexivity.
Qed.

Lemma texts_of_getitem (data : list dict) (texts : list str) (i : nat) (d : dict) :
  texts_of data = Done texts -> nth_error data i = Some d ->
  exists t, nth_error texts i = Some t /\ getitem_text d = Done t.
Proof.
  revert texts i. induction data as [|x data IH]; intros texts i T D.
  - destruct i; discriminate.
  - cbn [texts_of] in T. destruct (getitem_text x) as [t|] eqn:G; [|discriminate].
    destruct (texts_of data) as [ts|]; [|discriminate].
    inversion T; subst. destruct i as [|i]; cbn [nth_error] in *.
    + inversion D; subst. now exists t.
    + now apply IH.
Qed.

(** The table pairs the texts by position and stops at the shorter
    list. *)
Lemma comparison_rows_texts (i : nat) (inp out : list dict) (ts us : list str) :
  texts_of inp = Done ts -> texts_of out = Done us ->
  comparison_rows i (combine inp out) = Done (rows_from i (combine ts us)).
Proof.
  revert i out ts us. induction inp as [|x inp IH]; intros i out ts us T U.
  - inversion T. reflexivity.
  - cbn [texts_of] in T. destruct (getitem_text x) as [t|] eqn:G; [|discriminate].
    destruct (texts_of inp) as [ts'|] eqn:T'; [|discriminate].
    inversion T; subst. destruct out as [|y out].
    + inversion U. reflexivity.
    + cbn [texts_of] in U. destruct (getitem_text y) as [u|] eqn:G'; [|discriminate].
      destruct (texts_of out) as [us'|] eqn:U'; [|discriminate].
      inversion U; subst. cbn [combine comparison_rows rows_from].
      rewrite G, G', (IH (S i) out ts' us' eq_refl U'). reflexivity.
Qed.

Lemma rows_from_length (i : nat) (pairs : list (str * str)) :
  length (rows_from i pairs) = length pairs.
Proof.
  revert i. induction pairs as [|[t u] pairs IH]; intros i; [reflexivity|].
  cbn. now rewrite IH.
Qed.

Lemma rows_from_nth (i k : nat) (pairs : list (str * str)) (t u : str) :
  nth_error pairs k = Some (t, u) ->
  nth_error (rows_from i pairs) k = Some (i + k + 1, t, u).
Proof.
  revert i k. induction pairs as [|[t' u'] pairs IH]; intros i k H.
  - destruct k; discriminate.
  - destruct k as [|k]; cbn [nth_error rows_from] in *.
    + inversion H; subst. now rewrite Nat.add_0_r.
    + rewrite (IH (S i) k H). do 3 f_equal. lia.
Qed.

Lemma nth_error_combine (A B : Type) (l : list A) (l' : list B) (k : nat) (a : A) (b : B) :
  nth_error l k = Some a -> nth_error l' k = Some b ->
  nth_error (combine l l') k = Some (a, b).
Proof.
  revert l' k. induction l as [|x l IH]; intros l' k H H'.
  - destruct k; discriminate.
  - destruct l' as [|y l']; [destruct k; discriminate|].
    destruct k as [|k]; cbn [nth_error combine] in *.
    + now inversion H; inversion H'; subst.
    + now apply IH.
Qed.

(** The table of an input and of the output of [process_json]. *)
Lemma table_of_output (data : list dict) (texts : list str) (response_text : str) :
  texts_of data = Done texts ->
  comparison_data data (map dict_of_item (reassembled (items_of texts) response_text))
  = Done (rows_from 0 (combine texts
                         (map text (reassembled (items_of texts) response_text))))
  /\ length (rows_from 0 (combine texts
                            (map text (reassembled (items_of texts) response_text))))
     = length data.
Proof.
  intros T. split.
  - unfold comparison_data. apply comparison_rows_texts; [exact T | apply texts_of_items].
  - rewrite rows_from_length, length_combine, length_map.
    unfold reassembled. rewrite length_app, length_map, length_skipn.
    unfold items_of. rewrite length_map.
    pose proof (BatchFacts.texts_of_length _ T). lia.
Qed.

Lemma process_json_limit_ok (data : list item) (response_text : str)
      (output_data : list item) :
  snd (StreamlitAppLimit.process_json data response_text) = Ok output_data ->
  within_limit response_text = true
  /\ output_data = reassembled data response_text.
Proof.
  rewrite LimitFacts.process_json_limit_eq. cbn [snd].
  apply LimitFacts.process_limit_ok.
Qed.

(** X17: for an input whose objects all have the key [text], and for any
    output that [process_json] returns, the comparison table built from the
    input and from this output has exactly one row per input item; the row
    of position i shows the number i + 1, the input text and the output text
    of this position.  Output items beyond the input are not in the
    table. *)
Theorem table_one_row_per_input
        (data : list dict) (texts : list str) (response_text : str)
        (output_data : list item) :
  texts_of data = Done texts ->
  snd (StreamlitAppLimit.process_json (items_of texts) response_text) = Ok output_data ->
  exists rows,
    comparison_data data (map dict_of_item output_data) = Done rows
    /\ length rows = length data
    /\ forall k t o,
         nth_error texts k = Some t -> nth_error output_data k = Some o ->
         nth_error rows k = Some (k + 1, t, text o).
Proof.
  intros T O. destruct (process_json_limit_ok _ _ O) as [_ E]. subst output_data.
  destruct (@table_of_output data texts response_text T) as [C L].
  eexists. split; [exact C|]. split; [exact L|].
  intros k t o Ht Ho.
  apply (rows_from_nth 0), nth_error_combine; [exact Ht|].
  now apply map_nth_error.
Qed.

Lemma table_one_row_per_input_witness :
  (texts_of [[(lit "text", lit "Hello")]] = Done [lit "Hello"]
   /\ snd (StreamlitAppLimit.process_json (items_of [lit "Hello"]) (lit "[1] a
[1] b")) = Ok [{| text := lit "a" |}; {| text := lit "b" |}])
  /\ exists rows,
       comparison_data [[(lit "text", lit "Hello")]]
         (map dict_of_item [{| text := lit "a" |}; {| text := lit "b" |}])
       = Done rows
       /\ length rows = 1.
Proof.
  assert (O : snd (StreamlitAppLimit.process_json (items_of [lit "Hello"]) (lit "[1] a
[1] b")) = Ok [{| text := lit "a" |}; {| text := lit "b" |}])
    by (vm_compute; reflexivity).
  split; [split; [reflexivity | exact O]|].
  destruct (@table_one_row_per_input [[(lit "text", lit "Hello")]] [lit "Hello"] _ _
              eq_refl O) as (rows & A & B & _).
  exists rows. split; [exact A | exact B].
Defined.

Lemma kept_none (ts : list (N * str)) : kept 0 ts = [].
Proof.
  unfold kept. induction ts as [|e ts IH]; [reflexivity|].
  cbn [filter]. unfold in_range at 1.
  destruct (1 <=? fst e)%N eqn:A; cbn [andb]; [|exact IH].
  apply N.leb_le in A. destruct (fst e <=? N.of_nat 0)%N eqn:B; [|exact IH].
  apply N.leb_le in B. cbn in B. lia.
Qed.

Lemma reassembled_nil (response_text : str) : reassembled [] response_text = [].
Proof. unfold reassembled. cbn [length]. now rewrite kept_none. Qed.

Section Environment.

Variable generate_content : str -> outcome str.
Variable exception_text : exn -> str.

(** The run of [process_json], case by case. *)
Lemma process_json_run (data : list dict) (p : page) :
  process_json generate_content exception_text data p =
  match texts_of data with
  | Failed f => (p, Failed f)
  | Done texts =>
      match generate_content (streamlit_prompt_text (items_of texts)) with
      | Failed f => (asked p (streamlit_prompt_text (items_of texts)), Failed f)
      | Done response_text =>
          (shown (asked p (streamlit_prompt_text (items_of texts)))
                 [translation_completed],
           if within_limit response_text then
             Done (map dict_of_item (reassembled (items_of texts) response_text))
           else Failed (External (exception_text ValueError)))
      end
  end.
Proof.
  unfold process_json, ui_bind, of_outcome.
  destruct (texts_of data) as [texts|f]; [|reflexivity].
  fold (items_of texts). rewrite PromptFacts.streamlit_prompt_eq.
  fold (streamlit_prompt_text (items_of texts)).
  unfold of_result at 1. unfold ui_ret at 1. unfold request.
  fold (asked p (streamlit_prompt_text (items_of texts))).
  destruct (generate_content (streamlit_prompt_text (items_of texts))) as [r|f];
    [|reflexivity].
  rewrite LimitFacts.process_json_limit_eq, LimitFacts.process_entire_json_limit_eq.
  destruct (within_limit r); reflexivity.
Qed.

(** The run of the Translate button, case by case. *)
Lemma on_translate_run (uploaded_file : content) (p : page) :
  on_translate generate_content exception_text uploaded_file p =
  match uploaded_file with
  | NotJson decoder_message =>
      (shown p [Error (lit "Error: " ++ decoder_message)], Done tt)
  | Json data =>
      match process_json generate_content exception_text data
              (with_session p {| input_data := Some data;
                                 output_data := output_data (session p);
                                 tab_index := tab_index (session p) |}) with
      | (p', Failed f) => (shown p' [Error (lit "Error: " ++ message_of f)], Done tt)
      | (p', Done output) =>
          (with_session p' {| input_data := input_data (session p');
                              output_data := Some output;
                              tab_index := Some 1 |},
           Done tt)
      end
  end.
Proof.
  unfold on_translate, try_except, ui_bind, of_outcome, set_session.
  destruct uploaded_file as [data|m]; [|reflexivity].
  fold (with_session p {| input_data := Some data;
                          output_data := output_data (session p);
                          tab_index := tab_index (session p) |}).
  destruct (process_json generate_content exception_text data _) as [p' [out|f]];
    reflexivity.
Qed.

(** X18: a successful translation (the API answers and [process_json]
    returns its output) sends the prompt of the uploaded texts, once, stores
    the upload and the reassembled items in the session and selects the
    Results tab; for a non-empty upload, the Results tab then shows a table
    with one row per uploaded item. *)
Theorem translate_success (data : list dict) (texts : list str)
        (prompt response_text : str) (output : list item) (p : page) :
  texts_of data = Done texts ->
  StreamlitApp.prompt (items_of texts) = Ok prompt ->
  generate_content prompt = Done response_text ->
  snd (StreamlitAppLimit.process_json (items_of texts) response_text) = Ok output ->
  let after := fst (on_translate generate_content exception_text (Json data) p) in
  session after
  = {| input_data := Some data;
       output_data := Some (map dict_of_item output);
       tab_index := Some 1 |}
  /\ requests after = requests p ++ [prompt]
  /\ (data <> [] ->
      exists rows,
        results_tab (session after) = Done (Table rows)
        /\ length rows = length data).
Proof.
  intros T P G O. cbv zeta.
  pose proof (PromptFacts.streamlit_prompt_eq (items_of texts)) as Q.
  rewrite P in Q. fold (streamlit_prompt_text (items_of texts)) in Q.
  injection Q as E. subst prompt. clear P.
  destruct (process_json_limit_ok _ _ O) as [W E]. subst output.
  rewrite on_translate_run, process_json_run, T, G, W. cbn [fst].
  split; [reflexivity|]. split; [reflexivity|].
  intros NE. destruct (@table_of_output data texts response_text T) as [B C].
  eexists. split; [|exact C].
  cbn [session with_session shown asked]. unfold results_tab.
  cbn [output_data input_data].
  destruct (reassembled (items_of texts) response_text) as [|o out] eqn:R.
  - exfalso. destruct data as [|d data]; [congruence|].
    assert (L : length (d :: data) <= length (@nil item)); [|cbn in L; lia].
    rewrite <- R. unfold reassembled. rewrite length_app, length_map, length_skipn.
    unfold items_of. rewrite length_map.
    pose proof (BatchFacts.texts_of_length _ T). lia.
  - cbn [map] in *. now rewrite B.
Qed.

(** X19: when the API call fails, the session holds the new upload but
    keeps the output of the translation before, and the tab index; the
    error is shown, and nothing is raised. *)
Theorem translate_api_failure (data : list dict) (texts : list str)
        (prompt : str) (f : failure) (p : page) :
  texts_of data = Done texts ->
  StreamlitApp.prompt (items_of texts) = Ok prompt ->
  generate_content prompt = Failed f ->
  on_translate generate_content exception_text (Json data) p
  = ({| session := {| input_data := Some data;
                      output_data := output_data (session p);
                      tab_index := tab_index (session p) |};
        messages := messages p ++ [Error (lit "Error: " ++ message_of f)];
        requests := requests p ++ [prompt] |},
     Done tt).
Proof.
  intros T P G.
  pose proof (PromptFacts.streamlit_prompt_eq (items_of texts)) as Q.
  rewrite P in Q. fold (streamlit_prompt_text (items_of texts)) in Q.
  injection Q as E. subst prompt. clear P.
  now rewrite on_translate_run, process_json_run, T, G.
Qed.

(** X20: when an uploaded object has no key [text], no request is sent;
    the session holds the new upload but keeps the output of the
    translation before, and the error shown is the key between quotes. *)
Theorem translate_missing_text_key (data : list dict) (p : page) :
  Exists lacks_text data ->
  on_translate generate_content exception_text (Json data) p
  = ({| session := {| input_data := Some data;
                      output_data := output_data (session p);
                      tab_index := tab_index (session p) |};
        messages := messages p ++ [Error (lit "Error: 'text'")];
        requests := requests p |},
     Done tt).
Proof.
  intros L.
  now rewrite on_translate_run, process_json_run, (BatchFacts.texts_of_lacks L).
Qed.

(** X21: an upload that is not JSON changes nothing in the session and
    sends no request: the message of the decoder is shown as the error. *)
Theorem translate_not_json (decoder_message : str) (p : page) :
  on_translate generate_content exception_text (NotJson decoder_message) p
  = ({| session := session p;
        messages := messages p ++ [Error (lit "Error: " ++ decoder_message)];
        requests := requests p |},
     Done tt).
Proof. now rewrite on_translate_run. Qed.

(** X22: the Translate button never lets an exception out and sends at
    most one request, whatever is uploaded and whatever the API does. *)
Theorem translate_one_request_at_most (uploaded_file : content) (p : page) :
  let after := on_translate generate_content exception_text uploaded_file p in
  snd after = Done tt
  /\ exists rs, requests (fst after) = requests p ++ rs /\ length rs <= 1.
Proof.
  cbv zeta. rewrite on_translate_run.
  destruct uploaded_file as [data|m].
  - rewrite process_json_run. destruct (texts_of data) as [texts|f].
    + destruct (generate_content (streamlit_prompt_text (items_of texts))) as [r|f];
        [destruct (within_limit r)|];
        (split; [reflexivity|]; eexists; split; [reflexivity | cbn; lia]).
    + split; [reflexivity|]. exists []. cbn. rewrite app_nil_r. split; [reflexivity | lia].
  - split; [reflexivity|]. exists []. cbn. rewrite app_nil_r. split; [reflexivity | lia].
Qed.

(** X23: after the translation of an empty upload, whatever entries the
    response holds (its markers within the limit of [int()]), the output
    stored is empty and the Results tab shows the notice that asks to upload
    a file first, not a table. *)
Theorem empty_upload_notice (prompt response_text : str) (p : page) :
  StreamlitApp.prompt [] = Ok prompt ->
  generate_content prompt = Done response_text ->
  within_limit response_text = true ->
  let after := fst (on_translate generate_content exception_text (Json []) p) in
  output_data (session after) = Some []
  /\ results_tab (session after)
     = Done (Notice ([128072%N]
               ++ lit " Upload a file and translate it first to see results here")).
Proof.
  intros P G W. cbv zeta.
  pose proof (PromptFacts.streamlit_prompt_eq []) as Q.
  rewrite P in Q. fold (streamlit_prompt_text []) in Q.
  injection Q as E. subst prompt. clear P.
  rewrite on_translate_run, process_json_run. cbn [texts_of].
  change (items_of []) with (@nil item). rewrite G, W, reassembled_nil.
  split; reflexivity.
Qed.

End Environment.

Lemma translate_success_witness :
  (texts_of [[(lit "text", lit "Hello")]] = Done [lit "Hello"]
   /\ StreamlitApp.prompt (items_of [lit "Hello"])
      = Ok (streamlit_prompt_text (items_of [lit "Hello"]))
   /\ (fun _ : str => Done (lit "[1] Namaste"))
        (streamlit_prompt_text (items_of [lit "Hello"]))
      = Done (lit "[1] Namaste")
   /\ snd (StreamlitAppLimit.process_json (items_of [lit "Hello"]) (lit "[1] Namaste"))
      = Ok [{| text := lit "Namaste" |}])
  /\ session (fst (on_translate (fun _ => Done (lit "[1] Namaste")) (fun _ => [])
                     (Json [[(lit "text", lit "Hello")]]) fresh_page))
     = {| input_data := Some [[(lit "text", lit "Hello")]];
          output_data := Some [[(lit "text", lit "Namaste")]];
          tab_index := Some 1 |}.
Proof.
  assert (P : StreamlitApp.prompt (items_of [lit "Hello"])
              = Ok (streamlit_prompt_text (items_of [lit "Hello"])))
    by apply PromptFacts.streamlit_prompt_eq.
  assert (O : snd (StreamlitAppLimit.process_json (items_of [lit "Hello"])
                     (lit "[1] Namaste"))
              = Ok [{| text := lit "Namaste" |}]) by (vm_compute; reflexivity).
  split; [split; [reflexivity | split; [exact P | split; [reflexivity | exact O]]]|].
  exact (proj1 (@translate_success (fun _ => Done (lit "[1] Namaste")) (fun _ => [])
                  [[(lit "text", lit "Hello")]] [lit "Hello"] _ (lit "[1] Namaste") _
                  fresh_page eq_refl P eq_refl O)).
Defined.

Lemma translate_api_failure_witness :
  (texts_of [[(lit "text", lit "Hello")]] = Done [lit "Hello"]
   /\ StreamlitApp.prompt (items_of [lit "Hello"])
      = Ok (streamlit_prompt_text (items_of [lit "Hello"]))
   /\ (fun _ : str => @Failed str (External (lit "quota exceeded")))
        (streamlit_prompt_text (items_of [lit "Hello"]))
      = Failed (External (lit "quota exceeded")))
  /\ on_translate (fun _ => Failed (External (lit "quota exceeded"))) (fun _ => [])
       (Json [[(lit "text", lit "Hello")]]) fresh_page
     = ({| session := {| input_data := Some [[(lit "text", lit "Hello")]];
                         output_data := output_data (session fresh_page);
                         tab_index := tab_index (session fresh_page) |};
           messages := messages fresh_page
                         ++ [Error (lit "Error: "
                                      ++ message_of (External (lit "quota exceeded")))];
           requests := requests fresh_page
                         ++ [streamlit_prompt_text (items_of [lit "Hello"])] |},
        Done tt).
Proof.
  assert (P : StreamlitApp.prompt (items_of [lit "Hello"])
              = Ok (streamlit_prompt_text (items_of [lit "Hello"])))
    by apply PromptFacts.streamlit_prompt_eq.
  split; [repeat split; try reflexivity; exact P|].
  exact (@translate_api_failure (fun _ => Failed (External (lit "quota exceeded")))
           (fun _ => []) [[(lit "text", lit "Hello")]] [lit "Hello"] _
           (External (lit "quota exceeded")) fresh_page eq_refl P eq_refl).
Defined.

Lemma translate_missing_text_key_witness :
  Exists lacks_text [[(lit "txt", lit "Hello")]]
  /\ on_translate (fun _ => Done (lit "[1] Namaste")) (fun _ => [])
       (Json [[(lit "txt", lit "Hello")]]) fresh_page
     = ({| session := {| input_data := Some [[(lit "txt", lit "Hello")]];
                         output_data := output_data (session fresh_page);
                         tab_index := tab_index (session fresh_page) |};
           messages := messages fresh_page ++ [Error (lit "Error: 'text'")];
           requests := requests fresh_page |},
        Done tt).
Proof.
  assert (L : Exists lacks_text [[(lit "txt", lit "Hello")]])
    by (apply Exists_cons_hd; reflexivity).
  split; [exact L|].
  exact (@translate_missing_text_key (fun _ => Done (lit "[1] Namaste")) (fun _ => [])
           [[(lit "txt", lit "Hello")]] fresh_page L).
Defined.

Lemma empty_upload_notice_witness :
  (StreamlitApp.prompt [] = Ok (streamlit_prompt_text [])
   /\ (fun _ : str => Done (lit "[1] Namaste")) (streamlit_prompt_text [])
      = Done (lit "[1] Namaste")
   /\ within_limit (lit "[1] Namaste") = true)
  /\ output_data
       (session (fst (on_translate (fun _ => Done (lit "[1] Namaste")) (fun _ => [])
                        (Json []) fresh_page)))
     = Some [].
Proof.
  assert (P : StreamlitApp.prompt [] = Ok (streamlit_prompt_text []))
    by apply PromptFacts.streamlit_prompt_eq.
  assert (W : within_limit (lit "[1] Namaste") = true) by (vm_compute; reflexivity).
  split; [split; [exact P | split; [reflexivity | exact W]]|].
  exact (proj1 (@empty_upload_notice (fun _ => Done (lit "[1] Namaste")) (fun _ => [])
                  _ (lit "[1] Namaste") fresh_page P eq_refl W)).
Defined.

End InteractiveFacts.
